(** * BIM question-resolution pipeline: a shallow embedding

    The development follows the JavaScript sources:
    - [services/sqlite.js]         ([cosineSimilarity], [semanticSearch]),
    - [routes/chat.js]             ([norm], [stripEmpty], [detectHintCategory],
                                    [getMeta], [runQuery] and the POST handler),
    - [scripts/migrate-to-sqlite.js] and [services/snapshotIngest.js]
                                   (delete-then-insert ingest).

    JavaScript numbers are IEEE-754 binary64 values.  The arithmetic the
    sources use is collected in the class [Arith], and the embedding is
    written once over that class.  Its instance for the code is Rocq's
    primitive binary64 floats: what the code computes is stated at that
    instance, and every concrete evaluation below uses it.  The second
    instance, the real numbers, is exact arithmetic; a statement over it
    says nothing of the rounding of the code, and stands only beside its
    binary64 counterpart. *)

From Stdlib Require Import List String Ascii Bool ZArith NArith Lia.
From Stdlib Require Import Decimal DecimalString DecimalZ.
From Stdlib Require Import Floats.
From Stdlib Require Import Reals Lra.
From Stdlib Require Import Sorted.
Import ListNotations.

Set Implicit Arguments.

(** ** Arithmetic of JavaScript numbers *)

(** The result of [ToIntegerOrInfinity], as [Array.prototype.slice] and the
    like apply to their arguments. *)
Inductive ext_int : Type :=
| NegInf
| Fin (z : Z)
| PosInf.

Class Arith (T : Type) : Type := {
  num_zero : T;
  num_add : T -> T -> T;
  num_sub : T -> T -> T;
  num_mul : T -> T -> T;
  num_div : T -> T -> T;
  num_sqrt : T -> T;                   (* Math.sqrt *)
  num_is_zero : T -> bool;             (* x === 0 *)
  num_is_pos : T -> bool;              (* x > 0 *)
  num_is_nan : T -> bool;              (* isNaN(x) *)
  num_is_finite : T -> bool;           (* Number.isFinite(x) *)
  num_of_decimal : bool -> N -> nat -> T;
    (* the number denoted by the decimal literal [-]m * 10^-k *)
  num_to_integer : T -> ext_int        (* ToIntegerOrInfinity *)
}.

(** *** Instance 1: binary64, the arithmetic of the code *)

Module Float64.

(** Correctly rounded value of [m / 10^k] (sign [neg]); this is what
    [parseFloat] returns on the literal.  The quotient is computed with
    the sticky location of the remainder and rounded to nearest-even by
    the Standard Library's reference rounding. *)
Definition of_decimal (neg : bool) (m : N) (k : nat) : float :=
  match m with
  | N0 => if neg then (-0)%float else 0%float
  | Npos p =>
      let '(q, e, loc) :=
        SFdiv_core_binary prec emax (Zpos p) 0 (10 ^ Z.of_nat k)%Z 0 in
      SF2Prim (binary_round_aux prec emax neg q e loc)
  end.

(** Truncation toward zero. *)
Definition to_integer (x : float) : ext_int :=
  match Prim2SF x with
  | S754_nan => Fin 0
  | S754_zero _ => Fin 0
  | S754_infinity s => if s then NegInf else PosInf
  | S754_finite s m e =>
      let a := match e with
               | Zneg d => Z.shiftr (Zpos m) (Zpos d)
               | _ => Z.shiftl (Zpos m) e
               end in
      Fin (if s then Z.opp a else a)
  end.

#[global] Instance arith : Arith float := {
  num_zero := 0%float;
  num_add := PrimFloat.add;
  num_sub := PrimFloat.sub;
  num_mul := PrimFloat.mul;
  num_div := PrimFloat.div;
  num_sqrt := PrimFloat.sqrt;
  num_is_zero := fun x => PrimFloat.eqb x 0%float;
  num_is_pos := fun x => PrimFloat.ltb 0%float x;
  num_is_nan := PrimFloat.is_nan;
  num_is_finite := PrimFloat.is_finite;
  num_of_decimal := of_decimal;
  num_to_integer := to_integer
}.

End Float64.

(** *** Instance 2: exact real arithmetic *)

Module Exact.

Definition is_zero (x : R) : bool := if Req_dec_T x 0%R then true else false.
Definition is_pos (x : R) : bool := if Rlt_dec 0%R x then true else false.

Definition of_decimal (neg : bool) (m : N) (k : nat) : R :=
  let v := (IZR (Z.of_N m) / 10 ^ k)%R in if neg then (- v)%R else v.

Definition to_integer (x : R) : ext_int :=
  Fin (if Rlt_dec x 0%R then (- Int_part (- x))%Z else Int_part x).

#[global] Instance arith : Arith R := {
  num_zero := 0%R;
  num_add := Rplus;
  num_sub := Rminus;
  num_mul := Rmult;
  num_div := Rdiv;
  num_sqrt := sqrt;
  num_is_zero := is_zero;
  num_is_pos := is_pos;
  num_is_nan := fun _ => false;
  num_is_finite := fun _ => true;
  num_of_decimal := of_decimal;
  num_to_integer := to_integer
}.

End Exact.

(** ** [services/sqlite.js]: cosine similarity *)

Section Cosine.
Context {T : Type} `{Arith T}.

(** The three accumulators [dot], [magA], [magB] of the [for] loop. *)
Definition cosine_step (acc : T * T * T) (xy : T * T) : T * T * T :=
  let '(dot, magA, magB) := acc in
  let '(x, y) := xy in
  (num_add dot (num_mul x y), num_add magA (num_mul x x),
   num_add magB (num_mul y y)).

(** [cosineSimilarity(a, b)].  Both arguments are arrays (always truthy),
    so of the guard [!a || !b || a.length !== b.length] only the length
    test can fire. *)
Definition cosineSimilarity (a b : list T) : T :=
  if negb (Nat.eqb (List.length a) (List.length b)) then num_zero
  else
    let '(dot, magA, magB) :=
      fold_left cosine_step (combine a b) (num_zero, num_zero, num_zero) in
    let magnitude := num_mul (num_sqrt magA) (num_sqrt magB) in
    if num_is_zero magnitude then num_zero else num_div dot magnitude.

End Cosine.

(** ** JavaScript strings and values *)

(** Strings are modelled by their UTF-8 bytes. *)

Definition str_of_bytes (l : list nat) : string :=
  fold_right (fun n s => String (ascii_of_nat n) s) EmptyString l.

(** [WhiteSpace] and [LineTerminator] of ECMA-262, which [trim] removes:
    TAB, LF, VT, FF, CR, SP, then U+00A0, U+1680, U+2000..U+200A, U+2028,
    U+2029, U+202F, U+205F, U+3000 and U+FEFF in their UTF-8 encoding. *)
Definition whitespace : list string :=
  map str_of_bytes
    ([[9]; [10]; [11]; [12]; [13]; [32]; [194; 160]; [225; 154; 128]]
     ++ map (fun n => [226; 128; n]) (seq 128 11)
     ++ [[226; 128; 168]; [226; 128; 169]; [226; 128; 175];
         [226; 129; 159]; [227; 128; 128]; [239; 187; 191]]).

Fixpoint drop_prefix (p s : string) : option string :=
  match p, s with
  | EmptyString, _ => Some s
  | String a p', String b s' => if Ascii.eqb a b then drop_prefix p' s' else None
  | String _ _, EmptyString => None
  end.

(** Removes one leading whitespace character, if there is one. *)
Definition strip_ws (ws : list string) (s : string) : option string :=
  fold_right (fun w r => match drop_prefix w s with Some s' => Some s' | None => r end)
             None ws.

Fixpoint trim_front (ws : list string) (fuel : nat) (s : string) : string :=
  match fuel with
  | O => s
  | S fuel' =>
      match strip_ws ws s with
      | Some s' => trim_front ws fuel' s'
      | None => s
      end
  end.

Fixpoint rev_string (acc s : string) : string :=
  match s with
  | EmptyString => acc
  | String c s' => rev_string (String c acc) s'
  end.

Definition trimStart (s : string) : string :=
  trim_front whitespace (String.length s) s.

Definition trimEnd (s : string) : string :=
  let r := rev_string EmptyString s in
  rev_string EmptyString
    (trim_front (map (rev_string EmptyString) whitespace) (String.length r) r).

(** [String.prototype.trim]. *)
Definition trim (s : string) : string := trimEnd (trimStart s).

Definition nonempty (s : string) : bool :=
  match s with EmptyString => false | String _ _ => true end.

Section Values.
Context {T : Type} `{Arith T}.

(** The values a parsed JSON document, a request or a result row can hold.
    [JObj shown] stands for an array or an object; all the code ever does
    with one is test it for truthiness or convert it to the string
    [shown]. *)
Inductive jsval : Type :=
| JUndefined
| JNull
| JBool (b : bool)
| JNum (x : T)
| JStr (s : string)
| JObj (shown : string).

(** [ToBoolean]. *)
Definition truthy (v : jsval) : bool :=
  match v with
  | JUndefined | JNull => false
  | JBool b => b
  | JNum x => negb (num_is_zero x || num_is_nan x)
  | JStr s => nonempty s
  | JObj _ => true
  end.

(** [a || b]. *)
Definition js_or (a b : jsval) : jsval := if truthy a then a else b.

(** [a ?? b]. *)
Definition js_nullish (a b : jsval) : jsval :=
  match a with JUndefined | JNull => b | _ => a end.

(** [v === "s"] for a string constant. *)
Definition is_str (v : jsval) (s : string) : bool :=
  match v with JStr t => String.eqb t s | _ => false end.

(** [list.includes(v)] and [set.has(v)] for a list or set of strings. *)
Definition includes (l : list string) (v : jsval) : bool :=
  match v with JStr t => existsb (String.eqb t) l | _ => false end.

(** [Number::toString] and [StringToNumber] are conversions of the host
    engine, specified by ECMA-262.  The development takes
    them as parameters: every statement below holds whatever they return. *)
Variable Number_toString : T -> string.
Variable String_toNumber : string -> T.

(** [String(v)]. *)
Definition to_String (v : jsval) : string :=
  match v with
  | JUndefined => "undefined"
  | JNull => "null"
  | JBool true => "true"
  | JBool false => "false"
  | JNum x => Number_toString x
  | JStr s => s
  | JObj shown => shown
  end.

(** [ToIntegerOrInfinity(v)]. *)
Definition to_integer_or_infinity (v : jsval) : ext_int :=
  match v with
  | JUndefined => Fin 0
  | JNull => Fin 0
  | JBool b => Fin (if b then 1 else 0)
  | JNum x => num_to_integer x
  | JStr s => num_to_integer (String_toNumber s)
  | JObj shown => num_to_integer (String_toNumber shown)
  end.

(** [routes/chat.js]: [norm(s) = String(s || "").trim()]. *)
Definition norm (v : jsval) : string :=
  trim (to_String (js_or v (JStr ""))).

(** [stripEmpty(arr) = (arr || []).map(norm).filter(Boolean)]. *)
Definition stripEmpty (arr : list jsval) : list string :=
  filter nonempty (map norm arr).

(** [arr.slice(0, end)] with [end] already converted by
    [ToIntegerOrInfinity]: a negative [end] counts from the back. *)
Definition slice0 {A : Type} (l : list A) (e : ext_int) : list A :=
  let len := Z.of_nat (List.length l) in
  let final :=
    match e with
    | NegInf => 0%Z
    | Fin z => if (z <? 0)%Z then Z.max (len + z) 0 else Z.min z len
    | PosInf => len
    end in
  firstn (Z.to_nat final) l.

End Values.

Arguments jsval T : clear implicits.

(** ** The row store: table [elements] of [services/sqlite.js] *)

(** What a statement or a service call yields: a value, or a thrown error. *)
Inductive outcome (A : Type) : Type :=
| Ok (a : A)
| Throw (msg : string).
Arguments Ok {A} a.
Arguments Throw {A} msg.

Section Store.
Context {T : Type} `{Arith T}.

(** The 22 columns an [INSERT] of the ingest code binds.  TEXT columns
    are [option string] ([None] is SQL NULL).  The [embedding] cell is
    kept as what [JSON.parse] makes of its text: [Some None] is a text
    that [JSON.parse] rejects, [Some (Some v)] the array of numbers [v]. *)
Record row : Type := {
  urn : string;
  guid : option string;
  dbId : Z;
  name : option string;
  component_id : option Z;
  component_type : option string;
  type_name : option string;
  family_name : option string;
  is_asset : option string;
  level_number : option string;
  room_type : option string;
  room_name : option string;
  system_type : option string;
  system_name : option string;
  manufacturer : option string;
  model_name : option string;
  specification : option string;
  omniclass_title : option string;
  omniclass_number : option string;
  props_flat : option string;
  embedding : option (option (list T));
  embedding_model : option string
}.

(** The table: rows with their [id INTEGER PRIMARY KEY AUTOINCREMENT], in
    rowid order, and the largest rowid ever handed out.

    [scan_rank] is the part of the engine that this repository does not
    decide.  A statement with [LIMIT] and no [ORDER BY] keeps the values
    the engine comes to first, and the engine visits them along whichever
    index its query planner picks.  [scan_rank rows c v] is the rank at
    which, while the table holds [rows], the value [v] of column [c] is
    visited: smaller ranks first, values of equal rank in the rowid order
    of their first occurrence. *)
Record database : Type := {
  elements : list (Z * row);
  sqlite_sequence : Z;
  scan_rank : list (Z * row) -> string -> string -> Z
}.

Definition in_urn (u : string) (e : Z * row) : bool := String.eqb (urn (snd e)) u.

(** [DELETE FROM elements WHERE urn = ?] *)
Definition delete_urn (u : string) (db : database) : database :=
  {| elements := filter (fun e => negb (in_urn u e)) (elements db);
     sqlite_sequence := sqlite_sequence db;
     scan_rank := scan_rank db |}.

(** [INSERT INTO elements (...) VALUES (...)]: the new rowid is one more
    than the largest ever used. *)
Definition insert (db : database) (r : row) : database :=
  let i := (sqlite_sequence db + 1)%Z in
  {| elements := elements db ++ [(i, r)]; sqlite_sequence := i;
     scan_rank := scan_rank db |}.

(** [insertMany(rows)]: the transaction that runs the insert statement on
    every row in turn. *)
Definition insertMany (rows : list row) (db : database) : database :=
  fold_left insert rows db.

(** [SELECT COUNT( * ) as count FROM elements WHERE urn = ?] *)
Definition count_urn (u : string) (db : database) : nat :=
  List.length (filter (in_urn u) (elements db)).

(** Values in order of first occurrence. *)
Fixpoint distinct (l : list string) : list string :=
  match l with
  | [] => []
  | x :: l' => x :: filter (fun y => negb (String.eqb x y)) (distinct l')
  end.

Definition present (c : option string) : list string :=
  match c with
  | Some s => if nonempty s then [s] else []
  | None => []
  end.

(** [SELECT DISTINCT col FROM elements WHERE urn = ? AND col IS NOT NULL
    AND col != ''] for a TEXT column [col]: every distinct value.  The
    statement has no [ORDER BY].  Of the order of an answer that it reads
    in full the code uses nothing (it tests membership, and shows the list
    in a prompt); the values are listed by first occurrence in rowid
    order. *)
Definition select_distinct (col : row -> option string) (u : string)
    (db : database) : list string :=
  distinct (flat_map (fun e => present (col (snd e)))
                     (filter (in_urn u) (elements db))).

(** The stable sort of [l] by increasing [rank]. *)
Fixpoint insert_ranked {A : Type} (rank : A -> Z) (x : A) (l : list A)
  : list A :=
  match l with
  | [] => [x]
  | y :: l' =>
      if (rank y <? rank x)%Z then y :: insert_ranked rank x l'
      else x :: y :: l'
  end.

Definition sort_ranked {A : Type} (rank : A -> Z) (l : list A) : list A :=
  fold_right (insert_ranked rank) [] l.

(** The same statement with [LIMIT n], for the column named [c]: the
    first [n] of these values in the order in which the engine visits
    them. *)
Definition select_distinct_limit (c : string) (col : row -> option string)
    (u : string) (n : nat) (db : database) : list string :=
  firstn n (sort_ranked (scan_rank db (elements db) c)
                        (select_distinct col u db)).

(** [SELECT id, embedding FROM elements WHERE urn = ? AND embedding IS
    NOT NULL] *)
Definition select_embeddings (u : string) (db : database)
  : list (Z * option (list T)) :=
  flat_map (fun e => match embedding (snd e) with
                     | Some cell => [(fst e, cell)]
                     | None => []
                     end)
           (filter (in_urn u) (elements db)).

(** *** [semanticSearch] *)

(** [scores.sort((a, b) => b.score - a.score)].  The engine's sort is
    stable; for a comparator that is consistent it yields the list below:
    each entry is placed before the first entry, among those that
    followed it, that the comparator does not put in front of it. *)
Fixpoint insert_score (x : Z * T) (l : list (Z * T)) : list (Z * T) :=
  match l with
  | [] => [x]
  | y :: l' =>
      if num_is_pos (num_sub (snd y) (snd x))
      then y :: insert_score x l'
      else x :: y :: l'
  end.

Definition sort_scores (l : list (Z * T)) : list (Z * T) :=
  fold_right insert_score [] l.

(** [rows.map(row => ({ id, score: cosineSimilarity(query,
    JSON.parse(row.embedding)) }))]; [JSON.parse] may throw. *)
Fixpoint score_rows (q : list T) (rows : list (Z * option (list T)))
  : outcome (list (Z * T)) :=
  match rows with
  | [] => Ok []
  | (i, None) :: _ => Throw "SyntaxError: JSON.parse"
  | (i, Some v) :: rows' =>
      match score_rows q rows' with
      | Ok l => Ok ((i, cosineSimilarity q v) :: l)
      | Throw m => Throw m
      end
  end.

(** [semanticSearch(db, urn, queryEmbedding, k)], with [k] already
    converted by [ToIntegerOrInfinity] as [slice] does. *)
Definition semanticSearch (db : database) (u : string) (q : list T)
    (k : ext_int) : outcome (list Z) :=
  let rows := select_embeddings u db in
  if Nat.eqb (List.length rows) 0 then Ok []
  else
    match score_rows q rows with
    | Ok scores => Ok (map fst (slice0 (sort_scores scores) k))
    | Throw m => Throw m
    end.

End Store.

Arguments row T : clear implicits.
Arguments database T : clear implicits.

(** ** [routes/chat.js]: area extraction of the [sum_area] task *)

Definition digit_of (c : ascii) : option N :=
  let n := N_of_ascii c in
  if ((48 <=? n) && (n <=? 57))%N then Some (n - 48)%N else None.

(** The longest prefix of decimal digits: its value as a number, how many
    digits it has, and the rest of the string. *)
Fixpoint take_digits (acc : N) (len : nat) (s : string) : N * nat * string :=
  match s with
  | String c s' =>
      match digit_of c with
      | Some d => take_digits (10 * acc + d)%N (S len) s'
      | None => (acc, len, s)
      end
  | EmptyString => (acc, len, s)
  end.

(** A match of [/[-+]?\d+(?:[.,]\d+)?/] anchored at the start of [s], read
    as [parseFloat] reads the matched text once its comma is replaced by a
    point: sign, all digits as one number, count of fractional digits. *)
Definition match_number_at (s : string) : option (bool * N * nat) :=
  let '(neg, body) :=
    match s with
    | String "-" s' => (true, s')
    | String "+" s' => (false, s')
    | _ => (false, s)
    end in
  let '(int_part, int_len, rest) := take_digits 0 0 body in
  match int_len with
  | O => None
  | S _ =>
      match rest with
      | String c rest' =>
          if (Ascii.eqb c "." || Ascii.eqb c ",")%bool then
            let '(all, frac_len, _) := take_digits int_part 0 rest' in
            Some (neg, all, frac_len)
          else Some (neg, int_part, O)
      | EmptyString => Some (neg, int_part, O)
      end
  end.

(** The first (leftmost) match in [s]. *)
Fixpoint match_number (s : string) : option (bool * N * nat) :=
  match match_number_at s with
  | Some m => Some m
  | None =>
      match s with
      | String _ s' => match_number s'
      | EmptyString => None
      end
  end.

Section SumArea.
Context {T : Type} `{Arith T}.

(** The number one row contributes: [areaNum] at the end of the loop
    body ([0] when nothing was extracted). *)
Definition areaNum (area_raw : jsval T) : T :=
  match area_raw with
  | JNum x => x
  | JStr s =>
      match match_number s with
      | Some (neg, m, k) => num_of_decimal neg m k
      | None => num_zero
      end
  | _ => num_zero
  end.

(** One iteration of [for (const row of rows)] on the accumulators
    [total_area] and [n]. *)
Definition area_step (acc : T * nat) (area_raw : jsval T) : T * nat :=
  if negb (truthy area_raw) then acc
  else
    let a := areaNum area_raw in
    if (truthy (JNum a) && negb (num_is_nan a))%bool
    then (num_add (fst acc) a, S (snd acc))
    else acc.

Definition sum_area (raws : list (jsval T)) : T * nat :=
  fold_left area_step raws (num_zero, O).

End SumArea.

(** ** [routes/chat.js]: the question-resolution pipeline *)

Definition string_of_Z (z : Z) : string := NilZero.string_of_int (Z.to_int z).

Definition nl : string := String (ascii_of_nat 10) EmptyString.
Definition star : string := String (ascii_of_nat 42) EmptyString.

(** The fixed allow-list [allowedParams] of the handler. *)
Definition allowedParams : list string :=
  ["level_number"; "room_name"; "room_type"; "system_name"; "system_type";
   "manufacturer"; "model_name"; "type_name"; "family_name";
   "omniclass_title"]%string.

(** [sampleKeys] of [getMeta]. *)
Definition sampleKeys : list string :=
  ["level_number"; "room_name"; "room_type"; "system_name"; "system_type";
   "manufacturer"; "model_name"; "omniclass_title"; "type_name";
   "family_name"]%string.

(** The calls to the inference and embedding services, in the order the
    handler makes them. *)
Inductive call : Type :=
| CallHint        (* geminiJson in detectHintCategory *)
| CallIntent      (* geminiJson(intentPrompt) *)
| CallGeneral     (* geminiText(generalPrompt) *)
| CallParameters  (* geminiJson(parameterPrompt) *)
| CallValue       (* geminiJson(valuePrompt) *)
| CallEmbedding   (* client.embeddings.create in generateEmbedding *)
| CallAnswer.     (* geminiText(answerPrompt) *)

(** What [geminiJson] yields: the parsed document (an object, or a
    primitive, whose properties all read [undefined]), [null], or an error
    once its retries are used up. *)
Inductive reply (A : Type) : Type :=
| Replied (a : A)
| RepliedNull
| Failed (msg : string).
Arguments Replied {A} a.
Arguments RepliedNull {A}.
Arguments Failed {A} msg.

Section Pipeline.
Context {T : Type} `{Arith T}.
Variable Number_toString : T -> string.
Variable String_toNumber : string -> T.

Local Abbreviation value := (jsval T).
Local Abbreviation to_Str := (to_String Number_toString).
Local Abbreviation normalize := (norm Number_toString).

(** A result row of the store: column name to value; [r[k]] reads
    [undefined] for a column that is not there. *)
Definition sqlrow : Type := list (string * value).

Fixpoint get (r : sqlrow) (k : string) : value :=
  match r with
  | [] => JUndefined
  | (k', v) :: r' => if String.eqb k' k then v else get r' k
  end.

(** [db.prepare(sql).all(...params)] for the statements [runQuery]
    assembles at run time.  What SQLite answers to an assembled text is
    not decided by this repository: the engine is a parameter. *)
Variable sqlite_all : database T -> string -> list value -> outcome (list sqlrow).

(** The TEXT columns of the schema by name. *)
Definition text_column (c : string) : option (row T -> option string) :=
  if String.eqb c "urn" then Some (fun r => Some (urn r))
  else if String.eqb c "guid" then Some (@guid T)
  else if String.eqb c "name" then Some (@name T)
  else if String.eqb c "component_type" then Some (@component_type T)
  else if String.eqb c "type_name" then Some (@type_name T)
  else if String.eqb c "family_name" then Some (@family_name T)
  else if String.eqb c "is_asset" then Some (@is_asset T)
  else if String.eqb c "level_number" then Some (@level_number T)
  else if String.eqb c "room_type" then Some (@room_type T)
  else if String.eqb c "room_name" then Some (@room_name T)
  else if String.eqb c "system_type" then Some (@system_type T)
  else if String.eqb c "system_name" then Some (@system_name T)
  else if String.eqb c "manufacturer" then Some (@manufacturer T)
  else if String.eqb c "model_name" then Some (@model_name T)
  else if String.eqb c "specification" then Some (@specification T)
  else if String.eqb c "omniclass_title" then Some (@omniclass_title T)
  else if String.eqb c "omniclass_number" then Some (@omniclass_number T)
  else if String.eqb c "props_flat" then Some (@props_flat T)
  else if String.eqb c "embedding_model" then Some (@embedding_model T)
  else None.

(** [SELECT DISTINCT ${c} (AS v) FROM elements WHERE urn = ? AND ${c} IS
    NOT NULL AND ${c} != '' LIMIT n], the one statement shape that
    [getMeta] and the value step assemble from a column name.  A name
    that is no TEXT column makes the statement fail. *)
Definition select_distinct_named (c : string) (u : string) (n : nat)
    (db : database T) : outcome (list string) :=
  match text_column c with
  | Some col => Ok (select_distinct_limit c col u n db)
  | None => Throw ("SqliteError: no such column: " ++ c)
  end.

(** *** [getMeta] *)

(** [areaKeys] (the keys of [props_flat] that match [/area/i]) only feed
    the text of a prompt and are left out. *)
Record meta : Type := {
  categoryField : string;
  categories : list string;
  paramSamples : list (string * list string)
}.

Definition getMeta (db : database T) (u : string) : meta :=
  {| categoryField := "component_type";
     categories :=
       stripEmpty Number_toString
         (map (@JStr T) (select_distinct (@component_type T) u db));
     paramSamples :=
       map (fun k =>
              (k, match select_distinct_named k u 15 db with
                  | Ok vals => stripEmpty Number_toString (map (@JStr T) vals)
                  | Throw _ => []
                  end))
           sampleKeys |}.

(** *** [detectHintCategory] *)

Record hint_json : Type := {
  hint_category : value;
  hint_confidence : value;
  hint_reason : value
}.

(** [detectHintCategory(question, availableCategories)]: the value
    returned, and whether the inference service was called. *)
Definition detectHintCategory (question : string)
    (availableCategories : list string) (r : reply hint_json)
  : value * list call :=
  if (negb (nonempty question)
      || Nat.eqb (List.length availableCategories) 0)%bool
  then (JNull, [])
  else
    match r with
    | Replied result =>
        if (truthy (hint_category result)
            && negb (is_str (hint_confidence result) "low"))%bool
        then (hint_category result, [CallHint])
        else (JNull, [CallHint])
    | RepliedNull => (JNull, [CallHint])   (* TypeError, caught *)
    | Failed _ => (JNull, [CallHint])      (* caught *)
    end.

(** *** The plan *)

(** [plan1], the reply to [intentPrompt]. *)
Record intent_json : Type := {
  p1_intent : value;
  p1_task : value;
  p1_category : value;
  p1_limit : value;
  p1_notes : value
}.

(** [plan2], the reply to [parameterPrompt]. *)
Record params_json : Type := {
  p2_useSemanticSearch : value;
  p2_semanticQuery : value;
  p2_topK : value;
  p2_filterParam : value;
  p2_filterValue : value;
  p2_targetParam : value;
  p2_propsFlatKey : value;
  p2_limit : value
}.

(** [vp], the reply to [valuePrompt]. *)
Record value_json : Type := { vp_value : value }.

Record plan : Type := {
  plan_urn : string;
  intent : value;
  task : value;
  category : value;
  limit : value;
  filterParam : value;
  filterValue : value;
  targetParam : value;
  propsFlatKey : value;
  useSemanticSearch : value;
  semanticQuery : value;
  topK : value;
  notes : value
}.

Definition num (z : N) : value := JNum (num_of_decimal false z 0).

(** "Fix category if LLM missed but we have a strong hint and category
    exists": [category] after the two statements of the handler. *)
Definition chooseCategory (m : meta) (plan1 : intent_json)
    (hintCategory : value) : value :=
  let category :=
    if truthy (p1_category plan1) then JStr (normalize (p1_category plan1))
    else JNull in
  if (negb (truthy category) && truthy hintCategory
      && includes (categories m) hintCategory)%bool
  then hintCategory
  else category.

(** "Merge plan". *)
Definition mergePlan (u : string) (plan1 : intent_json)
    (plan2 : params_json) (cat : value) : plan :=
  {| plan_urn := u;
     intent := JStr "bim";
     task := js_or (p1_task plan1) (JStr "count");
     category := cat;
     limit := js_or (js_or (p2_limit plan2) (p1_limit plan1)) (num 20);
     filterParam := js_or (p2_filterParam plan2) JNull;
     filterValue := js_nullish (p2_filterValue plan2) JNull;
     targetParam := js_or (p2_targetParam plan2) JNull;
     propsFlatKey := js_or (p2_propsFlatKey plan2) JNull;
     useSemanticSearch := js_or (p2_useSemanticSearch plan2) (JBool false);
     semanticQuery := js_or (p2_semanticQuery plan2) JNull;
     topK := js_or (p2_topK plan2) (num 100);
     notes := js_or (p1_notes plan1) (JStr "") |}.

Definition set_filterParam (p : plan) (v : value) : plan :=
  {| plan_urn := plan_urn p; intent := intent p; task := task p;
     category := category p; limit := limit p; filterParam := v;
     filterValue := filterValue p; targetParam := targetParam p;
     propsFlatKey := propsFlatKey p;
     useSemanticSearch := useSemanticSearch p;
     semanticQuery := semanticQuery p; topK := topK p; notes := notes p |}.

Definition set_targetParam (p : plan) (v : value) : plan :=
  {| plan_urn := plan_urn p; intent := intent p; task := task p;
     category := category p; limit := limit p; filterParam := filterParam p;
     filterValue := filterValue p; targetParam := v;
     propsFlatKey := propsFlatKey p;
     useSemanticSearch := useSemanticSearch p;
     semanticQuery := semanticQuery p; topK := topK p; notes := notes p |}.

Definition set_filterValue (p : plan) (v : value) : plan :=
  {| plan_urn := plan_urn p; intent := intent p; task := task p;
     category := category p; limit := limit p; filterParam := filterParam p;
     filterValue := v; targetParam := targetParam p;
     propsFlatKey := propsFlatKey p;
     useSemanticSearch := useSemanticSearch p;
     semanticQuery := semanticQuery p; topK := topK p; notes := notes p |}.

Definition set_useSemanticSearch (p : plan) (v : value) : plan :=
  {| plan_urn := plan_urn p; intent := intent p; task := task p;
     category := category p; limit := limit p; filterParam := filterParam p;
     filterValue := filterValue p; targetParam := targetParam p;
     propsFlatKey := propsFlatKey p;
     useSemanticSearch := v;
     semanticQuery := semanticQuery p; topK := topK p; notes := notes p |}.

(** "Normalize known params": a [filterParam] or [targetParam] outside
    [allowedParams] becomes [null]. *)
Definition sanitize (p : plan) : plan :=
  let p :=
    if (truthy (filterParam p) && negb (includes allowedParams (filterParam p)))%bool
    then set_filterParam p JNull else p in
  if (truthy (targetParam p) && negb (includes allowedParams (targetParam p)))%bool
  then set_targetParam p JNull else p.

(** *** Step 2.5: the value prompt *)

(** [proposed]: the trimmed [filterValue], or [''] when it is [null] or
    [undefined]. *)
Definition proposed (p : plan) : string :=
  match filterValue p with
  | JNull | JUndefined => ""
  | v => trim (to_Str v)
  end.

(** [candidates.some((v) => String(v).trim() === s)]. *)
Definition hits (candidates : list string) (s : string) : bool :=
  existsb (fun v => String.eqb (trim v) s) candidates.

(** [candidates] of the value step: at most 200 values. *)
Definition candidates_of (db : database T) (p : plan) : outcome (list string) :=
  match select_distinct_named (to_Str (filterParam p)) (plan_urn p) 200 db with
  | Ok vals => Ok (stripEmpty Number_toString (map (@JStr T) vals))
  | Throw m => Throw m
  end.

(** The block [if (plan.filterParam) { try { ... } catch { } }]: the plan
    it leaves, and whether the value prompt was sent. *)
Definition valueStep (db : database T) (p : plan) (r : reply value_json)
  : plan * list call :=
  if negb (truthy (filterParam p)) then (p, [])
  else
    match candidates_of db p with
    | Throw _ => (p, [])
    | Ok candidates =>
        if Nat.eqb (List.length candidates) 0 then (p, [])
        else
          let exactHit := (nonempty (proposed p) && hits candidates (proposed p))%bool in
          if (negb exactHit && nonempty (proposed p))%bool then
            match r with
            | Replied vp =>
                match vp_value vp with
                | JNull | JUndefined => (p, [CallValue])
                | v =>
                    if hits candidates (trim (to_Str v))
                    then (set_filterValue p v, [CallValue])
                    else (p, [CallValue])
                end
            | RepliedNull => (p, [CallValue])
            | Failed _ => (p, [CallValue])
            end
          else (p, [])
    end.

(** *** [runQuery] *)

(** [generateEmbedding(text)] of [services/embeddings.js]: [null] without a
    call for a text that is no non-blank string, else what the embedding
    service answers ([Ok None]: an answer that carries no vector). *)
Definition generateEmbedding (text : value)
    (service : outcome (option (list T)))
  : outcome (option (list T)) * list call :=
match text with
| JStr s =>
    if nonempty (trim s) then (service, [CallEmbedding]) else (Ok None, [])
| _ => (Ok None, [])
end.

(** [candidateIds] after the block "Semantic search" ([None] is [null]). *)
Definition candidateIds (db : database T) (p : plan)
    (service : outcome (option (list T)))
  : option (list Z) * list call :=
if (truthy (useSemanticSearch p) && truthy (semanticQuery p))%bool then
  match generateEmbedding (semanticQuery p) service with
  | (Ok (Some queryEmbed), calls) =>
      match semanticSearch db (plan_urn p) queryEmbed
              (to_integer_or_infinity String_toNumber (js_or (topK p) (num 100))) with
      | Ok ids => (Some ids, calls)
      | Throw _ => (None, calls)       (* caught: continue with regular query *)
      end
  | (Ok None, calls) => (None, calls)
  | (Throw _, calls) => (None, calls)  (* caught *)
  end
else (None, []).

(** [category] of [runQuery]: [plan.category ? norm(plan.category) : null];
    the clause is added [if (category)]. *)
Definition query_category (p : plan) : option string :=
if truthy (category p) then
  let c := normalize (category p) in
  if nonempty c then Some c else None
else None.

(** The test that guards the filter clause. *)
Definition has_filter (p : plan) : bool :=
(truthy (filterParam p)
 && match filterValue p with
    | JUndefined | JNull => false
    | v => nonempty (trim (to_Str v))
    end)%bool.

(** [whereClauses] and [params] as "Build WHERE clause" leaves them. *)
Definition whereClauses (m : meta) (p : plan) (ids : option (list Z))
  : list string :=
["urn = ?"%string]
++ match ids with
   | Some (i :: ids') =>
       [("id IN (" ++ String.concat "," (map string_of_Z (i :: ids')) ++ ")")%string]
   | _ => []
   end
++ match query_category p with
   | Some _ => [(categoryField m ++ " = ?")%string]
   | None => []
   end
++ (if has_filter p then [(to_Str (filterParam p) ++ " = ?")%string] else []).

Definition params (p : plan) : list value :=
[JStr (plan_urn p)]
++ match query_category p with
   | Some c => [JStr c]
   | None => []
   end
++ (if has_filter p then [filterValue p] else []).

Definition whereClause (m : meta) (p : plan) (ids : option (list Z)) : string :=
String.concat " AND " (whereClauses m p ids).

(** One listed row, its flat attributes nested again. *)
Record doc : Type := {
  doc_urn : value;
  doc_guid : value;
  doc_dbId : value;
  doc_name : value;
  doc_basic : list (string * value);
  doc_location : list (string * value);
  doc_system : list (string * value);
  doc_equipment : list (string * value);
  doc_omniclass : list (string * value)
}.

Definition nest (r : sqlrow) : doc :=
{| doc_urn := get r "urn";
   doc_guid := get r "guid";
   doc_dbId := get r "dbId";
   doc_name := get r "name";
   doc_basic := [("component_type", get r "component_type");
                 ("type_name", get r "type_name");
                 ("family_name", get r "family_name")]%string;
   doc_location := [("level_number", get r "level_number");
                    ("room_name", get r "room_name");
                    ("room_type", get r "room_type")]%string;
   doc_system := [("system_type", get r "system_type");
                  ("system_name", get r "system_name")]%string;
   doc_equipment := [("manufacturer", get r "manufacturer");
                     ("model_name", get r "model_name")]%string;
   doc_omniclass := [("title", get r "omniclass_title");
                     ("number", get r "omniclass_number")]%string |}.

(** The tagged union [{ kind, ... }] that [runQuery] returns. *)
Inductive query_result : Type :=
| KCount (count : value)
| KDistinct (field : value) (values : list string)
| KGroupCount (field : value) (rows : list sqlrow)
| KSumArea (propsFlatKey : value) (total_area : T) (n : nat)
| KList (docs : list doc).

Definition sql_count (wc : string) : string :=
("SELECT COUNT(" ++ star ++ ") as count FROM elements WHERE " ++ wc)%string.

Definition sql_distinct (f wc : string) : string :=
("SELECT DISTINCT " ++ f ++ " FROM elements WHERE " ++ wc ++ " AND " ++ f
 ++ " IS NOT NULL LIMIT ?")%string.

Definition sql_group_count (f wc : string) : string :=
("SELECT " ++ f ++ ", COUNT(" ++ star ++ ") as count" ++ nl
 ++ "       FROM elements" ++ nl
 ++ "       WHERE " ++ wc ++ " AND " ++ f ++ " IS NOT NULL" ++ nl
 ++ "       GROUP BY " ++ f ++ nl
 ++ "       ORDER BY count DESC" ++ nl
 ++ "       LIMIT ?")%string.

Definition sql_sum_area (wc : string) : string :=
("SELECT json_extract(props_flat, ?) as area_raw FROM elements WHERE " ++ wc)%string.

Definition sql_list (wc : string) : string :=
("SELECT urn, guid, dbId, name, component_type, type_name, family_name," ++ nl
 ++ "            level_number, room_name, room_type," ++ nl
 ++ "            system_type, system_name," ++ nl
 ++ "            manufacturer, model_name," ++ nl
 ++ "            omniclass_title, omniclass_number" ++ nl
 ++ "     FROM elements" ++ nl
 ++ "     WHERE " ++ wc ++ nl
 ++ "     LIMIT ?")%string.

(** [limit]: [Number.isFinite(plan.limit) ? plan.limit : 20]. *)
Definition query_limit (p : plan) : value :=
match limit p with
| JNum x => if num_is_finite x then JNum x else num 20
| _ => num 20
end.

(** The statement of each task, run against the assembled [WHERE]. *)
Definition run_task (db : database T) (m : meta) (p : plan)
    (ids : option (list Z)) : outcome query_result :=
let wc := whereClause m p ids in
if is_str (task p) "count" then
  match sqlite_all db (sql_count wc) (params p) with
  | Ok (r :: _) => Ok (KCount (get r "count"))
  | Ok [] => Throw "TypeError: row is undefined"
  | Throw e => Throw e
  end
else if is_str (task p) "distinct" then
  let field := targetParam p in
  if negb (truthy field) then Throw "distinct requires targetParam"
  else
    match sqlite_all db (sql_distinct (to_Str field) wc)
                     (params p ++ [query_limit p]) with
    | Ok rows =>
        Ok (KDistinct field
              (stripEmpty Number_toString
                          (map (fun r => get r (to_Str field)) rows)))
    | Throw e => Throw e
    end
else if is_str (task p) "group_count" then
  let field := targetParam p in
  if negb (truthy field) then Throw "group_count requires targetParam"
  else
    match sqlite_all db (sql_group_count (to_Str field) wc)
                     (params p ++ [query_limit p]) with
    | Ok rows => Ok (KGroupCount field rows)
    | Throw e => Throw e
    end
else if is_str (task p) "sum_area" then
  let key := propsFlatKey p in
  if negb (truthy key) then Throw "sum_area requires propsFlatKey"
  else
    match sqlite_all db (sql_sum_area wc)
                     (JStr ("$." ++ to_Str key) :: params p) with
    | Ok rows =>
        let '(total, n) := sum_area (map (fun r => get r "area_raw") rows) in
        Ok (KSumArea key total n)
    | Throw e => Throw e
    end
else
  match sqlite_all db (sql_list wc) (params p ++ [query_limit p]) with
  | Ok rows => Ok (KList (map nest rows))
  | Throw e => Throw e
  end.

(** [runQuery(db, meta, plan)], with the answer of the embedding service
    should it be asked. *)
Definition runQuery (db : database T) (m : meta) (p : plan)
    (embedding_service : outcome (option (list T)))
  : outcome query_result * list call :=
let '(ids, calls) := candidateIds db p embedding_service in
(run_task db m p ids, calls).

(** *** The handler of [POST /] *)

(** What the services answer during one request, call site by call site. *)
Record services : Type := {
  hint_reply : reply hint_json;
  intent_reply : reply intent_json;
  general_text : outcome string;
  params_reply : reply params_json;
  value_reply : reply value_json;
  embedding_service : outcome (option (list T));
  answer_text : outcome string
}.

(** The handler up to "Final plan". *)
Inductive planned : Type :=
| Rejected (error : string)        (* status 400 *)
| General                          (* plan1.intent === "general" *)
| PlanError (msg : string)         (* next(err) *)
| Planned (m : meta) (p : plan).

Definition planning (db : database T) (u question : string) (sv : services)
  : planned * list call :=
if negb (nonempty u) then (Rejected "Missing urn", [])
else if negb (nonempty question) then (Rejected "Missing question", [])
else
  let m := getMeta db u in
  let '(hintCategory, c0) :=
    detectHintCategory question (categories m) (hint_reply sv) in
  match intent_reply sv with
  | Failed e => (PlanError e, c0 ++ [CallIntent])
  | RepliedNull => (PlanError "TypeError: plan1 is null", c0 ++ [CallIntent])
  | Replied plan1 =>
      if is_str (p1_intent plan1) "general" then (General, c0 ++ [CallIntent])
      else
        let cat := chooseCategory m plan1 hintCategory in
        match params_reply sv with
        | Failed e => (PlanError e, c0 ++ [CallIntent; CallParameters])
        | RepliedNull =>
            (PlanError "TypeError: plan2 is null", c0 ++ [CallIntent; CallParameters])
        | Replied plan2 =>
            let p := sanitize (mergePlan u plan1 plan2 cat) in
            let '(p, cv) := valueStep db p (value_reply sv) in
            (Planned m p, c0 ++ [CallIntent; CallParameters] ++ cv)
        end
  end.

Inductive response : Type :=
| BadRequest (error : string)
| AnswerGeneral (answer : string)
| AnswerBim (answer : string) (hits : query_result)
| ServerError (msg : string).

Definition handler (db : database T) (u question : string) (sv : services)
  : response * list call :=
match planning db u question sv with
| (Rejected e, calls) => (BadRequest e, calls)
| (PlanError e, calls) => (ServerError e, calls)
| (General, calls) =>
    match general_text sv with
    | Ok answer => (AnswerGeneral answer, calls ++ [CallGeneral])
    | Throw e => (ServerError e, calls ++ [CallGeneral])
    end
| (Planned m p, calls) =>
    match runQuery db m p (embedding_service sv) with
    | (Throw e, ce) => (ServerError e, calls ++ ce)
    | (Ok result, ce) =>
        match answer_text sv with
        | Ok answer => (AnswerBim answer result, calls ++ ce ++ [CallAnswer])
        | Throw e => (ServerError e, calls ++ ce ++ [CallAnswer])
        end
    end
end.

End Pipeline.

(** ** Ingest: [scripts/migrate-to-sqlite.js] and [services/snapshotIngest.js] *)

Section Ingest.
Context {T : Type} `{Arith T}.

(** An element as the input file or the viewer delivers it.  Which of its
    properties feeds which column is decided by [findInFlat] over the
    keyword tables of [dmMapping.js]; that reading is [extract], a pure
    function of the element, and it is kept abstract. *)
Variable raw : Type.
Variable extract : raw -> row T.

(** [{ urn, guid, ...groups }]: the row carries the keys it is given. *)
Definition with_keys (r : row T) (u g : string) : row T :=
{| urn := u; guid := Some g; dbId := dbId r; name := name r;
   component_id := component_id r; component_type := component_type r;
   type_name := type_name r; family_name := family_name r;
   is_asset := is_asset r; level_number := level_number r;
   room_type := room_type r; room_name := room_name r;
   system_type := system_type r; system_name := system_name r;
   manufacturer := manufacturer r; model_name := model_name r;
   specification := specification r; omniclass_title := omniclass_title r;
   omniclass_number := omniclass_number r; props_flat := props_flat r;
   embedding := embedding r; embedding_model := embedding_model r |}.

(** [row.embedding = embeddings[i] ? JSON.stringify(embeddings[i]) : null]
    and the like for [embedding_model]. *)
Definition with_embedding (r : row T) (e : option (list T)) : row T :=
{| urn := urn r; guid := guid r; dbId := dbId r; name := name r;
   component_id := component_id r; component_type := component_type r;
   type_name := type_name r; family_name := family_name r;
   is_asset := is_asset r; level_number := level_number r;
   room_type := room_type r; room_name := room_name r;
   system_type := system_type r; system_name := system_name r;
   manufacturer := manufacturer r; model_name := model_name r;
   specification := specification r; omniclass_title := omniclass_title r;
   omniclass_number := omniclass_number r; props_flat := props_flat r;
   embedding := match e with Some v => Some (Some v) | None => None end;
   embedding_model :=
     match e with Some _ => Some "text-embedding-3-small"%string | None => None end |}.

Definition transformElement (elem : raw) (u g : string) : row T :=
with_keys (extract elem) u g.

(** "Add embeddings to rows": [embeddings[i]] is [undefined] past the end. *)
Fixpoint add_embeddings (rows : list (row T))
    (embeddings : list (option (list T))) : list (row T) :=
match rows with
| [] => []
| r :: rows' =>
    with_embedding r (hd None embeddings) :: add_embeddings rows' (tl embeddings)
end.

(** [migrate()] from step 3 on, for the partition key [u]; [embeddings] is
    what step 4 obtained (all [null] when the service failed). *)
Definition migrate (u g : string) (rawData : list raw)
    (embeddings : list (option (list T))) (db : database T) : database T :=
let rows := map (fun elem => transformElement elem u g) rawData in
let rows := add_embeddings rows embeddings in
insertMany rows (delete_urn u db).

(** [services/snapshotIngest.js] *)

Definition transformSnapshotElement (elem : raw) (u g : string) : row T :=
with_embedding (with_keys (extract elem) u g) None.

Definition initSnapshot (u : string) (db : database T) : database T :=
delete_urn u db.

Definition ingestSnapshotChunk (u g : string) (elems : list raw)
    (db : database T) : database T :=
match elems with
| [] => db
| _ => insertMany (map (fun e => transformSnapshotElement e u g) elems) db
end.

(** [finishSnapshot]: the count it reports. *)
Definition finishSnapshot (u : string) (db : database T) : nat := count_urn u db.

(** One snapshot as [public/snapshot.js] drives it: init, then the chunks. *)
Definition snapshot (u g : string) (chunks : list (list raw))
    (db : database T) : database T :=
fold_left (fun d chunk => ingestSnapshotChunk u g chunk d) chunks
          (initSnapshot u db).

End Ingest.

(** ** Auxiliary definitions of the proofs *)

(** The property values of the [sum_area] example. *)
Definition example_areas : list (jsval float) :=
  [JStr "120.5 m²"; JStr "80,25"; JNull; JStr "not a number"]%string.

(** The closed examples contain no number that is converted to a string
    and no string that is converted to a number; they fix the two
    conversions of the host engine arbitrarily. *)
Definition toString0 (x : float) : string := EmptyString.
Definition toNumber0 (s : string) : float := nan.

(** An empty table, in an engine that visits the values of every column in
    the rowid order of their first occurrence. *)
Definition empty_db : database float :=
  {| elements := []; sqlite_sequence := 0; scan_rank := fun _ _ _ => 0%Z |}.

Definition no_meta : meta :=
  {| categoryField := "component_type"; categories := []; paramSamples := [] |}.

(** The number the loop extracts from [area_raw], if any: the value of a
    number, the first decimal number of a string. *)
Definition extracted (area_raw : jsval float) : option float :=
  match area_raw with
  | JNum x => Some x
  | JStr s =>
      match match_number s with
      | Some (neg, m, k) => Some (Float64.of_decimal neg m k)
      | None => None
      end
  | _ => None
  end.

(** The rows of partition [u], in rowid order. *)
Definition partition_rows {T : Type} (u : string) (db : database T) : list (row T) :=
  map snd (filter (in_urn u) (elements db)).

(** A row of partition [u] with the given category, room name and parsed
    embedding cell, every other column NULL. *)
Definition example_row {T : Type} (u : string) (cat room : option string)
    (emb : option (option (list T))) : row T :=
  {| urn := u; guid := None; dbId := 0; name := None; component_id := None;
     component_type := cat; type_name := None; family_name := None;
     is_asset := None; level_number := None; room_type := None;
     room_name := room; system_type := None; system_name := None;
     manufacturer := None; model_name := None; specification := None;
     omniclass_title := None; omniclass_number := None; props_flat := None;
     embedding := emb; embedding_model := None |}.

(** Three rows of partition ["u"] with stored embeddings. *)
Definition db3 : database float :=
  insertMany
    [example_row "u" (Some "Doors") None (Some (Some [0%float; 1%float]));
     example_row "u" (Some "Doors") None (Some (Some [1%float; 0%float]));
     example_row "u" (Some "Walls") None (Some (Some [1%float; 1%float]))]%string
    empty_db.

(** Replies of the inference service to the hint prompt. *)
Definition hint_of (c confidence : string) : hint_json (T:=float) :=
  {| hint_category := JStr c; hint_confidence := JStr confidence;
     hint_reason := JStr "" |}.

(** A partition ["u"] with two doors and a wall. *)
Definition db_doors : database float :=
  insertMany
    [example_row "u" (Some "Doors") (Some "Kitchen") None;
     example_row "u" (Some "Doors") (Some "Hall") None;
     example_row "u" (Some "Walls") (Some "Hall") None]%string
    empty_db.

Definition intent_of (t : string) (c : jsval float) : intent_json (T:=float) :=
  {| p1_intent := JStr "bim"; p1_task := JStr t; p1_category := c;
     p1_limit := JUndefined; p1_notes := JUndefined |}.

Definition params_of (fp fv tp : jsval float) : params_json (T:=float) :=
  {| p2_useSemanticSearch := JUndefined; p2_semanticQuery := JUndefined;
     p2_topK := JUndefined; p2_filterParam := fp; p2_filterValue := fv;
     p2_targetParam := tp; p2_propsFlatKey := JUndefined;
     p2_limit := JUndefined |}.

(** The services of one request: the hint call fails, the planner replies
    [plan1] and [plan2], no embedding is available. *)
Definition services_of (plan1 : intent_json (T:=float))
    (plan2 : params_json (T:=float)) (vp : reply (value_json (T:=float)))
  : services (T:=float) :=
  {| hint_reply := Failed "unavailable"; intent_reply := Replied plan1;
     general_text := Ok ""%string; params_reply := Replied plan2;
     value_reply := vp; embedding_service := Throw "unavailable";
     answer_text := Ok ""%string |}.

(** A planner that names a category the catalog does not list. *)
Definition unlisted_category_services : services (T:=float) :=
  services_of (intent_of "count" (JStr "Furniture"))
              (params_of JUndefined JUndefined JUndefined) RepliedNull.

(** A planner that proposes a filter on a listed attribute and a target
    that is no attribute at all. *)
Definition injection_services : services (T:=float) :=
  services_of (intent_of "distinct" (JStr "Doors"))
              (params_of (JStr "room_name") (JStr "Kitchen")
                         (JStr "name; DROP TABLE elements"))
              RepliedNull.

(** [null], or a name of the allow-list. *)
Definition allowed_or_null {T : Type} (v : jsval T) : Prop :=
  v = JNull \/ exists a, In a allowedParams /\ v = JStr a.



(** A plan that asks for semantic retrieval. *)
Definition semantic_plan : plan (T:=float) :=
  {| plan_urn := "u"; intent := JStr "bim"; task := JStr "count";
     category := JStr "Doors"; limit := JNum 20%float;
     filterParam := JNull; filterValue := JNull;
     targetParam := JNull; propsFlatKey := JNull;
     useSemanticSearch := JBool true; semanticQuery := JStr "glass";
     topK := JNum 100%float; notes := JStr "" |}.

(** A store that reports a count of 15 whatever it is asked. *)
Definition count_engine (db : database float) (sql : string)
    (ps : list (jsval float)) : outcome (list (sqlrow (T:=float))) :=
  Ok [[("count"%string, JNum 15%float)]].

(** In binary64: the comparator of the sort, [b.score - a.score], does not
    ask for [b] to come first. *)
Definition in_order (a b : Z * float) : Prop :=
  PrimFloat.ltb 0 (snd b - snd a) = false.

(** A plan that filters the rooms of [db_doors] on a misspelt name. *)
Definition kitchen_plan : plan (T:=float) :=
  {| plan_urn := "u"; intent := JStr "bim"; task := JStr "count";
     category := JStr "Doors"; limit := JNum 20%float;
     filterParam := JStr "room_name"; filterValue := JStr "kitchen";
     targetParam := JNull; propsFlatKey := JNull;
     useSemanticSearch := JBool false; semanticQuery := JNull;
     topK := JNum 100%float; notes := JStr "" |}.

(** A spec float above zero. *)
Definition sf_pos (x : spec_float) : bool := SFltb (S754_zero false) x.

(** The least exponent of binary64. *)
Definition emin64 : Z := SpecFloat.emin prec emax.

(** In binary64: the score of [b] is at most the score of [a]. *)
Definition not_below (a b : Z * float) : Prop :=
  PrimFloat.leb (snd b) (snd a) = true.

(** Two rows of partition ["u"]; the squared norm of the first overflows. *)
Definition db_overflow : database float :=
  insertMany
    [example_row "u" (Some "Doors") None (Some (Some [0x1p700%float]));
     example_row "u" (Some "Doors") None (Some (Some [1%float]))]%string
    empty_db.


(** * The code around the pipeline *)

(** ** [services/gemini.js] *)

(** What a call of [geminiJson] ends with: the parsed document, or the
    error it throws ([lastErr], which is [undefined] when the loop body
    never ran). *)
Inductive completion (A : Type) : Type :=
| Returned (a : A)
| Raised (lastErr : option string).
Arguments Returned {A} a.
Arguments Raised {A} lastErr.

Section Gemini.
Local Open Scope string_scope.

(** [s] without its suffix [p], when it ends with [p]. *)
Definition drop_suffix (p s : string) : option string :=
  match drop_prefix (rev_string "" p) (rev_string "" s) with
  | Some r => Some (rev_string "" r)
  | None => None
  end.

(** What the flag [i] compares: an ASCII letter by its upper-case form,
    any other byte by itself.  (A character outside ASCII is never
    folded onto an ASCII one, so a byte of its encoding never equals the
    upper-case form of an ASCII letter either.) *)
Definition upper_ascii (c : ascii) : ascii :=
  let n := N_of_ascii c in
  if ((97 <=? n) && (n <=? 122))%N then ascii_of_N (n - 32) else c.

(** A word of ASCII letters matched at the start of [s] under the flag
    [i]: the rest of [s]. *)
Fixpoint drop_prefix_i (p s : string) : option string :=
  match p, s with
  | EmptyString, _ => Some s
  | String a p', String b s' =>
      if Ascii.eqb (upper_ascii a) (upper_ascii b) then drop_prefix_i p' s'
      else None
  | String _ _, EmptyString => None
  end.

(** [s.replace(/^\s*```(?:json)?\s*/i, "")]: each quantifier is greedy and
    what follows it cannot start with what it consumes, so the match, if
    there is one, takes all the leading whitespace, the fence, the word
    [json] when it is there, and all the whitespace after it. *)
Definition strip_open (s : string) : string :=
  match drop_prefix "```" (trimStart s) with
  | Some r =>
      trimStart (match drop_prefix_i "json" r with
                 | Some r' => r'
                 | None => r
                 end)
  | None => s
  end.

(** [s.replace(/\s*```\s*$/i, "")]: the fence has to be the last thing
    before the trailing whitespace; the leftmost match starts at the first
    of the whitespace characters in front of it. *)
Definition strip_close (s : string) : string :=
  match drop_suffix "```" (trimEnd s) with
  | Some r => trimEnd r
  | None => s
  end.

Definition stripCodeFences (s : string) : string :=
  if nonempty s then trim (strip_close (strip_open s)) else s.

(** *** [geminiJson] *)

Variable A : Type.

(** [JSON.parse] of the host, and the text [geminiText] obtains at its
    [i]-th request of this call (or the error of that request). *)
Variable JSON_parse : string -> outcome A.
Variable geminiText : nat -> outcome string.

(** The body of [try]: one request, cleaned and parsed. *)
Definition attempt (i : nat) : outcome A :=
  match geminiText i with
  | Ok text => JSON_parse (stripCodeFences text)
  | Throw e => Throw e
  end.

(** [for (let i = 0; i <= maxRetries; i += 1)], with [n] iterations left
    to run: the completion and the number of requests made. *)
Fixpoint geminiJson_loop (n i : nat) (lastErr : option string)
  : completion A * nat :=
  match n with
  | O => (Raised lastErr, i)
  | S n' =>
      match attempt i with
      | Ok a => (Returned a, S i)
      | Throw e => geminiJson_loop n' (S i) (Some e)
      end
  end.

(** [geminiJson(prompt, opts)] for an integer [opts.maxRetries]
    ([None]: the option is not given, as in every call of the
    repository). *)
Definition geminiJson (maxRetries : option Z) : completion A * nat :=
  let maxRetries := match maxRetries with Some z => z | None => 2%Z end in
  geminiJson_loop (Z.to_nat (maxRetries + 1)) 0 None.

End Gemini.

(** ** [services/embeddings.js] *)

Section Embeddings.
Context {T : Type} `{Arith T}.
Variable Number_toString : T -> string.

Local Abbreviation value := (jsval T).
Local Abbreviation to_Str := (to_String Number_toString).

(** [generateEmbeddingText(element)]: the fields that are set, joined. *)
Definition generateEmbeddingText (element : sqlrow (T:=T)) : string :=
  let parts : list value :=
    [ get element "name";
      get element "component_type";
      get element "type_name";
      get element "family_name";
      if truthy (get element "level_number")
      then JStr ("Tầng " ++ to_Str (get element "level_number")) else JNull;
      if truthy (get element "room_name")
      then JStr ("Phòng " ++ to_Str (get element "room_name")) else JNull;
      get element "room_type";
      get element "system_name";
      get element "system_type";
      get element "manufacturer";
      get element "model_name";
      get element "omniclass_title" ]%string in
  String.concat " | " (map to_Str (filter truthy parts)).

(** *** [generateEmbeddings] *)

(** The test [text && typeof text === 'string' && text.trim() !== ''], and
    the text that is pushed when it holds. *)
Definition valid_text (text : value) : option string :=
  match text with
  | JStr s =>
      if (nonempty s && nonempty (trim s))%bool then Some (trim s) else None
  | _ => None
  end.

(** [texts.forEach((text, index) => ...)]: [validTexts] and
    [validIndexes], for the texts from position [index] on. *)
Fixpoint collect_valid (index : nat) (texts : list value)
  : list string * list nat :=
  match texts with
  | [] => ([], [])
  | text :: rest =>
      let '(validTexts, validIndexes) := collect_valid (S index) rest in
      match valid_text text with
      | Some s => (s :: validTexts, index :: validIndexes)
      | None => (validTexts, validIndexes)
      end
  end.

(** [arr.slice(i, j)] for indices [0 <= i]. *)
Definition slice {A : Type} (arr : list A) (i j : nat) : list A :=
  firstn (j - i) (skipn i arr).

(** [arr[idx] = v] on an array whose holes and [null]s are [None]: an
    index past the end extends the array. *)
Definition assign {A : Type} (arr : list (option A)) (idx : nat)
    (v : option A) : list (option A) :=
  if (idx <? List.length arr)%nat
  then firstn idx arr ++ v :: skipn (S idx) arr
  else arr ++ repeat None (idx - List.length arr) ++ [v].

(** [response.data.forEach((item, batchIdx) => { allEmbeddings[
    batchIndexes[batchIdx]] = item.embedding })].  An item beyond the
    indexes of the batch is stored under the key [undefined], which is no
    element of the array. *)
Fixpoint store_batch (data : list (option (list T))) (batchIndexes : list nat)
    (allEmbeddings : list (option (list T))) : list (option (list T)) :=
  match data, batchIndexes with
  | item :: data', originalIdx :: batchIndexes' =>
      store_batch data' batchIndexes' (assign allEmbeddings originalIdx item)
  | _, _ => allEmbeddings
  end.

Definition batchSize : nat := 100.

(** The configured key, and the embedding service: what its [call]-th
    request of this run answers to the inputs of a batch, one embedding
    (or nothing) per item of [response.data]. *)
Variable OPENAI_API_KEY : option string.
Variable create : nat -> list string -> outcome (list (option (list T))).

Definition getClient : outcome unit :=
  match OPENAI_API_KEY with
  | Some k => if nonempty k then Ok tt
              else Throw "Missing OPENAI_API_KEY in .env or config"%string
  | None => Throw "Missing OPENAI_API_KEY in .env or config"%string
  end.

(** [for (let i = 0; i < validTexts.length; i += batchSize)]: what the
    function returns or throws, and the batches it has sent.  [None]: the
    loop did not end within [fuel] iterations. *)
Fixpoint batch_loop (fuel i call : nat) (validTexts : list string)
    (validIndexes : list nat) (allEmbeddings : list (option (list T)))
    (sent : list (list string))
  : option (outcome (list (option (list T))) * list (list string)) :=
  match fuel with
  | O => None
  | S fuel' =>
      if (i <? List.length validTexts)%nat then
        let batch := slice validTexts i (i + batchSize) in
        let batchIndexes := slice validIndexes i (i + batchSize) in
        match create call batch with
        | Throw e => Some (Throw e, sent ++ [batch])
        | Ok data =>
            batch_loop fuel' (i + batchSize) (S call) validTexts validIndexes
                       (store_batch data batchIndexes allEmbeddings)
                       (sent ++ [batch])
        end
      else Some (Ok allEmbeddings, sent)
  end.

Definition generateEmbeddings (texts : list value)
  : option (outcome (list (option (list T))) * list (list string)) :=
  match texts with
  | [] => Some (Ok [], [])
  | _ :: _ =>
      let '(validTexts, validIndexes) := collect_valid 0 texts in
      match validTexts with
      | [] => Some (Ok (repeat None (List.length texts)), [])
      | _ :: _ =>
          match getClient with
          | Throw e => Some (Throw e, [])
          | Ok _ =>
              batch_loop (S (List.length validTexts)) 0 0 validTexts
                         validIndexes (repeat None (List.length texts)) []
          end
      end
  end.

(** Steps 4 and 5 of [migrate] and of [extractModelToSqlite]: the
    embeddings the rows are given, all [null] when the generation threw. *)
Definition embeddings_for (rows : list (sqlrow (T:=T)))
  : option (list (option (list T)) * list (list string)) :=
  match generateEmbeddings (map (fun r => JStr (generateEmbeddingText r)) rows) with
  | Some (Ok embeddings, sent) => Some (embeddings, sent)
  | Some (Throw _, sent) => Some (repeat None (List.length rows), sent)
  | None => None
  end.

End Embeddings.

(** ** [services/dmMapping.js] *)

Module mapping.

Module basic.
Definition component_id : list string :=
  ["component_id"; "id"; "dbid"; "objectid"; "element id"]%string.
Definition component_type : list string :=
  ["component_type"; "category"; "revit category"; "category name";
   "omniclass title"; "identity data.omniclass title"]%string.
Definition type_name : list string :=
  ["type name"; "type"; "identity data.type name"; "typename"]%string.
Definition family_name : list string :=
  ["family name"; "family"; "identity data.family name"; "familyname"]%string.
Definition is_asset : list string :=
  ["is_asset"; "asset"; "is facility asset"; "facility asset"]%string.
End basic.

Module location.
Definition level_number : list string :=
  ["level_number"; "level"; "base level"; "reference level"; "level name";
   "story"]%string.
Definition room_type : list string := ["room type"; "space type"]%string.
Definition room_name : list string :=
  ["room_name"; "room"; "room name"; "space"; "space name"]%string.
End location.

Module system.
Definition system_type : list string := ["system_type"; "system type"]%string.
Definition system_name : list string :=
  ["system_name"; "system name"; "system"]%string.
End system.

Module equipment.
Definition manufacturer : list string := ["manufacturer"; "mfr"; "make"]%string.
Definition model_name : list string :=
  ["model_name"; "model"; "model name"]%string.
Definition specification : list string :=
  ["specification"; "spec"; "description"; "comments"]%string.
End equipment.

Module omniclass.
Definition title : list string :=
  ["omniclass title"; "title"; "omniclass"]%string.
Definition number : list string :=
  ["omniclass number"; "number"; "omniclass no"; "omniclass code"]%string.
End omniclass.

End mapping.

(** ** Reading the properties of an element: [services/snapshotIngest.js],
    [scripts/migrate-to-sqlite.js] and [services/extract.js] *)

(** The UTF-16 code units of a string given by its UTF-8 bytes (a byte
    sequence that is no UTF-8 is read byte by byte). *)
Fixpoint utf16 (s : string) : list N :=
  match s with
  | EmptyString => []
  | String a s1 =>
      let x := N_of_ascii a in
      if (x <? 192)%N then x :: utf16 s1
      else if (x <? 224)%N then
        match s1 with
        | String b s2 => ((x - 192) * 64 + (N_of_ascii b - 128))%N :: utf16 s2
        | EmptyString => [x]
        end
      else if (x <? 240)%N then
        match s1 with
        | String b (String c s3) =>
            ((x - 224) * 4096 + (N_of_ascii b - 128) * 64
             + (N_of_ascii c - 128))%N :: utf16 s3
        | _ => x :: utf16 s1
        end
      else
        match s1 with
        | String b (String c (String d s4)) =>
            let cp := ((x - 240) * 262144 + (N_of_ascii b - 128) * 4096
                       + (N_of_ascii c - 128) * 64 + (N_of_ascii d - 128))%N in
            (55296 + (cp - 65536) / 1024)%N
            :: (56320 + (cp - 65536) mod 1024)%N :: utf16 s4
        | _ => x :: utf16 s1
        end
  end.

(** The characters (code points) of a string, each by its UTF-8 bytes. *)
Fixpoint code_points (s : string) : list string :=
  match s with
  | EmptyString => []
  | String a s1 =>
      let x := N_of_ascii a in
      if (x <? 192)%N then String a EmptyString :: code_points s1
      else if (x <? 224)%N then
        match s1 with
        | String b s2 => String a (String b EmptyString) :: code_points s2
        | EmptyString => [String a EmptyString]
        end
      else if (x <? 240)%N then
        match s1 with
        | String b (String c s3) =>
            String a (String b (String c EmptyString)) :: code_points s3
        | _ => String a EmptyString :: code_points s1
        end
      else
        match s1 with
        | String b (String c (String d s4)) =>
            String a (String b (String c (String d EmptyString)))
            :: code_points s4
        | _ => String a EmptyString :: code_points s1
        end
  end.

(** [s.replace(/[class]+/g, ' ')]: every maximal run of characters of the
    class becomes one space. *)
Fixpoint replace_runs (class : string -> bool) (in_run : bool)
    (cs : list string) : list string :=
  match cs with
  | [] => []
  | c :: cs' =>
      if class c then
        if in_run then replace_runs class true cs'
        else " "%string :: replace_runs class true cs'
      else c :: replace_runs class false cs'
  end.

Definition replace_all (class : string -> bool) (s : string) : string :=
  String.concat "" (replace_runs class false (code_points s)).

(** [s.includes(sub)]. *)
Fixpoint str_includes (s sub : string) : bool :=
  match drop_prefix sub s with
  | Some _ => true
  | None =>
      match s with
      | String _ s' => str_includes s' sub
      | EmptyString => false
      end
  end.

Section Properties.
Context {T : Type} `{Arith T}.
Variable Number_toString : T -> string.

(** Three tables of the Unicode standard, as the host has them:
    [String.prototype.toLowerCase]; whether a character (by its UTF-8
    bytes) is a letter or a number, [\p{L}] or [\p{N}]; and the
    canonical form under which the flag [i] compares two code units. *)
Variable toLowerCase : string -> string.
Variable letter_or_number : string -> bool.
Variable Canonicalize : N -> N.

(** [JSON.stringify] of an object. *)
Variable JSON_stringify : list (string * jsval T) -> string.

Local Abbreviation value := (jsval T).
Local Abbreviation to_Str := (to_String Number_toString).

(** An object: its own properties in the order [Object.entries]
    enumerates them.  For keys that are no array indices, and a key built
    around a point is none, that is the order in which they were
    created. *)
Definition object : Type := list (string * value).

(** [o[k] = v]. *)
Fixpoint put (o : object) (k : string) (v : value) : object :=
  match o with
  | [] => [(k, v)]
  | (k', v') :: o' =>
      if String.eqb k' k then (k', v) :: o' else (k', v') :: put o' k v
  end.

(** *** [normalizeKey], [isEmpty], [findInFlat] *)

Definition normalizeKey (s : value) : string :=
  let s := toLowerCase (to_Str (js_or s (JStr ""))) in
  let s := replace_all (fun c => (String.eqb c "_" || String.eqb c "-")%bool) s in
  let s := replace_all (fun c => negb (letter_or_number c)) s in
  let s := replace_all (fun c => existsb (String.eqb c) whitespace) s in
  trim s.

Definition isEmpty (v : value) : bool :=
  match v with
  | JNull | JUndefined => true
  | JStr s => negb (nonempty (trim s))
  | _ => false
  end.

(** The inner loop [for (const [k, v] of entries)] for one keyword. *)
Fixpoint find_entry (kwN : string) (entries : object) : option value :=
  match entries with
  | [] => None
  | (k, v) :: entries' =>
      if isEmpty v then find_entry kwN entries'
      else if str_includes (normalizeKey (JStr k)) kwN then Some v
      else find_entry kwN entries'
  end.

Fixpoint findInFlat (flat : object) (keywords : list string) : value :=
  match keywords with
  | [] => JNull
  | kw :: keywords' =>
      let kwN := normalizeKey (JStr kw) in
      if negb (nonempty kwN) then findInFlat flat keywords'
      else
        match find_entry kwN flat with
        | Some v => v
        | None => findInFlat flat keywords'
        end
  end.

(** *** [inferCategory] *)

(** [pattern] matches at the start of [text] under the flag [i]. *)
Fixpoint matches_here (pattern text : list N) : bool :=
  match pattern, text with
  | [], _ => true
  | p :: pattern', c :: text' =>
      (N.eqb (Canonicalize p) (Canonicalize c) && matches_here pattern' text')%bool
  | _ :: _, [] => false
  end.

Fixpoint matches_somewhere (pattern text : list N) : bool :=
  (matches_here pattern text
   || match text with
      | _ :: text' => matches_somewhere pattern text'
      | [] => false
      end)%bool.

(** [/a|b|.../i.test(s)] for alternatives that are plain words. *)
Definition test_i (alternatives : list string) (s : string) : bool :=
  existsb (fun a => matches_somewhere (utf16 a) (utf16 s)) alternatives.

Definition inferCategory (typeName familyName : value) : value :=
  let s := toLowerCase (to_Str (js_or typeName (JStr "")) ++ " "
                        ++ to_Str (js_or familyName (JStr ""))) in
  if test_i ["door"; "cửa"]%string s then JStr "Doors"
  else if test_i ["window"; "cửa sổ"]%string s then JStr "Windows"
  else if test_i ["wall"; "tường"]%string s then JStr "Walls"
  else if test_i ["floor"; "sàn"]%string s then JStr "Floors"
  else if test_i ["room"; "phòng"]%string s then JStr "Rooms"
  else JNull.

(** *** [flattenProps] *)

(** One entry of [elem.properties], as the viewer delivers it; a
    primitive in its place reads [undefined] in every field. *)
Record property : Type := {
  displayCategory : value;
  displayName : value;
  displayValue : value
}.

(** The key under which a property is filed, if it is filed at all. *)
Definition key_of (prop : property) : option string :=
  if (negb (truthy (displayCategory prop)) || negb (truthy (displayName prop)))%bool
  then None
  else Some (to_Str (displayCategory prop) ++ "." ++ to_Str (displayName prop))%string.

(** The body of [for (const prop of properties)] in
    [services/snapshotIngest.js]; [None] is an entry that is [null] or
    [undefined]. *)
Definition flatten_step (flat : object) (prop : option property) : object :=
  match prop with
  | None => flat
  | Some p =>
      match key_of p with
      | None => flat
      | Some key => put flat key (displayValue p)
      end
  end.

(** [flattenProps(properties)] of [services/snapshotIngest.js]; [None]
    is a value that is no array. *)
Definition flattenProps (properties : option (list (option property))) : object :=
  match properties with
  | None => []
  | Some l => fold_left flatten_step l []
  end.

(** [flattenProps(properties)] of [scripts/migrate-to-sqlite.js], which
    reads [prop.displayCategory] without testing [prop]. *)
Fixpoint flatten_loop (l : list (option property)) (flat : object)
  : outcome object :=
  match l with
  | [] => Ok flat
  | None :: _ => Throw "TypeError: Cannot read properties of null"
  | Some p :: l' =>
      match key_of p with
      | None => flatten_loop l' flat
      | Some key => flatten_loop l' (put flat key (displayValue p))
      end
  end.

Definition flattenProps_migrate (properties : option (list (option property)))
  : outcome object :=
  match properties with
  | None => Ok []
  | Some l => flatten_loop l []
  end.

(** [flattenProps(propertiesObj)] of [services/extract.js], on the nested
    object of Model Derivative: the entries of [propertiesObj], each
    group with its own entries ([None]: the group is no object). *)
Definition flatten_group (flat : object)
    (group : string * option (list (string * value))) : object :=
  match snd group with
  | None => flat
  | Some groupProps =>
      fold_left (fun flat pv => put flat (fst group ++ "." ++ fst pv)%string (snd pv))
                groupProps flat
  end.

Definition flattenProps_extract
    (propertiesObj : option (list (string * option (list (string * value)))))
  : object :=
  match propertiesObj with
  | None => []
  | Some groups => fold_left flatten_group groups []
  end.

(** *** [extractGroups] and [build5Groups] *)

(** [v ? String(v) : null]. *)
Definition string_or_null (v : value) : value :=
  if truthy v then JStr (to_Str v) else JNull.

(** [component_type] as both functions compute it. *)
Definition component_type_of (flat : object) : string :=
  let type_name := findInFlat flat mapping.basic.type_name in
  let family_name := findInFlat flat mapping.basic.family_name in
  let omniclassTitle := findInFlat flat mapping.omniclass.title in
  let component_type_raw :=
    js_or (js_or (findInFlat flat mapping.basic.component_type)
                 (inferCategory type_name family_name))
          (JStr "Unknown") in
  if negb (isEmpty omniclassTitle) then trim (to_Str omniclassTitle)
  else trim (to_Str component_type_raw).

(** [extractGroups(flat, dbId)] of [services/snapshotIngest.js] and
    [scripts/migrate-to-sqlite.js]: the object it returns. *)
Definition extractGroups (flat : object) (dbId : value) : object :=
  [ ("component_id", dbId);
    ("component_type", JStr (component_type_of flat));
    ("type_name", string_or_null (findInFlat flat mapping.basic.type_name));
    ("family_name", string_or_null (findInFlat flat mapping.basic.family_name));
    ("is_asset", findInFlat flat mapping.basic.is_asset);
    ("level_number", findInFlat flat mapping.location.level_number);
    ("room_type", findInFlat flat mapping.location.room_type);
    ("room_name", findInFlat flat mapping.location.room_name);
    ("system_type", findInFlat flat mapping.system.system_type);
    ("system_name", findInFlat flat mapping.system.system_name);
    ("manufacturer", findInFlat flat mapping.equipment.manufacturer);
    ("model_name", findInFlat flat mapping.equipment.model_name);
    ("specification", findInFlat flat mapping.equipment.specification);
    ("omniclass_title", string_or_null (findInFlat flat mapping.omniclass.title));
    ("omniclass_number", string_or_null (findInFlat flat mapping.omniclass.number))
  ]%string.

(** The row object of [transformSnapshotElement] in
    [services/snapshotIngest.js], for the value [dbId] of
    [Number(elem.dbId)].  (The raw branch of [transformElement] in the
    migration script builds the same object from [rawElement.dbId],
    without the last two properties.) *)
Definition snapshot_row (u g : string) (dbId name : value)
    (properties : option (list (option property))) : object :=
  let flat := flattenProps properties in
  [ ("urn", JStr u); ("guid", JStr g); ("dbId", dbId);
    ("name", js_or name JNull) ]%string
  ++ extractGroups flat dbId
  ++ [ ("props_flat", JStr (JSON_stringify flat));
       ("embedding", JNull); ("embedding_model", JNull) ]%string.

(** [build5Groups(flat, dbId)] of [services/extract.js]: the same
    readings, nested in the five groups [basic], [location], [system],
    [equipment] and [omniclass]. *)
Record groups5 : Type := {
  basic_group : object;
  location_group : object;
  system_group : object;
  equipment_group : object;
  omniclass_group : object
}.

Definition build5Groups (flat : object) (dbId : value) : groups5 :=
  {| basic_group :=
       [ ("component_id", dbId);
         ("component_type", JStr (component_type_of flat));
         ("type_name", string_or_null (findInFlat flat mapping.basic.type_name));
         ("family_name", string_or_null (findInFlat flat mapping.basic.family_name));
         ("is_asset", findInFlat flat mapping.basic.is_asset) ]%string;
     location_group :=
       [ ("level_number", findInFlat flat mapping.location.level_number);
         ("room_type", findInFlat flat mapping.location.room_type);
         ("room_name", findInFlat flat mapping.location.room_name) ]%string;
     system_group :=
       [ ("system_type", findInFlat flat mapping.system.system_type);
         ("system_name", findInFlat flat mapping.system.system_name) ]%string;
     equipment_group :=
       [ ("manufacturer", findInFlat flat mapping.equipment.manufacturer);
         ("model_name", findInFlat flat mapping.equipment.model_name);
         ("specification", findInFlat flat mapping.equipment.specification) ]%string;
     omniclass_group :=
       [ ("title", string_or_null (findInFlat flat mapping.omniclass.title));
         ("number", string_or_null (findInFlat flat mapping.omniclass.number)) ]%string
  |}.

(** A document of [extractModelToSqlite], step 3: [{ urn, guid, dbId,
    name, ...groups, props_flat }].  Its five groups are objects; read as
    a value, such a property is an object, whatever it holds. *)
Record document : Type := {
  doc_key : string * string;
  doc_id : value;
  doc_label : value;
  doc_groups : groups5;
  doc_flat : object
}.

Definition build_document (u g : string) (dbId name : value)
    (propertiesObj : option (list (string * option (list (string * value)))))
  : document :=
  let flat := flattenProps_extract propertiesObj in
  {| doc_key := (u, g);
     doc_id := dbId;
     doc_label := js_or name JNull;
     doc_groups := build5Groups flat dbId;
     doc_flat := flat |}.

(** The own properties of a document, as a function that reads
    [doc.key] sees them. *)
Definition own_properties (d : document) : object :=
  [ ("urn", JStr (fst (doc_key d))); ("guid", JStr (snd (doc_key d)));
    ("dbId", doc_id d); ("name", doc_label d);
    ("basic", JObj "[object Object]"); ("location", JObj "[object Object]");
    ("system", JObj "[object Object]"); ("equipment", JObj "[object Object]");
    ("omniclass", JObj "[object Object]");
    ("props_flat", JStr (JSON_stringify (doc_flat d))) ]%string.

End Properties.

(** ** Auxiliary definitions of the statements *)

(** A printable ASCII character other than the backquote. *)
Definition plain (c : ascii) : bool :=
  let n := N_of_ascii c in
  ((32 <? n) && (n <? 127) && negb (n =? 96))%N.

(** The last character of the string [String c s]. *)
Fixpoint last_char (c : ascii) (s : string) : ascii :=
  match s with
  | EmptyString => c
  | String d s' => last_char d s'
  end.

(** A text that starts and ends with a plain character, as every JSON
    document without surrounding whitespace does. *)
Definition bare (s : string) : bool :=
  match s with
  | EmptyString => false
  | String c s' => (plain c && plain (last_char c s'))%bool
  end.

(** The [k]-th request of [generateEmbeddings] carries the next hundred
    of the valid texts, or those that are left. *)
Definition next_batch (validTexts : list string) (k : nat)
    (batch : list string) : Prop :=
  batch = slice validTexts (k * 100) (k * 100 + 100)
  /\ 1 <= List.length batch <= 100.

(** The embedding a faithful service returns for each text. *)
Definition embedded {T : Type} (embed : string -> option (list T))
    (text : jsval T) : option (list T) :=
  match valid_text text with
  | Some s => embed s
  | None => None
  end.

(** The fields [generateEmbeddingText] reads. *)
Definition embedding_fields : list string :=
  ["name"; "component_type"; "type_name"; "family_name"; "level_number";
   "room_name"; "room_type"; "system_name"; "system_type"; "manufacturer";
   "model_name"; "omniclass_title"]%string.

(** A number conversion for the examples that prints every number as
    [0]. *)
Definition toString1 (x : float) : string := "0"%string.

(** An embedding function for the examples. *)
Definition unit_vector (s : string) : option (list float) :=
  if String.eqb s "void" then None else Some [1%float].

Section PropertyStatements.
Context {T : Type} `{Arith T}.
Variable Number_toString : T -> string.

(** The value filed last under the key [k], [undefined] if there is
    none. *)
Definition last_filed (k : string) (l : list (option (property (T:=T))))
  : jsval T :=
  fold_left
    (fun acc prop =>
       match prop with
       | Some p =>
           match key_of Number_toString p with
           | Some key => if String.eqb key k then displayValue p else acc
           | None => acc
           end
       | None => acc
       end)
    l JUndefined.

(** A primitive value: anything but an object or an array. *)
Definition primitive (v : jsval T) : bool :=
  match v with
  | JObj _ => false
  | _ => true
  end.

End PropertyStatements.

(** ** [services/extract.js]: the rows of [extractModelToSqlite] *)

Section Extract.
Context {T : Type} `{Arith T}.

(** As for the other two ingest paths, what an item of the properties
    collection is and how its properties are read into the columns of a
    row are kept abstract. *)
Variable raw : Type.
Variable extract : raw -> row T.

(** [DELETE FROM elements WHERE urn = ? AND guid = ?]; a [guid] that is
    NULL equals no value. *)
Definition delete_urn_guid (u g : string) (db : database T) : database T :=
  {| elements :=
       filter (fun e => negb (in_urn u e
                              && match guid (snd e) with
                                 | Some g' => String.eqb g' g
                                 | None => false
                                 end))
              (elements db);
     sqlite_sequence := sqlite_sequence db;
     scan_rank := scan_rank db |}.

(** [extractModelToSqlite(urn)] from the answers of Model Derivative on:
    [viewable] is the GUID [pickFirstGuid] finds in the metadata (or the
    error of the request or of [pickFirstGuid]), [collection] the
    properties collection (or the error of the request), [embeddings]
    what step 4 obtained.  It yields the store and the number it reports
    as [inserted]. *)
Definition extractModelToSqlite (u : string) (viewable : outcome string)
    (collection : outcome (list raw)) (embeddings : list (option (list T)))
    (db : database T) : outcome (database T * nat) :=
  match viewable with
  | Throw e => Throw e
  | Ok g =>
      match collection with
      | Throw e => Throw e
      | Ok [] =>
          Throw "No properties collection (Model Derivative not ready, or model has no viewable)"
      | Ok items =>
          let docs := map (fun it => with_keys (extract it) u g) items in
          let docs := add_embeddings docs embeddings in
          Ok (insertMany docs (delete_urn_guid u g db), List.length docs)
      end
  end.

End Extract.

(** ** Auxiliary definitions of the statements, continued *)

Definition call_eqb (a b : call) : bool :=
  match a, b with
  | CallHint, CallHint | CallIntent, CallIntent | CallGeneral, CallGeneral
  | CallParameters, CallParameters | CallValue, CallValue
  | CallEmbedding, CallEmbedding | CallAnswer, CallAnswer => true
  | _, _ => false
  end.

(** [l] is [m] with some of its elements left out. *)
Fixpoint subsequence (l m : list call) {struct m} : bool :=
  match l, m with
  | [], _ => true
  | _ :: _, [] => false
  | a :: l', b :: m' =>
      if call_eqb a b then subsequence l' m' else subsequence l m'
  end.

(** The rows of partition [u] that were not ingested under the GUID [g]. *)
Definition other_guid {T : Type} (g : string) (r : row T) : bool :=
  match guid r with
  | Some g' => negb (String.eqb g' g)
  | None => true
  end.

(** A raw element for the examples: a number, read into a row that
    carries it as its [dbId]. *)
Definition numbered_row (n : Z) : row float :=
  {| urn := ""; guid := None; dbId := n; name := None; component_id := Some n;
     component_type := Some "Doors"%string; type_name := None;
     family_name := None; is_asset := None; level_number := None;
     room_type := None; room_name := None; system_type := None;
     system_name := None; manufacturer := None; model_name := None;
     specification := None; omniclass_title := None; omniclass_number := None;
     props_flat := None; embedding := None; embedding_model := None |}.

(** The number of placeholders [?] of a statement (none of the statements
    of the pipeline has a question mark inside a literal or a comment). *)
Fixpoint placeholders (sql : string) : nat :=
  match sql with
  | EmptyString => 0
  | String c sql' => (if Ascii.eqb c "?" then 1 else 0) + placeholders sql'
  end.

(** An argument that the database driver binds to one placeholder: a
    number, a string or [null]. *)
Definition binds_one {T : Type} (v : jsval T) : bool :=
  match v with
  | JNum _ | JStr _ | JNull => true
  | _ => false
  end.

(** A value that is a string or a number, or is not given. *)
Definition bindable {T : Type} (v : jsval T) : bool :=
  match v with
  | JBool _ | JObj _ => false
  | _ => true
  end.

(** A store that lets a call through only when each argument binds to one
    placeholder and the statement has as many placeholders as the call
    has arguments, and then answers as [engine] does.  Such a call the
    database driver accepts.  Its rules for other arguments (an array is
    spread over several placeholders, an object is read as named
    parameters) are not modelled: a call with such an argument is refused
    here, whatever the driver would make of it. *)
Definition checked {T : Type}
    (engine : database T -> string -> list (jsval T)
              -> outcome (list (list (string * jsval T))))
    (db : database T) (sql : string) (values : list (jsval T))
  : outcome (list (list (string * jsval T))) :=
  if negb (forallb binds_one values)
  then Throw "TypeError: an argument is no number, string or null"
  else if Nat.eqb (placeholders sql) (List.length values)
  then engine db sql values
  else Throw "RangeError: wrong number of parameter values".
(** ** The keyword rules of [scripts/test-category-detection.js] *)

(** The "quick keyword fallback" of [newDetectHintCategory], the two
    tests that the repository's notes on the hint step describe as running
    before the inference service is asked.  [detectHintCategory] of
    [routes/chat.js] computes [q] and has its comment, and none of the
    tests.  [toLowerCase] is the host's. *)
Definition keyword_hint (toLowerCase : string -> string) (question : string)
  : option string :=
  let q := toLowerCase question in
  if (str_includes q "cửa sổ" || str_includes q "cua so")%bool
  then Some "Windows"%string
  else if ((str_includes q "cửa" || str_includes q "cua")
           && negb (str_includes q "sổ"))%bool
  then Some "Doors"%string
  else None.

(** ** The JSON text of [props_flat], written and read *)

(** [services/snapshotIngest.js] stores [JSON.stringify(flat)] in the TEXT
    column [props_flat]; the [sum_area] statement of [routes/chat.js] reads
    it back with SQLite's [json_extract].  Neither function belongs to the
    repository.  They are modelled here from ECMA-262 (JSON.stringify) and
    from the documentation of SQLite's JSON functions, for the binary64
    numbers of the closed examples. *)

Definition dquote : ascii := ascii_of_nat 34.
Definition backslash : ascii := ascii_of_nat 92.

Definition hex_digit (n : N) : ascii :=
  if (n <? 10)%N then ascii_of_N (48 + n) else ascii_of_N (87 + n).

(** [QuoteJSONString]: the two-character escapes, [\u00xx] for the other
    control characters, every other character as it is. *)
Definition quote_char (c : ascii) : string :=
  let n := N_of_ascii c in
  let esc (d : ascii) := String backslash (String d EmptyString) in
  if (n =? 8)%N then esc "b"%char
  else if (n =? 9)%N then esc "t"%char
  else if (n =? 10)%N then esc "n"%char
  else if (n =? 12)%N then esc "f"%char
  else if (n =? 13)%N then esc "r"%char
  else if (n =? 34)%N then esc dquote
  else if (n =? 92)%N then esc backslash
  else if (n <? 32)%N then
    String backslash
      (String "u" (String "0" (String "0"
         (String (hex_digit (n / 16)) (String (hex_digit (n mod 16))
            EmptyString)))))
  else String c EmptyString.

Fixpoint quote_body (s : string) : string :=
  match s with
  | EmptyString => EmptyString
  | String c s' => (quote_char c ++ quote_body s')%string
  end.

Definition QuoteJSONString (s : string) : string :=
  String dquote (quote_body s ++ String dquote EmptyString).

(** The JSON text of a property value; [None]: the property is left out
    ([undefined]).  [JObj] does not keep the members of an array or
    object; none occurs in the examples, and [null] is written for it. *)
Definition json_of_value (Number_toString : float -> string)
    (v : jsval float) : option string :=
  match v with
  | JUndefined => None
  | JNull => Some "null"%string
  | JBool true => Some "true"%string
  | JBool false => Some "false"%string
  | JNum x =>
      Some (if PrimFloat.is_finite x then Number_toString x else "null"%string)
  | JStr s => Some (QuoteJSONString s)
  | JObj _ => Some "null"%string
  end.

(** [JSON.stringify(o)] for an object [o] given by its own properties in
    enumeration order. *)
Definition JSON_stringify (Number_toString : float -> string)
    (o : list (string * jsval float)) : string :=
  let member (kv : string * jsval float) : list string :=
    match json_of_value Number_toString (snd kv) with
    | Some t => [(QuoteJSONString (fst kv) ++ ":" ++ t)%string]
    | None => []
    end in
  ("{" ++ String.concat "," (flat_map member o) ++ "}")%string.

(** A JSON document as SQLite reads it.  A number keeps its text. *)
#[warnings="-register-all"]
Inductive json : Type :=
| J_null
| J_true
| J_false
| J_number (text : string)
| J_string (s : string)
| J_array (elements : list json)
| J_object (members : list (string * json)).

Definition json_space (c : ascii) : bool :=
  let n := N_of_ascii c in
  ((n =? 32) || (n =? 9) || (n =? 10) || (n =? 13))%N.

Fixpoint skip_space (s : string) : string :=
  match s with
  | String c s' => if json_space c then skip_space s' else s
  | EmptyString => s
  end.

Definition hex_value (c : ascii) : option N :=
  let n := N_of_ascii c in
  if ((48 <=? n) && (n <=? 57))%N then Some (n - 48)%N
  else if ((65 <=? n) && (n <=? 70))%N then Some (n - 55)%N
  else if ((97 <=? n) && (n <=? 102))%N then Some (n - 87)%N
  else None.

(** The UTF-8 bytes of a code point. *)
Definition utf8 (cp : N) : string :=
  let byte (n : N) := ascii_of_N n in
  (if cp <? 128 then String (byte cp) EmptyString
   else if cp <? 2048 then
     String (byte (192 + cp / 64)) (String (byte (128 + cp mod 64)) EmptyString)
   else if cp <? 65536 then
     String (byte (224 + cp / 4096))
       (String (byte (128 + (cp / 64) mod 64))
          (String (byte (128 + cp mod 64)) EmptyString))
   else
     String (byte (240 + cp / 262144))
       (String (byte (128 + (cp / 4096) mod 64))
          (String (byte (128 + (cp / 64) mod 64))
             (String (byte (128 + cp mod 64)) EmptyString))))%N.

(** The four hexadecimal digits of a [\u] escape: the code unit and the
    rest of the text. *)
Definition read_hex4 (s : string) : option (N * string) :=
  match s with
  | String a (String b (String c (String d rest))) =>
      match hex_value a, hex_value b, hex_value c, hex_value d with
      | Some x, Some y, Some z, Some w =>
          Some ((((x * 16 + y) * 16 + z) * 16 + w)%N, rest)
      | _, _, _, _ => None
      end
  | _ => None
  end.

(** A string literal after its opening quote: the text it denotes and
    what follows the closing quote.  A high surrogate followed by the
    escape of a low one denotes one character. *)
Fixpoint read_string (fuel : nat) (s : string) : option (string * string) :=
  match fuel with
  | O => None
  | S fuel' =>
      match s with
      | EmptyString => None
      | String c s' =>
          let continue (d : string) (rest : string) :=
            match read_string fuel' rest with
            | Some (t, r) => Some ((d ++ t)%string, r)
            | None => None
            end in
          if Ascii.eqb c dquote then Some (EmptyString, s')
          else if Ascii.eqb c backslash then
            match s' with
            | String e s'' =>
                let one (n : nat) :=
                  continue (String (ascii_of_nat n) EmptyString) s'' in
                if Ascii.eqb e dquote then one 34
                else if Ascii.eqb e backslash then one 92
                else if Ascii.eqb e "/" then one 47
                else if Ascii.eqb e "b" then one 8
                else if Ascii.eqb e "f" then one 12
                else if Ascii.eqb e "n" then one 10
                else if Ascii.eqb e "r" then one 13
                else if Ascii.eqb e "t" then one 9
                else if Ascii.eqb e "u" then
                  match read_hex4 s'' with
                  | Some (hi, r1) =>
                      let single := continue (utf8 hi) r1 in
                      if ((55296 <=? hi) && (hi <? 56320))%N then
                        match r1 with
                        | String b1 (String b2 r2) =>
                            if (Ascii.eqb b1 backslash && Ascii.eqb b2 "u")%bool
                            then
                              match read_hex4 r2 with
                              | Some (lo, r3) =>
                                  if ((56320 <=? lo) && (lo <? 57344))%N then
                                    continue
                                      (utf8 (65536 + (hi - 55296) * 1024
                                             + (lo - 56320))%N) r3
                                  else single
                              | None => single
                              end
                            else single
                        | _ => single
                        end
                      else single
                  | None => None
                  end
                else None
            | EmptyString => None
            end
          else continue (String c EmptyString) s'
      end
  end.

(** The text of a number at the start of [s], [-]digits[.digits][e[+-]digits],
    and what follows it. *)
Definition read_number (s : string) : option (string * string) :=
  let digits (s : string) : nat * string :=
    let '(_, len, rest) := take_digits 0 0 s in (len, rest) in
  let '(sign, s1) :=
    match s with
    | String "-" r => (1, r)
    | _ => (0, s)
    end in
  let '(int_len, s2) := digits s1 in
  match int_len with
  | O => None
  | S _ =>
      let '(frac, s3) :=
        match s2 with
        | String "." r =>
            let '(n, r') := digits r in
            match n with O => (0, s2) | S _ => (S n, r') end
        | _ => (0, s2)
        end in
      let '(exp, s4) :=
        match s3 with
        | String c r =>
            if (Ascii.eqb c "e" || Ascii.eqb c "E")%bool then
              let '(sg, r1) :=
                match r with
                | String "-" r' => (1, r')
                | String "+" r' => (1, r')
                | _ => (0, r)
                end in
              let '(n, r2) := digits r1 in
              match n with O => (0, s3) | S _ => (S (sg + n), r2) end
            else (0, s3)
        | EmptyString => (0, s3)
        end in
      let len := sign + int_len + frac + exp in
      Some (substring 0 len s, s4)
  end.

(** One JSON value at the start of [s] (after blanks), and what follows
    it.  [None]: the text is malformed, or [fuel] is used up; a fuel of
    one more than the length of the text is enough for any text. *)
Fixpoint parse_value (fuel : nat) (s : string) : option (json * string) :=
  match fuel with
  | O => None
  | S fuel' =>
      match skip_space s with
      | EmptyString => None
      | String c r =>
          if Ascii.eqb c "{" then
            match skip_space r with
            | String "}" r' => Some (J_object [], r')
            | _ => parse_members fuel' r []
            end
          else if Ascii.eqb c "[" then
            match skip_space r with
            | String "]" r' => Some (J_array [], r')
            | _ => parse_elements fuel' r []
            end
          else if Ascii.eqb c dquote then
            match read_string (S (String.length r)) r with
            | Some (t, r') => Some (J_string t, r')
            | None => None
            end
          else
            match drop_prefix "null" (String c r),
                  drop_prefix "true" (String c r),
                  drop_prefix "false" (String c r) with
            | Some r', _, _ => Some (J_null, r')
            | _, Some r', _ => Some (J_true, r')
            | _, _, Some r' => Some (J_false, r')
            | None, None, None =>
                match read_number (String c r) with
                | Some (t, r') => Some (J_number t, r')
                | None => None
                end
            end
      end
  end
with parse_members (fuel : nat) (s : string) (acc : list (string * json))
  : option (json * string) :=
  match fuel with
  | O => None
  | S fuel' =>
      match skip_space s with
      | String c r =>
          if Ascii.eqb c dquote then
            match read_string (S (String.length r)) r with
            | Some (k, r1) =>
                match skip_space r1 with
                | String ":" r2 =>
                    match parse_value fuel' r2 with
                    | Some (v, r3) =>
                        match skip_space r3 with
                        | String "," r4 =>
                            parse_members fuel' r4 (acc ++ [(k, v)])
                        | String "}" r4 =>
                            Some (J_object (acc ++ [(k, v)]), r4)
                        | _ => None
                        end
                    | None => None
                    end
                | _ => None
                end
            | None => None
            end
          else None
      | EmptyString => None
      end
  end
with parse_elements (fuel : nat) (s : string) (acc : list json)
  : option (json * string) :=
  match fuel with
  | O => None
  | S fuel' =>
      match parse_value fuel' s with
      | Some (v, r) =>
          match skip_space r with
          | String "," r' => parse_elements fuel' r' (acc ++ [v])
          | String "]" r' => Some (J_array (acc ++ [v]), r')
          | _ => None
          end
      | None => None
      end
  end.

(** A whole text: one value and nothing but blanks after it. *)
Definition parse_json (text : string) : option json :=
  match parse_value (S (String.length text)) text with
  | Some (j, rest) =>
      match skip_space rest with
      | EmptyString => Some j
      | String _ _ => None
      end
  | None => None
  end.

(** The minified text of a document. *)
Fixpoint json_text (j : json) : string :=
  match j with
  | J_null => "null"
  | J_true => "true"
  | J_false => "false"
  | J_number t => t
  | J_string s => QuoteJSONString s
  | J_array l => "[" ++ String.concat "," (map json_text l) ++ "]"
  | J_object ms =>
      "{" ++ String.concat ","
               (map (fun kv => QuoteJSONString (fst kv) ++ ":"
                               ++ json_text (snd kv)) ms)
      ++ "}"
  end%string.

(** *** Paths *)

(** One step of a path: [.label], [."label"] or [[index]]. *)
Inductive path_step : Type :=
| Member (label : string)
| Index (i : nat)
| FromEnd (i : nat).      (* [#-i]; [#] is [FromEnd 0] *)

(** The characters of [s] before the first [.] or [[]. *)
Fixpoint bare_label (s : string) : string * string :=
  match s with
  | EmptyString => (EmptyString, EmptyString)
  | String c s' =>
      if (Ascii.eqb c "." || Ascii.eqb c "[")%bool then (EmptyString, s)
      else let '(l, r) := bare_label s' in (String c l, r)
  end.

(** The characters of [s] before the first double quote, and what follows
    that quote. *)
Fixpoint quoted_label (s : string) : option (string * string) :=
  match s with
  | EmptyString => None
  | String c s' =>
      if Ascii.eqb c dquote then Some (EmptyString, s')
      else
        match quoted_label s' with
        | Some (l, r) => Some (String c l, r)
        | None => None
        end
  end.

Definition digits_value (s : string) : option (nat * string) :=
  let '(n, len, rest) := take_digits 0 0 s in
  match len with
  | O => None
  | S _ => Some (N.to_nat n, rest)
  end.

(** The steps of what follows [$] in a path; [None] is a path error. *)
Fixpoint path_steps (fuel : nat) (s : string) : option (list path_step) :=
  match fuel with
  | O => None
  | S fuel' =>
      let more (st : path_step) (rest : string) :=
        match path_steps fuel' rest with
        | Some l => Some (st :: l)
        | None => None
        end in
      match s with
      | EmptyString => Some []
      | String "." s' =>
          match s' with
          | String c s'' =>
              if Ascii.eqb c dquote then
                match quoted_label s'' with
                | Some (l, rest) => more (Member l) rest
                | None => None
                end
              else
                let '(l, rest) := bare_label s' in
                match l with
                | EmptyString => None
                | String _ _ => more (Member l) rest
                end
          | EmptyString => None
          end
      | String "[" s' =>
          match s' with
          | String "#" s'' =>
              match s'' with
              | String "]" rest => more (FromEnd 0) rest
              | String "-" s3 =>
                  match digits_value s3 with
                  | Some (i, String "]" rest) => more (FromEnd i) rest
                  | _ => None
                  end
              | _ => None
              end
          | _ =>
              match digits_value s' with
              | Some (i, String "]" rest) => more (Index i) rest
              | _ => None
              end
          end
      | String _ _ => None
      end
  end.

(** The first member of that label. *)
Fixpoint member_of (ms : list (string * json)) (label : string) : option json :=
  match ms with
  | [] => None
  | (k, v) :: ms' => if String.eqb k label then Some v else member_of ms' label
  end.

(** The value a path selects in a document, if there is one: a label
    selects a member of an object, an index an element of an array. *)
Fixpoint follow (steps : list path_step) (j : json) : option json :=
  match steps with
  | [] => Some j
  | Member label :: steps' =>
      match j with
      | J_object ms =>
          match member_of ms label with
          | Some v => follow steps' v
          | None => None
          end
      | _ => None
      end
  | Index i :: steps' =>
      match j with
      | J_array l =>
          match nth_error l i with
          | Some v => follow steps' v
          | None => None
          end
      | _ => None
      end
  | FromEnd i :: steps' =>
      match j with
      | J_array l =>
          match i with
          | O => None
          | S _ =>
              if (i <=? List.length l)%nat then
                match nth_error l (List.length l - i) with
                | Some v => follow steps' v
                | None => None
                end
              else None
          end
      | _ => None
      end
  end.

(** The number a JSON number text denotes, correctly rounded. *)
Definition number_value (t : string) : float :=
  let '(neg, s1) :=
    match t with
    | String "-" r => (true, r)
    | _ => (false, t)
    end in
  let '(int_part, _, s2) := take_digits 0 0 s1 in
  let '(all, frac_len, s3) :=
    match s2 with
    | String "." r => take_digits int_part 0 r
    | _ => (int_part, O, s2)
    end in
  let exp : Z :=
    match s3 with
    | String _ (String "-" r) =>
        let '(n, _, _) := take_digits 0 0 r in (- Z.of_N n)%Z
    | String _ (String "+" r) =>
        let '(n, _, _) := take_digits 0 0 r in Z.of_N n
    | String _ r => let '(n, _, _) := take_digits 0 0 r in Z.of_N n
    | EmptyString => 0%Z
    end in
  let shift := (exp - Z.of_nat frac_len)%Z in
  if (0 <=? shift)%Z
  then Float64.of_decimal neg (all * 10 ^ Z.to_N shift)%N 0
  else Float64.of_decimal neg all (Z.to_nat (- shift)).

(** The JavaScript value the driver hands over for the SQL value of
    [json_extract(X, P)] with one path: NULL for a JSON [null] and for a
    path that selects nothing, a number for [true], [false] and a number,
    the text for a string, the JSON text for an array or object. *)
Definition sql_value_of (j : json) : jsval float :=
  match j with
  | J_null => JNull
  | J_true => JNum 1%float
  | J_false => JNum 0%float
  | J_number t => JNum (number_value t)
  | J_string s => JStr s
  | J_array _ | J_object _ => JStr (json_text j)
  end.

(** [json_extract(X, P)] for a TEXT cell [X] ([None] is NULL). *)
Definition json_extract (X : option string) (P : string)
  : outcome (jsval float) :=
  match X with
  | None => Ok JNull
  | Some text =>
      match P with
      | String "$" rest =>
          match path_steps (S (String.length rest)) rest with
          | None => Throw ("SqliteError: JSON path error near '" ++ rest ++ "'")
          | Some steps =>
              match parse_json text with
              | None => Throw "SqliteError: malformed JSON"
              | Some j =>
                  match follow steps j with
                  | Some v => Ok (sql_value_of v)
                  | None => Ok JNull
                  end
              end
          end
      | _ => Throw ("SqliteError: JSON path error near '" ++ P ++ "'")
      end
  end%string.

(** What SQLite answers to the [sum_area] statement of [runQuery] when
    the [WHERE] clause is the partition key alone: one row per row of the
    partition, in rowid order, holding [json_extract(props_flat, P)].
    Other statements are outside this model and are refused. *)
Definition sqlite_json (db : database float) (sql : string)
    (values : list (jsval float)) : outcome (list (sqlrow (T:=float))) :=
  if String.eqb sql (sql_sum_area "urn = ?") then
    match values with
    | [JStr P; JStr u] =>
        fold_right
          (fun e rest =>
             match json_extract (props_flat (snd e)) P, rest with
             | Ok v, Ok rows => Ok ([("area_raw"%string, v)] :: rows)
             | Throw m, _ => Throw m
             | _, Throw m => Throw m
             end)
          (Ok []) (filter (in_urn u) (elements db))
    | _ => Throw "a statement outside the model"%string
    end
  else Throw "a statement outside the model"%string.

(** ** Auxiliary definitions of the statements: the [sum_area] example *)

(** The property [Dimensions.Area] of an element, as the viewer delivers
    it. *)
Definition area_property (v : jsval float) : property (T:=float) :=
  {| displayCategory := JStr "Dimensions"; displayName := JStr "Area";
     displayValue := v |}.

(** The flattened properties of an element that has this one property. *)
Definition area_flat (v : jsval float) : list (string * jsval float) :=
  flattenProps toString0 (Some [Some (area_property v)]).

(** The row the snapshot service stores in partition ["u"] for an element
    with the flattened properties [flat], when no keyword of
    [dmMapping.js] matches a key of [flat]: the category is Unknown, the
    other readings are NULL, and [props_flat] holds [JSON.stringify(flat)]. *)
Definition area_row (flat : list (string * jsval float)) : row float :=
  {| urn := "u"; guid := Some "viewer-snapshot"%string; dbId := 0;
     name := None; component_id := Some 0%Z;
     component_type := Some "Unknown"%string; type_name := None;
     family_name := None; is_asset := None; level_number := None;
     room_type := None; room_name := None; system_type := None;
     system_name := None; manufacturer := None; model_name := None;
     specification := None; omniclass_title := None; omniclass_number := None;
     props_flat := Some (JSON_stringify toString0 flat);
     embedding := None; embedding_model := None |}.

(** Four elements whose property [Dimensions.Area] holds the values of
    the example, as the snapshot service stores them. *)
Definition db_areas : database float :=
  insertMany (map (fun v => area_row (area_flat v)) example_areas) empty_db.

(** The same four values under a key without a point, [Area], which
    [flattenProps] never writes. *)
Definition db_plain_areas : database float :=
  insertMany (map (fun v => area_row [("Area"%string, v)]) example_areas)
             empty_db.

(** The plan of a [sum_area] question over the whole partition with the
    key [key]. *)
Definition sum_area_plan (key : string) : plan (T:=float) :=
  {| plan_urn := "u"; intent := JStr "bim"; task := JStr "sum_area";
     category := JNull; limit := JNum 20%float; filterParam := JNull;
     filterValue := JNull; targetParam := JNull; propsFlatKey := JStr key;
     useSemanticSearch := JBool false; semanticQuery := JNull;
     topK := JNum 100%float; notes := JStr "" |}.

(** The services of a [sum_area] question: the hint call fails, the
    planner replies the task and the property key [key], no filter. *)
Definition sum_area_services (key : string) : services (T:=float) :=
  {| hint_reply := Failed "unavailable";
     intent_reply := Replied (intent_of "sum_area" JNull);
     general_text := Ok ""%string;
     params_reply :=
       Replied {| p2_useSemanticSearch := JUndefined;
                  p2_semanticQuery := JUndefined; p2_topK := JUndefined;
                  p2_filterParam := JUndefined; p2_filterValue := JUndefined;
                  p2_targetParam := JUndefined; p2_propsFlatKey := JStr key;
                  p2_limit := JUndefined |};
     value_reply := RepliedNull;
     embedding_service := Throw "unavailable";
     answer_text := Ok ""%string |}.

(** * Theorems *)

(** ** Strings: [trim] *)

Section TrimFacts.
Local Open Scope string_scope.

Lemma drop_prefix_Some (p : string) : forall s r,
  drop_prefix p s = Some r -> s = p ++ r.
Proof.
  induction p as [|a p IH]; intros s r E; simpl in *.
  - congruence.
  - destruct s as [|b s]; [discriminate|].
    destruct (Ascii.eqb a b) eqn:Eab; [|discriminate].
    apply Ascii.eqb_eq in Eab. subst b. f_equal. now apply IH.
Qed.

Lemma drop_prefix_app (p r : string) : drop_prefix p (p ++ r) = Some r.
Proof.
  induction p as [|a p IH]; simpl; [reflexivity|].
  now rewrite Ascii.eqb_refl.
Qed.

Lemma strip_ws_Some (ws : list string) (s r : string) :
  strip_ws ws s = Some r -> exists w, In w ws /\ s = w ++ r.
Proof.
  unfold strip_ws. induction ws as [|w ws IH]; simpl; [discriminate|].
  destruct (drop_prefix w s) eqn:E.
  - intros [= <-]. exists w. split; [now left|]. now apply drop_prefix_Some.
  - intros E'. destruct (IH E') as (w' & Hin & Hs). exists w'. split; [now right|exact Hs].
Qed.

Lemma append_length (a b : string) :
  String.length (a ++ b) = String.length a + String.length b.
Proof. induction a; simpl; congruence. Qed.

Lemma append_assoc (a b c : string) : (a ++ b) ++ c = a ++ (b ++ c).
Proof. induction a; simpl; congruence. Qed.

Lemma append_nil_r (a : string) : a ++ "" = a.
Proof. induction a; simpl; congruence. Qed.

Lemma trim_front_fixed (ws : list string) (n : nat) (s : string) :
  strip_ws ws s = None -> trim_front ws n s = s.
Proof. intros E. destruct n; simpl; [reflexivity|now rewrite E]. Qed.

Lemma trim_front_suffix (ws : list string) (n : nat) : forall s,
  exists p, s = p ++ trim_front ws n s.
Proof.
  induction n as [|n IH]; intros s; simpl.
  - now exists "".
  - destruct (strip_ws ws s) as [r|] eqn:E; [|now exists ""].
    destruct (strip_ws_Some _ _ E) as (w & _ & ->).
    destruct (IH r) as (p & Hp). exists (w ++ p).
    rewrite append_assoc. now rewrite <- Hp.
Qed.

(** With fuel for every character, nothing is left to strip. *)
Lemma trim_front_done (ws : list string) (n : nat) : forall s,
  Forall (fun w => w <> "") ws ->
  String.length s <= n ->
  strip_ws ws (trim_front ws n s) = None.
Proof.
  intros s Hws. revert s.
  induction n as [|n IH]; intros s Hn; simpl.
  - destruct s; [|simpl in Hn; lia].
    destruct (strip_ws ws "") as [r|] eqn:E; [|reflexivity].
    destruct (strip_ws_Some _ _ E) as (w & Hin & Hs).
    rewrite Forall_forall in Hws. specialize (Hws w Hin).
    destruct w; [congruence|discriminate].
  - destruct (strip_ws ws s) as [r|] eqn:E; [|exact E].
    apply IH.
    destruct (strip_ws_Some _ _ E) as (w & Hin & ->).
    rewrite Forall_forall in Hws. specialize (Hws w Hin).
    rewrite append_length in Hn. destruct w; [congruence|simpl in Hn; lia].
Qed.

Lemma rev_string_app (s : string) : forall acc,
  rev_string acc s = rev_string "" s ++ acc.
Proof.
  induction s as [|c s IH]; intros acc; simpl; [reflexivity|].
  rewrite IH, (IH (String c "")), append_assoc. reflexivity.
Qed.

Lemma rev_string_append (a b : string) :
  rev_string "" (a ++ b) = rev_string "" b ++ rev_string "" a.
Proof.
  induction a as [|c a IH]; simpl.
  - now rewrite append_nil_r.
  - rewrite rev_string_app, IH, (rev_string_app a (String c "")), append_assoc.
    reflexivity.
Qed.

Lemma rev_string_involutive (s : string) :
  rev_string "" (rev_string "" s) = s.
Proof.
  induction s as [|c s IH]; simpl; [reflexivity|].
  rewrite (rev_string_app s (String c "")), rev_string_append, IH. reflexivity.
Qed.

Lemma rev_string_length (s : string) :
  String.length (rev_string "" s) = String.length s.
Proof.
  induction s as [|c s IH]; simpl; [reflexivity|].
  rewrite (rev_string_app s (String c "")), append_length, IH. simpl. lia.
Qed.

Lemma whitespace_nonempty : Forall (fun w => w <> "") whitespace.
Proof. repeat constructor; discriminate. Qed.

Lemma rev_whitespace_nonempty :
  Forall (fun w => w <> "") (map (rev_string "") whitespace).
Proof. repeat constructor; discriminate. Qed.

(** No whitespace character starts with a printable ASCII character, and
    none ends with one. *)
Lemma strip_ws_printable (c : ascii) (s : string) :
  (32 <? N_of_ascii c)%N = true -> (N_of_ascii c <? 127)%N = true ->
  strip_ws whitespace (String c s) = None
  /\ strip_ws (map (rev_string "") whitespace) (String c s) = None.
Proof.
  destruct c as [[] [] [] [] [] [] [] []]; intros H1 H2;
    try discriminate H1; try discriminate H2; split; reflexivity.
Qed.

Lemma trimStart_printable (c : ascii) (s : string) :
  (32 <? N_of_ascii c)%N = true -> (N_of_ascii c <? 127)%N = true ->
  trimStart (String c s) = String c s.
Proof.
  intros H1 H2. unfold trimStart. apply trim_front_fixed.
  now apply strip_ws_printable.
Qed.

Lemma trimEnd_printable (c : ascii) (s : string) :
  (32 <? N_of_ascii c)%N = true -> (N_of_ascii c <? 127)%N = true ->
  trimEnd (s ++ String c "") = s ++ String c "".
Proof.
  intros H1 H2. unfold trimEnd.
  rewrite rev_string_append.
  change (rev_string "" (String c "") ++ rev_string "" s)
    with (String c (rev_string "" s)).
  rewrite trim_front_fixed by now apply strip_ws_printable.
  change (rev_string "" (String c (rev_string "" s)))
    with (rev_string (String c "") (rev_string "" s)).
  now rewrite rev_string_app, rev_string_involutive.
Qed.

(** A line feed in front or at the end is trimmed away. *)
Lemma trimStart_nl (s : string) : trimStart (nl ++ s) = trimStart s.
Proof. reflexivity. Qed.

Lemma trimEnd_nl (s : string) : trimEnd (s ++ nl) = trimEnd s.
Proof.
  unfold trimEnd. rewrite rev_string_append.
  change (rev_string "" nl ++ rev_string "" s)
    with (String (ascii_of_nat 10) (rev_string "" s)).
  reflexivity.
Qed.

Lemma last_char_split (s : string) : forall c,
  exists init, String c s = init ++ String (last_char c s) "".
Proof.
  induction s as [|d s IH]; intros c; simpl.
  - now exists "".
  - destruct (IH d) as (init & E). exists (String c init). simpl. now rewrite E.
Qed.

Lemma plain_printable (c : ascii) :
  plain c = true ->
  (32 <? N_of_ascii c)%N = true /\ (N_of_ascii c <? 127)%N = true
  /\ (N_of_ascii c =? 96)%N = false.
Proof.
  unfold plain. rewrite !andb_true_iff, negb_true_iff. tauto.
Qed.

Lemma trim_bare (s : string) : bare s = true -> trim s = s.
Proof.
  destruct s as [|c s]; [discriminate|]. simpl. rewrite andb_true_iff.
  intros [Hc Hd].
  apply plain_printable in Hc. apply plain_printable in Hd.
  unfold trim. rewrite trimStart_printable by tauto.
  destruct (last_char_split s c) as (init & ->).
  apply trimEnd_printable; tauto.
Qed.

End TrimFacts.

Section TrimIdempotent.
Local Open Scope string_scope.

Lemma drop_prefix_append (w a b r : string) :
  drop_prefix w a = Some r -> drop_prefix w (a ++ b) = Some (r ++ b).
Proof.
  intros E. apply drop_prefix_Some in E. subst a.
  rewrite append_assoc. apply drop_prefix_app.
Qed.

Lemma strip_ws_None (ws : list string) (s : string) :
  strip_ws ws s = None <-> forall w, In w ws -> drop_prefix w s = None.
Proof.
  unfold strip_ws. induction ws as [|w ws IH]; simpl.
  - split; [intros _ w []|reflexivity].
  - destruct (drop_prefix w s) eqn:E.
    + split; [discriminate|]. intros Hall. specialize (Hall w (or_introl eq_refl)).
      congruence.
    + rewrite IH. split.
      * intros Hall w' [<-|Hin]; [exact E|now apply Hall].
      * intros Hall w' Hin. apply Hall. now right.
Qed.

Lemma strip_ws_prefix (ws : list string) (a b : string) :
  strip_ws ws (a ++ b) = None -> strip_ws ws a = None.
Proof.
  rewrite !strip_ws_None. intros Hall w Hin.
  destruct (drop_prefix w a) as [r|] eqn:E; [|reflexivity].
  apply (drop_prefix_append _ _ b) in E. rewrite (Hall w Hin) in E. discriminate.
Qed.

(** Trimming a trimmed string changes nothing. *)
Lemma trim_idempotent (s : string) : trim (trim s) = trim s.
Proof.
  unfold trim.
  set (r := trimStart s).
  assert (Hr : strip_ws whitespace r = None).
  { unfold r, trimStart. apply trim_front_done;
      [exact whitespace_nonempty|apply Nat.le_refl]. }
  set (ws' := map (rev_string "") whitespace).
  set (q := trim_front ws' (String.length (rev_string "" r)) (rev_string "" r)).
  assert (Hq : strip_ws ws' q = None).
  { unfold q. apply trim_front_done;
      [exact rev_whitespace_nonempty|apply Nat.le_refl]. }
  assert (Et : trimEnd r = rev_string "" q) by reflexivity.
  rewrite Et.
  destruct (trim_front_suffix ws' (String.length (rev_string "" r)) (rev_string "" r))
    as (p & Hp). fold q in Hp.
  assert (Er : r = rev_string "" q ++ rev_string "" p).
  { rewrite <- rev_string_append, <- Hp. symmetry. apply rev_string_involutive. }
  assert (Hs : trimStart (rev_string "" q) = rev_string "" q).
  { unfold trimStart. apply trim_front_fixed.
    apply (strip_ws_prefix _ _ (rev_string "" p)). now rewrite <- Er. }
  rewrite Hs. unfold trimEnd. rewrite rev_string_involutive.
  fold ws'. now rewrite trim_front_fixed.
Qed.

End TrimIdempotent.

(** ** Cosine similarity *)


(** *** The loop *)

Section NormFacts.
Context {T : Type} `{Arith T}.



End NormFacts.

(** *** An all-zero vector in binary64 *)






(** *** A vector and itself in binary64 *)





(** ** The [sum_area] task *)

Lemma sum_area_example : sum_area example_areas = (200.75%float, 2).
Proof. vm_compute. reflexivity. Qed.

(** What the loop adds for a row from which it extracts a number other
    than zero or NaN: that number, and one to the count. *)
Lemma area_step_adds (acc : float * nat) (raw : jsval float) (x : float) :
  extracted raw = Some x ->
  PrimFloat.eqb x 0 = false -> PrimFloat.is_nan x = false ->
  area_step acc raw = ((fst acc + x)%float, S (snd acc)).
Proof.
  intros Hx Hz Hn. unfold area_step.
  assert (Ht : truthy raw = true /\ areaNum raw = x).
  { destruct raw as [| |b|y|s|s]; simpl in Hx; try discriminate Hx.
    - injection Hx as ->. split; [|reflexivity].
      cbn [truthy num_is_zero num_is_nan Float64.arith]. now rewrite Hz, Hn.
    - destruct s as [|c s]; [discriminate Hx|]. split; [reflexivity|].
      cbn [areaNum]. destruct (match_number (String c s)) as [[[neg m] k]|];
        [|discriminate Hx].
      injection Hx as <-. reflexivity. }
  destruct Ht as [-> ->]. cbn [negb truthy num_is_zero num_is_nan Float64.arith].
  now rewrite Hz, Hn.
Qed.

(** C4 (the code at the failing input).  The loop of the task does what
    the claim says: a row from which a number is extracted adds that
    number (a numeric value itself, the first decimal number of a
    string), and the four values of the example total 200.75 over 2 rows.
    But the rows of the partition never reach the loop with their values.
    The snapshot service files the values under the key
    [Dimensions.Area], as it files every property under a key with a
    point; the statement asks SQLite for the path [$.Dimensions.Area],
    which is the member [Area] of a member [Dimensions], and the answer is
    NULL for each of the four rows.  The request ends with total 0 over 0
    rows.  Under a key without a point the same request returns the
    total of the claim. *)
Theorem sum_area_misses_dotted_keys :
  (forall (acc : float * nat) (raw : jsval float) (x : float),
     extracted raw = Some x ->
     PrimFloat.eqb x 0 = false -> PrimFloat.is_nan x = false ->
     area_step acc raw = ((fst acc + x)%float, S (snd acc)))
  /\ sum_area example_areas = (200.75%float, 2)
  /\ map (fun v => get (area_flat v) "Dimensions.Area") example_areas
     = example_areas
  /\ map (fun e => json_extract (props_flat (snd e)) "$.Dimensions.Area")
         (elements db_areas)
     = [Ok JNull; Ok JNull; Ok JNull; Ok JNull]
  /\ fst (handler toString0 toNumber0 sqlite_json db_areas "u"
            "Tổng diện tích?" (sum_area_services "Dimensions.Area"))
     = AnswerBim "" (KSumArea (JStr "Dimensions.Area") 0%float 0)
  /\ fst (handler toString0 toNumber0 sqlite_json db_plain_areas "u"
            "Tổng diện tích?" (sum_area_services "Area"))
     = AnswerBim "" (KSumArea (JStr "Area") 200.75%float 2).
Proof.
  split; [exact area_step_adds|].
  split; [exact sum_area_example|].
  repeat split; vm_compute; reflexivity.
Qed.

Lemma area_step_zero (acc : float * nat) (raw : jsval float) (x : float) :
  extracted raw = Some x -> PrimFloat.eqb x 0%float = true ->
  area_step acc raw = acc.
Proof.
  intros Hx Hz. unfold area_step.
  destruct (truthy raw) eqn:Ht; cbn [negb]; [|reflexivity].
  assert (Ha : areaNum raw = x).
  { destruct raw as [| |b|y|s|s]; simpl in Hx; try discriminate Hx.
    - injection Hx as ->. reflexivity.
    - simpl. destruct (match_number s) as [[[neg m] k]|]; [|discriminate Hx].
      injection Hx as <-. reflexivity. }
  rewrite Ha. cbn [truthy num_is_zero num_is_nan Float64.arith].
  rewrite Hz. reflexivity.
Qed.

Lemma area_step_nothing (acc : float * nat) (raw : jsval float) :
  extracted raw = None -> area_step acc raw = acc.
Proof.
  intros Hx. unfold area_step.
  destruct (truthy raw) eqn:Ht; cbn [negb]; [|reflexivity].
  assert (Ha : areaNum raw = 0%float).
  { destruct raw as [| |b|y|s|s]; simpl in Hx; try discriminate Hx;
      try reflexivity.
    simpl. destruct (match_number s) as [[[neg m] k]|]; [discriminate Hx|].
    reflexivity. }
  rewrite Ha. reflexivity.
Qed.

Lemma sum_area_skip (l1 l2 : list (jsval float)) (raw : jsval float) :
  (forall acc, area_step acc raw = acc) ->
  sum_area (l1 ++ raw :: l2) = sum_area (l1 ++ l2).
Proof.
  intros Hskip. unfold sum_area.
  rewrite !fold_left_app. simpl. rewrite Hskip. reflexivity.
Qed.

(** C10.  In the [sum_area] loop a row whose extracted area is zero (the
    number 0, or a string whose first decimal number is 0) changes neither
    the total nor the count of contributing rows, wherever it stands among
    the rows: exactly what a row with no extractable number does. *)
Theorem zero_area_contributes_nothing
    (l1 l2 : list (jsval float)) (raw : jsval float) (x : float) :
  extracted raw = Some x ->
  PrimFloat.eqb x 0%float = true ->
  sum_area (l1 ++ raw :: l2) = sum_area (l1 ++ l2)
  /\ (forall raw', extracted raw' = None ->
        sum_area (l1 ++ raw' :: l2) = sum_area (l1 ++ l2)).
Proof.
  intros Hx Hz. split.
  - apply sum_area_skip. intros acc. exact (area_step_zero acc raw Hx Hz).
  - intros raw' Hnone. apply sum_area_skip. intros acc.
    exact (area_step_nothing acc raw' Hnone).
Qed.

Lemma zero_area_contributes_nothing_witness :
  sum_area ([JNum 2.5%float] ++ JStr "0,00 m2" :: [JStr "1.5"])
    = sum_area ([JNum 2.5%float] ++ [JStr "1.5"])
  /\ (forall raw', extracted raw' = None ->
        sum_area ([JNum 2.5%float] ++ raw' :: [JStr "1.5"])
        = sum_area ([JNum 2.5%float] ++ [JStr "1.5"])).
Proof.
  apply (@zero_area_contributes_nothing [JNum 2.5%float] [JStr "1.5"]
           (JStr "0,00 m2") 0%float).
  - vm_compute. reflexivity.
  - vm_compute. reflexivity.
Defined.

Example zero_area_rows :
  sum_area (T:=float) [JNum 0%float; JStr "0"; JNum (-0)%float; JStr "-0.0 m2"; JNum 4%float]
  = (4%float, 1).
Proof. vm_compute. reflexivity. Qed.

(** ** Ingest *)

Section IngestFacts.
Context {T : Type} `{Arith T}.
Variable Number_toString : T -> string.
Variable raw : Type.
Variable extract : raw -> row T.

Lemma partition_rows_filter (u : string) (l : list (Z * row T)) :
  map snd (filter (in_urn u) l)
  = filter (fun r => String.eqb (urn r) u) (map snd l).
Proof.
  induction l as [|e l IH]; simpl; [reflexivity|].
  unfold in_urn at 1. destruct (String.eqb (urn (snd e)) u); simpl; congruence.
Qed.

Lemma rows_insertMany (rows : list (row T)) : forall db,
  map snd (elements (insertMany rows db)) = map snd (elements db) ++ rows.
Proof.
  unfold insertMany.
  induction rows as [|r rows IH]; intros db; simpl.
  - now rewrite app_nil_r.
  - rewrite IH. simpl. rewrite map_app, <- app_assoc. reflexivity.
Qed.

Lemma partition_rows_delete (u : string) (db : database T) :
  partition_rows u (delete_urn u db) = [].
Proof.
  unfold partition_rows, delete_urn. simpl.
  induction (elements db) as [|e l IH]; simpl; [reflexivity|].
  destruct (in_urn u e) eqn:E; simpl; [exact IH|].
  rewrite E. exact IH.
Qed.

Lemma partition_rows_insertMany (u : string) (rows : list (row T))
    (db : database T) :
  Forall (fun r => urn r = u) rows ->
  partition_rows u (insertMany rows db) = partition_rows u db ++ rows.
Proof.
  intros Hrows. unfold partition_rows.
  rewrite !partition_rows_filter, rows_insertMany, filter_app. f_equal.
  induction Hrows as [|r rows Hr _ IH]; simpl; [reflexivity|].
  rewrite Hr, String.eqb_refl, IH. reflexivity.
Qed.

Lemma add_embeddings_urn (u : string) (rows : list (row T)) :
  forall es, Forall (fun r => urn r = u) rows ->
             Forall (fun r => urn r = u) (add_embeddings rows es).
Proof.
  induction rows as [|r rows IH]; intros es Hrows; simpl; [constructor|].
  inversion Hrows; subst. constructor; [reflexivity|]. now apply IH.
Qed.

Lemma add_embeddings_length (rows : list (row T)) :
  forall es, List.length (add_embeddings rows es) = List.length rows.
Proof. induction rows; intros es; simpl; congruence. Qed.

Lemma add_embeddings_category (rows : list (row T)) :
  forall es, map (@component_type T) (add_embeddings rows es)
             = map (@component_type T) rows.
Proof. induction rows; intros es; simpl; congruence. Qed.

Lemma transformed_urn (u g : string) (rawData : list raw) :
  Forall (fun r => urn r = u) (map (fun e => transformElement extract e u g) rawData).
Proof. induction rawData; simpl; constructor; [reflexivity|assumption]. Qed.

(** The partition after [migrate] holds the transformed input and nothing
    else, whatever it held before. *)
Lemma partition_rows_migrate (u g : string) (rawData : list raw)
    (es : list (option (list T))) (db : database T) :
  partition_rows u (migrate extract u g rawData es db)
  = add_embeddings (map (fun e => transformElement extract e u g) rawData) es.
Proof.
  unfold migrate.
  rewrite partition_rows_insertMany, partition_rows_delete; [reflexivity|].
  apply add_embeddings_urn, transformed_urn.
Qed.

Lemma count_urn_rows (u : string) (db : database T) :
  count_urn u db = List.length (partition_rows u db).
Proof. unfold count_urn, partition_rows. now rewrite length_map. Qed.

Lemma select_distinct_rows (col : row T -> option string) (u : string)
    (db db' : database T) :
  map col (partition_rows u db) = map col (partition_rows u db') ->
  select_distinct col u db = select_distinct col u db'.
Proof.
  intros Hcol. unfold select_distinct.
  assert (E : forall d, flat_map (fun e => present (col (snd e)))
                                 (filter (in_urn u) (elements d))
                        = flat_map present (map col (partition_rows u d))).
  { intros d. unfold partition_rows.
    induction (filter (in_urn u) (elements d)) as [|e l IH]; simpl;
      [reflexivity|now rewrite IH]. }
  rewrite !E, Hcol. reflexivity.
Qed.

Lemma snapshot_chunks (u g : string) (chunks : list (list raw)) :
  forall db,
  partition_rows u
    (fold_left (fun d chunk => ingestSnapshotChunk extract u g chunk d) chunks db)
  = partition_rows u db
    ++ map (fun e => transformSnapshotElement extract e u g) (List.concat chunks).
Proof.
  induction chunks as [|c chunks IH]; intros db; simpl.
  - now rewrite app_nil_r.
  - rewrite IH, map_app, app_assoc. f_equal.
    unfold ingestSnapshotChunk. destruct c as [|e c]; [now rewrite app_nil_r|].
    apply partition_rows_insertMany.
    generalize (e :: c). intros l.
    induction l; simpl; constructor; [reflexivity|assumption].
Qed.

Lemma partition_rows_snapshot (u g : string) (chunks : list (list raw))
    (db : database T) :
  partition_rows u (snapshot extract u g chunks db)
  = map (fun e => transformSnapshotElement extract e u g) (List.concat chunks).
Proof.
  unfold snapshot, initSnapshot.
  now rewrite snapshot_chunks, partition_rows_delete.
Qed.

(** C9.  Ingest is idempotent on what the partition shows.  Running
    [migrate] for partition key [u] a second time on the same input
    (whatever the embedding service answers in either run) leaves the row
    count of the partition, which is the number of input elements, and the
    catalog's distinct categories as the first run left them; the same
    holds for a viewer snapshot (init, then its chunks).  Old rows are
    replaced, not duplicated. *)
Theorem ingest_idempotent (u g : string) (rawData : list raw)
    (es1 es2 : list (option (list T))) (chunks : list (list raw))
    (db : database T) :
  let once := migrate extract u g rawData es1 db in
  let twice := migrate extract u g rawData es2 once in
  let snap1 := snapshot extract u g chunks db in
  let snap2 := snapshot extract u g chunks snap1 in
  (count_urn u once = List.length rawData
   /\ count_urn u twice = count_urn u once
   /\ categories (getMeta Number_toString twice u)
      = categories (getMeta Number_toString once u))
  /\ (finishSnapshot u snap1 = List.length (List.concat chunks)
      /\ finishSnapshot u snap2 = finishSnapshot u snap1
      /\ categories (getMeta Number_toString snap2 u)
         = categories (getMeta Number_toString snap1 u)).
Proof.
  intros once twice snap1 snap2. split; repeat split.
  - unfold once. rewrite count_urn_rows, partition_rows_migrate.
    now rewrite add_embeddings_length, length_map.
  - unfold twice, once. rewrite !count_urn_rows, !partition_rows_migrate.
    now rewrite !add_embeddings_length.
  - unfold getMeta. cbn [categories]. do 2 f_equal.
    apply select_distinct_rows.
    unfold twice, once. rewrite !partition_rows_migrate.
    now rewrite !add_embeddings_category.
  - unfold finishSnapshot, snap1.
    now rewrite count_urn_rows, partition_rows_snapshot, length_map.
  - unfold finishSnapshot, snap2, snap1.
    now rewrite !count_urn_rows, !partition_rows_snapshot.
  - unfold getMeta. cbn [categories]. do 2 f_equal.
    apply select_distinct_rows.
    unfold snap2, snap1. now rewrite !partition_rows_snapshot.
Qed.

End IngestFacts.

(** ** Semantic retrieval *)

Lemma firstn_In (A : Type) (z : A) (l : list A) :
  forall n, In z (firstn n l) -> In z l.
Proof.
  induction l as [|x l IH]; intros [|n]; simpl; try easy.
  intros [<-|Hz]; [now left|right; eauto].
Qed.

Section RankingFacts.
Context {T : Type} `{Arith T}.

Lemma insert_score_In (x z : Z * T) (l : list (Z * T)) :
  In z (insert_score x l) -> z = x \/ In z l.
Proof.
  induction l as [|y l IH]; simpl.
  - intros [<-|[]]. now left.
  - destruct (num_is_pos (num_sub (snd y) (snd x))); simpl.
    + intros [<-|Hz]; [right; now left|].
      destruct (IH Hz) as [->|Hl]; [now left|right; now right].
    + intros [<-|[<-|Hz]]; [now left|right; now left|right; now right].
Qed.

Lemma insert_score_length (x : Z * T) (l : list (Z * T)) :
  List.length (insert_score x l) = S (List.length l).
Proof.
  induction l as [|y l IH]; simpl; [reflexivity|].
  destruct (num_is_pos (num_sub (snd y) (snd x))); simpl; congruence.
Qed.

Lemma sort_scores_In (z : Z * T) (l : list (Z * T)) :
  In z (sort_scores l) -> In z l.
Proof.
  induction l as [|x l IH]; simpl; [easy|].
  intros Hz. apply insert_score_In in Hz as [->|Hz]; [now left|right; auto].
Qed.

Lemma sort_scores_length (l : list (Z * T)) :
  List.length (sort_scores l) = List.length l.
Proof.
  induction l as [|x l IH]; simpl; [reflexivity|].
  now rewrite insert_score_length, IH.
Qed.

Lemma slice0_In (A : Type) (l : list A) (e : ext_int) (z : A) :
  In z (slice0 l e) -> In z l.
Proof. unfold slice0. intros Hz. eapply firstn_In, Hz. Qed.

Lemma slice0_length (A : Type) (l : list A) (k : Z) :
  ((0 <= k)%Z ->
   List.length (slice0 l (Fin k)) = Nat.min (Z.to_nat k) (List.length l))
  /\ ((k < 0)%Z ->
      List.length (slice0 l (Fin k)) = List.length l - Z.to_nat (- k)).
Proof.
  unfold slice0. rewrite length_firstn.
  destruct (k <? 0)%Z eqn:E; [apply Z.ltb_lt in E|apply Z.ltb_ge in E];
    split; intros Hk; lia.
Qed.

Lemma score_rows_Ok (q : list T) (rows : list (Z * option (list T))) :
  forall scores, score_rows q rows = Ok scores ->
  List.length scores = List.length rows
  /\ Forall (fun p => exists v, In (fst p, Some v) rows
                                /\ snd p = cosineSimilarity q v) scores.
Proof.
  induction rows as [|[i [v|]] rows IH]; simpl; intros scores Hs.
  - injection Hs as <-. split; [reflexivity|constructor].
  - destruct (score_rows q rows) as [l|m]; [|discriminate Hs].
    injection Hs as <-. destruct (IH l eq_refl) as [Hlen Hall]. split.
    + simpl. congruence.
    + constructor.
      * exists v. split; [now left|reflexivity].
      * eapply Forall_impl, Hall. intros p (w & Hin & Hp).
        exists w. split; [now right|exact Hp].
  - discriminate Hs.
Qed.

Lemma score_rows_Throw (q : list T) (rows : list (Z * option (list T))) :
  forall m, score_rows q rows = Throw m -> exists i, In (i, None) rows.
Proof.
  induction rows as [|[i [v|]] rows IH]; simpl; intros m Hs.
  - discriminate Hs.
  - destruct (score_rows q rows) as [l|m']; [discriminate Hs|].
    destruct (IH m' eq_refl) as [j Hj]. exists j. now right.
  - exists i. now left.
Qed.

Lemma score_rows_valid (q : list T) (rows : list (Z * option (list T))) :
  forall scores, score_rows q rows = Ok scores ->
  forall i, ~ In (i, None) rows.
Proof.
  induction rows as [|[j [v|]] rows IH]; simpl; intros scores Hs i.
  - intros [].
  - destruct (score_rows q rows) as [l|m]; [|discriminate Hs].
    intros [E|Hin]; [discriminate E|exact (IH l eq_refl i Hin)].
  - discriminate Hs.
Qed.

End RankingFacts.

(** *** The order in binary64 *)

(** In binary64 the comparator [b.score - a.score] cannot be positive in
    both directions: the two differences are computed from opposite
    integers and rounded with opposite signs. *)

Lemma binary_round_aux_sign (s : bool) (m e : Z) (l : location) :
  sf_pos (binary_round_aux prec emax s m e l) = true ->
  s = false.
Proof.
  unfold binary_round_aux.
  destruct (shr_fexp prec emax m e l) as [mrs' e'].
  destruct (shr_fexp prec emax _ e' loc_Exact) as [mrs'' e''].
  destruct (shr_m mrs'') as [|p|p]; try (destruct s; cbv; congruence).
  destruct (e'' <=? emax - prec)%Z; destruct s; cbv; congruence.
Qed.

Lemma binary_normalize_sign (m e : Z) :
  sf_pos (binary_normalize prec emax m e false) = true ->
  (0 < m)%Z.
Proof.
  destruct m as [|p|p]; simpl.
  - cbv; discriminate.
  - lia.
  - unfold binary_round. destruct (shl_align _ _ _) as [mz ez].
    intros Hs. apply binary_round_aux_sign in Hs. discriminate.
Qed.

Lemma SFsub_antisym (a b : spec_float) :
  sf_pos (SF64sub b a) = true -> sf_pos (SF64sub a b) = false.
Proof.
  unfold SF64sub.
  destruct a as [sa|sa| |sa ma ea], b as [sb|sb| |sb mb eb];
    try (destruct sa, sb; cbv; congruence);
    try (destruct sa; cbv; congruence);
    try (destruct sb; cbv; congruence);
    try (cbv; congruence).
  unfold SFsub. rewrite (Z.min_comm ea eb).
  set (ez := Z.min eb ea).
  set (A := cond_Zopp sa (Zpos (fst (shl_align ma ea ez)))).
  set (B := cond_Zopp sb (Zpos (fst (shl_align mb eb ez)))).
  intros Hs. apply binary_normalize_sign in Hs.
  destruct (sf_pos (binary_normalize prec emax (A - B) ez false)) eqn:E;
    [|reflexivity].
  apply binary_normalize_sign in E. lia.
Qed.

Lemma float_sub_antisym (x y : float) :
  PrimFloat.ltb 0 (y - x) = true -> PrimFloat.ltb 0 (x - y) = false.
Proof. rewrite !ltb_spec, !sub_spec. apply SFsub_antisym. Qed.

Lemma insert_score_ordered (x : Z * float) (l : list (Z * float)) :
  Sorted in_order l -> Sorted in_order (insert_score x l).
Proof.
  induction 1 as [|y l Hl IH Hy]; simpl.
  - repeat constructor.
  - destruct (PrimFloat.ltb 0 (snd y - snd x)) eqn:E.
    + constructor; [exact IH|].
      destruct l as [|z l]; simpl.
      * constructor. unfold in_order. now apply float_sub_antisym.
      * destruct (PrimFloat.ltb 0 (snd z - snd x)).
        -- constructor. now inversion Hy.
        -- constructor. unfold in_order. now apply float_sub_antisym.
    + constructor; [now constructor|]. constructor. exact E.
Qed.

(** Whatever the stored vectors, the sorted scores are in order as far as
    the comparator of the source can tell: between an entry and the next
    one, [next.score - entry.score] is never positive. *)
Lemma sort_scores_ordered (l : list (Z * float)) :
  Sorted in_order (sort_scores l).
Proof.
  induction l as [|x l IH]; simpl; [constructor|].
  now apply insert_score_ordered.
Qed.

(** *** Non-increasing order in binary64 *)

Module Binary64Order.
Local Open Scope Z_scope.
Local Unset Implicit Arguments.

Lemma digits2_pos_bounds (p : positive) :
  2 ^ (Zpos (digits2_pos p) - 1) <= Zpos p < 2 ^ Zpos (digits2_pos p).
Proof.
  induction p as [p IH|p IH|]; simpl digits2_pos.
  - rewrite Pos2Z.inj_succ.
    replace (Z.succ (Zpos (digits2_pos p)) - 1) with (Z.succ (Zpos (digits2_pos p) - 1)) by lia.
    rewrite !Z.pow_succ_r by lia. lia.
  - rewrite Pos2Z.inj_succ.
    replace (Z.succ (Zpos (digits2_pos p)) - 1) with (Z.succ (Zpos (digits2_pos p) - 1)) by lia.
    rewrite !Z.pow_succ_r by lia. lia.
  - simpl. lia.
Qed.

Lemma shr_1_m (mrs : shr_record) :
  0 <= shr_m mrs -> shr_m (shr_1 mrs) = Z.shiftr (shr_m mrs) 1 /\ 0 <= shr_m (shr_1 mrs).
Proof.
  destruct mrs as [m r s]. simpl. intros Hm.
  destruct m as [|[p|p|]|p]; simpl; try lia; split; try reflexivity; lia.
Qed.

Lemma iter_shr_m (p : positive) : forall mrs,
  0 <= shr_m mrs ->
  shr_m (SpecFloat.iter_pos shr_1 p mrs) = Z.shiftr (shr_m mrs) (Zpos p)
  /\ 0 <= shr_m (SpecFloat.iter_pos shr_1 p mrs).
Proof.
  induction p as [p IH|p IH|]; intros mrs Hm; simpl SpecFloat.iter_pos.
  - destruct (shr_1_m mrs Hm) as [E1 H1].
    destruct (IH _ H1) as [E2 H2]. destruct (IH _ H2) as [E3 H3].
    split; [|exact H3]. rewrite E3, E2, E1, !Z.shiftr_shiftr by lia.
    f_equal. lia.
  - destruct (IH _ Hm) as [E2 H2]. destruct (IH _ H2) as [E3 H3].
    split; [|exact H3]. rewrite E3, E2, !Z.shiftr_shiftr by lia.
    f_equal. lia.
  - apply shr_1_m. exact Hm.
Qed.

Lemma shr_record_of_loc_m (m : Z) (l : location) :
  shr_m (shr_record_of_loc m l) = m.
Proof. destruct l as [|[]]; reflexivity. Qed.

(** Shifting to the format's exponent keeps a positive mantissa positive,
    as long as the exponent is not below [emin]. *)
Lemma shr_fexp_pos (m e : Z) (l : location) :
  0 < m -> emin64 <= e ->
  0 < shr_m (fst (shr_fexp prec emax m e l))
  /\ emin64 <= snd (shr_fexp prec emax m e l).
Proof.
  intros Hm He. unfold shr_fexp, shr.
  destruct m as [|p|p]; try lia. simpl Zdigits2.
  pose proof (digits2_pos_bounds p) as [Hlo _].
  set (d := Zpos (digits2_pos p)) in *.
  destruct (fexp prec emax (d + e) - e) as [|n|n] eqn:En; simpl fst; simpl snd.
  - rewrite shr_record_of_loc_m. lia.
  - assert (Hn : Zpos n = d - prec).
    { unfold fexp in En. fold emin64 in En. lia. }
    destruct (iter_shr_m n (shr_record_of_loc (Zpos p) l)) as [E _].
    { rewrite shr_record_of_loc_m. lia. }
    rewrite E, shr_record_of_loc_m, Z.shiftr_div_pow2 by lia.
    split; [|lia].
    apply Z.div_str_pos. split; [lia|].
    eapply Z.le_trans; [|exact Hlo].
    apply Z.pow_le_mono_r; [lia|]. rewrite Hn. unfold prec. lia.
  - rewrite shr_record_of_loc_m. lia.
Qed.

Lemma round_nearest_even_pos (m : Z) (l : location) :
  0 < m -> 0 < round_nearest_even m l.
Proof.
  intros Hm. unfold round_nearest_even.
  destruct l as [|[]]; try lia. destruct (Z.even m); lia.
Qed.

Lemma binary_round_aux_pos (m e : Z) (l : location) :
  0 < m -> emin64 <= e ->
  sf_pos (binary_round_aux prec emax false m e l) = true.
Proof.
  intros Hm He. unfold binary_round_aux.
  destruct (shr_fexp_pos m e l Hm He) as [H1 H2].
  destruct (shr_fexp prec emax m e l) as [mrs' e']. simpl in H1, H2.
  pose proof (round_nearest_even_pos (shr_m mrs') (loc_of_shr_record mrs') H1) as H3.
  destruct (shr_fexp_pos _ e' loc_Exact H3 H2) as [H4 _].
  destruct (shr_fexp prec emax _ e' loc_Exact) as [mrs'' e'']. simpl in H4.
  destruct (shr_m mrs'') as [|q|q]; try lia.
  destruct (e'' <=? emax - prec); reflexivity.
Qed.

Lemma pos_iter_xO (m d : positive) :
  Zpos (Pos.iter xO m d) = Zpos m * 2 ^ Zpos d.
Proof.
  induction d as [|d IH] using Pos.peano_ind.
  - simpl. lia.
  - rewrite Pos.iter_succ, Pos2Z.inj_succ, Z.pow_succ_r by lia.
    rewrite Pos2Z.inj_xO, IH. lia.
Qed.

Lemma shl_align_spec (m : positive) (e ez : Z) :
  ez <= e ->
  Zpos (fst (shl_align m e ez)) = Zpos m * 2 ^ (e - ez)
  /\ snd (shl_align m e ez) = ez.
Proof.
  intros Hle. unfold shl_align.
  destruct (ez - e) as [|d|d] eqn:Ed; simpl fst; simpl snd.
  - replace (e - ez) with 0 by lia. simpl. lia.
  - lia.
  - rewrite pos_iter_xO. replace (e - ez) with (Zpos d) by lia. lia.
Qed.

Lemma binary_normalize_pos (m e : Z) :
  0 < m -> emin64 <= e ->
  sf_pos (binary_normalize prec emax m e false) = true.
Proof.
  intros Hm He. destruct m as [|p|p]; try lia. simpl.
  unfold binary_round.
  set (e' := fexp prec emax (Zpos (digits2_pos p) + e)).
  assert (He' : emin64 <= e') by (unfold e', fexp, emin64; lia).
  destruct (Z_le_gt_dec e' e) as [Hle|Hgt].
  - destruct (shl_align_spec p e e' Hle) as [_ E2].
    destruct (shl_align p e e') as [mz ez]. simpl in E2. subst ez.
    apply binary_round_aux_pos; lia.
  - unfold shl_align. destruct (e' - e) eqn:Ed; try lia;
      apply binary_round_aux_pos; lia.
Qed.

Lemma valid_finite (s : bool) (m : positive) (e : Z) :
  valid_binary (S754_finite s m e) = true ->
  emin64 <= e /\ Zpos (digits2_pos m) <= prec
  /\ (emin64 < e -> Zpos (digits2_pos m) = prec).
Proof.
  unfold valid_binary. simpl. unfold bounded, canonical_mantissa. intros Hv.
  apply andb_prop in Hv as [Hc _]. apply Z.eqb_eq in Hc.
  unfold fexp in Hc. fold emin64 in Hc. lia.
Qed.

(** A larger valid number has the larger mantissa once both are written
    with the smaller of the two exponents. *)
Lemma aligned_mantissa_lt (ma mb : positive) (ea eb : Z) :
  valid_binary (S754_finite false ma ea) = true ->
  valid_binary (S754_finite false mb eb) = true ->
  (ea < eb \/ (ea = eb /\ (ma < mb)%positive)) ->
  Zpos (fst (shl_align ma ea (Z.min ea eb)))
  < Zpos (fst (shl_align mb eb (Z.min ea eb))).
Proof.
  intros Va Vb Hlt.
  apply valid_finite in Va as (Ha1 & Ha2 & _).
  apply valid_finite in Vb as (Hb1 & _ & Hb3).
  destruct (shl_align_spec ma ea (Z.min ea eb)) as [Ea _]; [lia|].
  destruct (shl_align_spec mb eb (Z.min ea eb)) as [Eb _]; [lia|].
  rewrite Ea, Eb.
  destruct Hlt as [Hlt|[-> Hlt]].
  - rewrite Z.min_l by lia. rewrite Z.sub_diag, Z.mul_1_r.
    pose proof (digits2_pos_bounds ma) as [_ Hma].
    pose proof (digits2_pos_bounds mb) as [Hmb _].
    rewrite Hb3 in Hmb by lia.
    assert (Hp : 2 ^ Zpos (digits2_pos ma) <= 2 ^ prec)
      by (apply Z.pow_le_mono_r; lia).
    assert (H2 : 2 ^ 1 <= 2 ^ (eb - ea)) by (apply Z.pow_le_mono_r; lia).
    assert (H3 : 2 ^ prec = 2 ^ (prec - 1) * 2 ^ 1)
      by (rewrite <- Z.pow_add_r by (unfold prec; lia); f_equal; lia).
    nia.
  - rewrite Z.min_id, !Z.sub_diag, !Z.mul_1_r. lia.
Qed.

Lemma SFsub_gt_pos (a b : spec_float) :
  valid_binary a = true ->
  valid_binary b = true ->
  SFcompare b a = Some Gt ->
  sf_pos (SF64sub b a) = true.
Proof.
  intros Va Vb Hc. unfold SF64sub.
  destruct a as [sa|sa| |sa ma ea], b as [sb|sb| |sb mb eb];
    try (destruct sa, sb; cbv in Hc |- *; congruence);
    try (destruct sa; cbv in Hc |- *; congruence);
    try (destruct sb; cbv in Hc |- *; congruence);
    try (cbv in Hc |- *; congruence).
  unfold SFsub. apply binary_normalize_pos.
  2: { apply valid_finite in Va as (Ha & _). apply valid_finite in Vb as (Hb & _).
       lia. }
  assert (Va' : valid_binary (S754_finite false ma ea) = true) by exact Va.
  assert (Vb' : valid_binary (S754_finite false mb eb) = true) by exact Vb.
  simpl in Hc.
  destruct sb, sa; simpl cond_Zopp.
  - (* both negative *)
    rewrite (Z.min_comm eb ea).
    pose proof (aligned_mantissa_lt mb ma eb ea Vb' Va') as Hlt.
    rewrite (Z.min_comm eb ea) in Hlt.
    destruct (Z.compare_spec eb ea) as [E|E|E]; try discriminate Hc.
    + change (PosDef.Pos.compare_cont Eq mb ma) with (mb ?= ma)%positive in Hc.
      destruct (Pos.compare_spec mb ma) as [E'|E'|E']; simpl in Hc;
        try discriminate Hc.
      specialize (Hlt (or_intror (conj E E'))). lia.
    + specialize (Hlt (or_introl E)). lia.
  - discriminate Hc.
  - lia.
  - (* both positive *)
    rewrite (Z.min_comm eb ea).
    pose proof (aligned_mantissa_lt ma mb ea eb Va' Vb') as Hlt.
    destruct (Z.compare_spec eb ea) as [E|E|E]; try discriminate Hc.
    + change (PosDef.Pos.compare_cont Eq mb ma) with (mb ?= ma)%positive in Hc.
      destruct (Pos.compare_spec mb ma) as [E'|E'|E']; simpl in Hc;
        try discriminate Hc.
      specialize (Hlt (or_intror (conj (eq_sym E) E'))). lia.
    + specialize (Hlt (or_introl E)). lia.
Qed.

Lemma SFcompare_None (a b : spec_float) :
  SFcompare a b = None -> SF64sub b a = S754_nan.
Proof.
  destruct a as [sa|sa| |sa ma ea], b as [sb|sb| |sb mb eb];
    try discriminate; try reflexivity;
    try (destruct sa; discriminate); try (destruct sb; discriminate);
    try (destruct sa, sb; discriminate).
Qed.

Lemma SFcompare_Some (a b : spec_float) :
  a <> S754_nan -> b <> S754_nan -> exists c, SFcompare b a = Some c.
Proof.
  intros Ha Hb.
  destruct a as [sa|sa| |sa ma ea], b as [sb|sb| |sb mb eb];
    try congruence; simpl; eauto.
Qed.

(** A positive difference [b - a] means [a <= b]. *)
Lemma SFsub_pos_leb (a b : spec_float) :
  valid_binary a = true -> valid_binary b = true ->
  sf_pos (SF64sub b a) = true -> SFleb a b = true.
Proof.
  intros Va Vb Hp. unfold SFleb.
  destruct (SFcompare a b) as [[| |]|] eqn:Ec; try reflexivity.
  - pose proof (SFsub_gt_pos b a Vb Va Ec) as Hq.
    apply SFsub_antisym in Hp. congruence.
  - apply SFcompare_None in Ec. rewrite Ec in Hp. discriminate Hp.
Qed.

(** Between two numbers, a difference [b - a] that is not positive means
    [b <= a]. *)
Lemma SFsub_not_pos_leb (a b : spec_float) :
  valid_binary a = true -> valid_binary b = true ->
  a <> S754_nan -> b <> S754_nan ->
  sf_pos (SF64sub b a) = false -> SFleb b a = true.
Proof.
  intros Va Vb Ha Hb Hp. unfold SFleb.
  destruct (SFcompare_Some a b Ha Hb) as [c Ec]. rewrite Ec.
  destruct c; try reflexivity.
  pose proof (SFsub_gt_pos a b Va Vb Ec). congruence.
Qed.

Lemma Prim2SF_not_nan (x : float) :
  PrimFloat.is_nan x = false -> Prim2SF x <> S754_nan.
Proof.
  intros Hx. unfold Prim2SF. rewrite Hx.
  destruct (PrimFloat.is_zero x); [discriminate|].
  destruct (PrimFloat.is_infinity x); [discriminate|].
  destruct (Z.frexp x) as [r e].
  destruct (shr_fexp prec emax _ _ loc_Exact) as [mrs e'].
  destruct (shr_m mrs); discriminate.
Qed.

Lemma float_sub_pos_leb (x y : float) :
  PrimFloat.ltb 0 (y - x) = true -> PrimFloat.leb x y = true.
Proof.
  rewrite ltb_spec, leb_spec, sub_spec.
  apply SFsub_pos_leb; apply Prim2SF_valid.
Qed.

Lemma float_sub_not_pos_leb (x y : float) :
  PrimFloat.is_nan x = false -> PrimFloat.is_nan y = false ->
  PrimFloat.ltb 0 (y - x) = false -> PrimFloat.leb y x = true.
Proof.
  intros Hx Hy. rewrite ltb_spec, leb_spec, sub_spec.
  apply SFsub_not_pos_leb; try apply Prim2SF_valid;
    now apply Prim2SF_not_nan.
Qed.

Lemma insert_score_keeps (P : Z * float -> Prop) (x : Z * float)
    (l : list (Z * float)) :
  P x -> Forall P l -> Forall P (insert_score x l).
Proof.
  intros Hx Hl. rewrite Forall_forall in *. intros z Hz.
  apply insert_score_In in Hz as [->|Hz]; auto.
Qed.

Lemma insert_score_non_increasing (x : Z * float) (l : list (Z * float)) :
  PrimFloat.is_nan (snd x) = false ->
  Forall (fun p => PrimFloat.is_nan (snd p) = false) l ->
  Sorted not_below l -> Sorted not_below (insert_score x l).
Proof.
  intros Hx Hnan Hs. induction Hs as [|y l Hl IH Hy]; simpl.
  - repeat constructor.
  - inversion Hnan as [|? ? Hyn Hln]; subst.
    destruct (PrimFloat.ltb 0 (snd y - snd x)) eqn:E.
    + constructor; [now apply IH|].
      destruct l as [|z l]; simpl.
      * constructor. unfold not_below. now apply float_sub_pos_leb.
      * destruct (PrimFloat.ltb 0 (snd z - snd x)).
        -- constructor. now inversion Hy.
        -- constructor. unfold not_below. now apply float_sub_pos_leb.
    + constructor; [now constructor|]. constructor.
      unfold not_below. now apply float_sub_not_pos_leb.
Qed.

Lemma sort_scores_non_increasing (l : list (Z * float)) :
  Forall (fun p => PrimFloat.is_nan (snd p) = false) l ->
  Sorted not_below (sort_scores l).
Proof.
  induction 1 as [|x l Hx Hl IH]; simpl; [constructor|].
  apply insert_score_non_increasing; [exact Hx| |exact IH].
  rewrite Forall_forall in *. intros z Hz. apply Hl. now apply sort_scores_In.
Qed.

Lemma firstn_Sorted (A : Type) (R : A -> A -> Prop) (l : list A) :
  forall n, Sorted R l -> Sorted R (firstn n l).
Proof.
  induction l as [|x l IH]; intros [|n] Hs; simpl; try constructor.
  - apply IH. now inversion Hs.
  - inversion Hs as [|? ? _ Hhd]; subst.
    destruct l as [|y l]; destruct n as [|n]; simpl; constructor.
    now inversion Hhd.
Qed.

End Binary64Order.

(** C6 (as stated, refuted).  With [K = -1] and three rows that carry an
    embedding, [scores.slice(0, -1)] drops the last entry only: two ids
    come back, more than [min(-1, 3)].  And order is only defined among
    numbers: a squared norm that overflows makes a similarity NaN, which
    is neither above nor below any other score. *)
Lemma semanticSearch_negative_k :
  (semanticSearch db3 "u" [1%float; 0%float] (Fin (-1)) = Ok [2; 3]%Z
   /\ List.length (select_embeddings "u" db3) = 3%nat
   /\ ~ (Z.of_nat (List.length [2; 3]%Z) <= Z.min (-1) 3)%Z)
  /\ (score_rows [0x1p700%float] (select_embeddings "u" db_overflow)
      = Ok [(1%Z, nan); (2%Z, 0%float)]
      /\ PrimFloat.leb nan 0 = false /\ PrimFloat.leb 0 nan = false).
Proof.
  split.
  - split; [vm_compute; reflexivity|].
    split; [vm_compute; reflexivity|].
    vm_compute. intros Hle. apply Hle. reflexivity.
  - repeat split; vm_compute; reflexivity.
Qed.

(** C6 (amended).  For every integer [K], semantic retrieval throws exactly
    when some stored embedding of the partition is not valid JSON.
    Otherwise it returns the ids of a list of (id, score) entries, each a
    row of the partition with a stored embedding and its cosine similarity
    to the query.  With [n] such rows there are [min(K, n)] entries for
    [K >= 0], and [n - |K|] of them (none if that is negative) for
    [K < 0].  No entry is directly followed by one that the comparator of
    the sort puts in front of it, and when no similarity is NaN every
    entry is followed by one of at most its own similarity, as binary64
    numbers. *)
Theorem semanticSearch_top_k (db : database float) (u : string)
    (q : list float) (k : Z) :
  match semanticSearch db u q (Fin k) with
  | Ok ids =>
      (forall i, ~ In (i, None) (select_embeddings u db))
      /\ exists entries,
           ids = map fst entries
           /\ Forall (fun p => exists v,
                          In (fst p, Some v) (select_embeddings u db)
                          /\ snd p = cosineSimilarity q v) entries
           /\ ((0 <= k)%Z ->
               List.length ids
               = Nat.min (Z.to_nat k) (List.length (select_embeddings u db)))
           /\ ((k < 0)%Z ->
               List.length ids
               = List.length (select_embeddings u db) - Z.to_nat (- k))
           /\ Sorted in_order entries
           /\ ((forall i v, In (i, Some v) (select_embeddings u db) ->
                    PrimFloat.is_nan (cosineSimilarity q v) = false) ->
               Sorted not_below entries)
  | Throw _ => exists i, In (i, None) (select_embeddings u db)
  end.
Proof.
  unfold semanticSearch.
  destruct (Nat.eqb (List.length (select_embeddings u db)) 0) eqn:E0.
  - apply Nat.eqb_eq in E0.
    destruct (select_embeddings u db) as [|e l]; [|discriminate E0].
    split; [intros i []|]. exists [].
    repeat split; try constructor; intros; simpl; lia.
  - destruct (score_rows q (select_embeddings u db)) as [scores|m] eqn:Es.
    + destruct (score_rows_Ok _ _ Es) as [Hlen Hall].
      split; [exact (score_rows_valid _ _ Es)|].
      exists (slice0 (sort_scores scores) (Fin k)). split; [reflexivity|].
      pose proof (slice0_length (sort_scores scores) k) as [Hge Hlt].
      rewrite sort_scores_length, Hlen in Hge, Hlt.
      split; [|split; [|split; [|split]]].
      * rewrite Forall_forall in *. intros p Hp.
        apply Hall, sort_scores_In. eapply slice0_In, Hp.
      * intros Hk. rewrite length_map. exact (Hge Hk).
      * intros Hk. rewrite length_map. exact (Hlt Hk).
      * unfold slice0. apply Binary64Order.firstn_Sorted.
        apply sort_scores_ordered.
      * intros Hnan. unfold slice0. apply Binary64Order.firstn_Sorted.
        apply Binary64Order.sort_scores_non_increasing.
        eapply Forall_impl, Hall. intros p (v & Hin & ->).
        now apply (Hnan (fst p)).
    + eapply score_rows_Throw, Es.
Qed.

Lemma semanticSearch_top_k_witness :
  exists entries,
    semanticSearch db3 "u" [1%float; 0%float] (Fin 2) = Ok (map fst entries)
    /\ List.length entries = 2
    /\ Sorted not_below entries.
Proof.
  pose proof (semanticSearch_top_k db3 "u" [1%float; 0%float] 2) as Htop.
  destruct (semanticSearch db3 "u" [1%float; 0%float] (Fin 2)) as [ids|m] eqn:Es;
    [|vm_compute in Es; discriminate Es].
  destruct Htop as (_ & entries & -> & _ & Hlen & _ & _ & Hsorted).
  exists entries. split; [reflexivity|]. split.
  - rewrite <- (length_map fst). rewrite Hlen by lia. reflexivity.
  - apply Hsorted. intros i v Hin. vm_compute in Hin.
    destruct Hin as [E|[E|[E|[]]]]; injection E as _ <-;
      vm_compute; reflexivity.
Defined.

(** ** The hint step *)

(** C8 (as stated, refuted).  The question below is written in lower case
    (so [toLowerCase] leaves it as it is) and holds none of the keywords
    of the quick fallback.  On it [detectHintCategory] answers "Beams"
    or "Columns" according to what the inference service replies, and
    nothing when the catalog's category list is empty: its output depends
    on both. *)
Lemma hint_depends_on_reply_and_catalog :
  keyword_hint (fun s => s) "có bao nhiêu dầm kết cấu?" = None
  /\ fst (detectHintCategory "có bao nhiêu dầm kết cấu?"
            ["Beams"; "Columns"]%string (Replied (hint_of "Beams" "high")))
     = JStr "Beams"
  /\ fst (detectHintCategory "có bao nhiêu dầm kết cấu?"
            ["Beams"; "Columns"]%string (Replied (hint_of "Columns" "high")))
     = JStr "Columns"
  /\ fst (detectHintCategory "có bao nhiêu dầm kết cấu?" []
            (Replied (hint_of "Beams" "high"))) = JNull.
Proof. repeat split; vm_compute; reflexivity. Qed.

Section HintFacts.
Context {T : Type} `{Arith T}.
Variable toLowerCase : string -> string.

(** C8 (amended).  For a question that the keyword rules of the quick
    fallback do not match, the hint step is a function of the question,
    of the catalog's category list and of the reply to one inference
    call, and of nothing else (it never reads the dataset).  With an empty
    question or category list it returns none without calling the service; otherwise
    it calls the service once, and returns the replied category when that
    is truthy and the confidence is not "low", none in every other case (a
    failed call included).  Questions that a keyword rule matches are
    left out: for them the code and the rules it was written to keep do
    not agree. *)
Theorem detectHintCategory_characterised (question : string)
    (cats : list string) (r : reply (hint_json (T:=T))) :
  keyword_hint toLowerCase question = None ->
  (snd (detectHintCategory question cats r)
   = if (nonempty question && negb (Nat.eqb (List.length cats) 0))%bool
     then [CallHint] else [])
  /\ (fst (detectHintCategory question cats r) = JNull
      \/ (question <> EmptyString /\ cats <> []
          /\ exists result,
               r = Replied result
               /\ fst (detectHintCategory question cats r)
                  = hint_category result
               /\ truthy (hint_category result) = true
               /\ is_str (hint_confidence result) "low" = false))
  /\ (forall result,
        question <> EmptyString -> cats <> [] -> r = Replied result ->
        truthy (hint_category result) = true ->
        is_str (hint_confidence result) "low" = false ->
        fst (detectHintCategory question cats r) = hint_category result).
Proof.
  intros _. unfold detectHintCategory.
  destruct question as [|c q]; simpl.
  { repeat split; [now left|]. intros ? Hq. now destruct Hq. }
  destruct cats as [|c0 cats]; simpl.
  { repeat split; [now left|]. intros ? _ Hc. now destruct Hc. }
  destruct r as [result| |msg]; simpl.
  - destruct (truthy (hint_category result)) eqn:Et; simpl.
    + destruct (is_str (hint_confidence result) "low") eqn:Ec; simpl.
      * repeat split; [now left|]. intros res _ _ E. injection E as <-.
        intros _ Hlow. congruence.
      * repeat split.
        -- right. repeat split; try easy. exists result. now repeat split.
        -- intros res _ _ E. now injection E as <-.
    + repeat split; [now left|]. intros res _ _ E. injection E as <-.
      congruence.
  - repeat split; [now left|]. intros; discriminate.
  - repeat split; [now left|]. intros; discriminate.
Qed.

End HintFacts.

Lemma detectHintCategory_characterised_witness :
  snd (detectHintCategory "có bao nhiêu dầm kết cấu?"
         ["Beams"; "Columns"]%string (Replied (hint_of "Beams" "medium")))
  = [CallHint]
  /\ fst (detectHintCategory "có bao nhiêu dầm kết cấu?"
            ["Beams"; "Columns"]%string (Replied (hint_of "Beams" "medium")))
     = JStr "Beams".
Proof.
  destruct (@detectHintCategory_characterised float _ (fun s => s)
              "có bao nhiêu dầm kết cấu?" ["Beams"; "Columns"]%string
              (Replied (hint_of "Beams" "medium")))
    as (Hcalls & _ & Hhint).
  - vm_compute. reflexivity.
  - split; [exact Hcalls|].
    apply (Hhint (hint_of "Beams" "medium"));
      try reflexivity; discriminate.
Defined.

(** ** Planning *)

Section PlanningFacts.
Context {T : Type} `{Arith T}.
Variable Number_toString : T -> string.

Local Abbreviation to_Str := (to_String Number_toString).

Lemma includes_In (l : list string) (v : jsval T) :
  includes l v = true -> exists a, In a l /\ v = JStr a.
Proof.
  destruct v as [| |b|x|s|s]; simpl; try discriminate.
  intros Hs. apply existsb_exists in Hs as (a & Ha & E).
  apply String.eqb_eq in E. subst a. now exists s.
Qed.

(** The hint is only taken over when the catalog lists it. *)
Lemma chooseCategory_hint (m : meta) (plan1 : intent_json (T:=T))
    (hintCategory : jsval T) :
  truthy (p1_category plan1) = false ->
  chooseCategory Number_toString m plan1 hintCategory = JNull
  \/ exists c, In c (categories m)
               /\ chooseCategory Number_toString m plan1 hintCategory = JStr c.
Proof.
  intros Hc. unfold chooseCategory. rewrite Hc. simpl.
  destruct (truthy hintCategory); simpl; [|now left].
  destruct (includes (categories m) hintCategory) eqn:E; [|now left].
  right. apply includes_In in E as (a & Ha & ->). now exists a.
Qed.

Lemma js_or_null (v : jsval T) :
  truthy (js_or v JNull) = false -> js_or v JNull = JNull.
Proof. unfold js_or. destruct (truthy v) eqn:E; congruence. Qed.

Lemma sanitize_merged (u : string) (plan1 : intent_json (T:=T))
    (plan2 : params_json (T:=T)) (cat : jsval T) :
  let p := sanitize (mergePlan u plan1 plan2 cat) in
  allowed_or_null (filterParam p) /\ allowed_or_null (targetParam p)
  /\ category p = cat.
Proof.
  unfold sanitize.
  set (p0 := mergePlan u plan1 plan2 cat).
  assert (Hf : forall q : plan,
             filterParam q = filterParam p0 ->
             allowed_or_null
               (filterParam
                  (if (truthy (filterParam q)
                       && negb (includes allowedParams (filterParam q)))%bool
                   then set_filterParam q JNull else q))).
  { intros q Hq.
    destruct (truthy (filterParam q)) eqn:Et; simpl.
    - destruct (includes allowedParams (filterParam q)) eqn:Ei; simpl.
      + right. apply includes_In in Ei as (a & Ha & E). now exists a.
      + now left.
    - left. rewrite Hq in *. now apply js_or_null. }
  set (p1 := if (truthy (filterParam p0)
                 && negb (includes allowedParams (filterParam p0)))%bool
             then set_filterParam p0 JNull else p0).
  assert (Hp1 : allowed_or_null (filterParam p1)) by (apply Hf; reflexivity).
  assert (Ht1 : targetParam p1 = targetParam p0 /\ category p1 = cat).
  { unfold p1. now destruct (_ && _)%bool. }
  destruct Ht1 as [Ht1 Hc1].
  destruct (truthy (targetParam p1)) eqn:Et; simpl.
  - destruct (includes allowedParams (targetParam p1)) eqn:Ei; simpl.
    + repeat split; [exact Hp1| |exact Hc1].
      right. apply includes_In in Ei as (a & Ha & E). now exists a.
    + repeat split; [exact Hp1|now left|exact Hc1].
  - repeat split; [exact Hp1| |exact Hc1].
    left. rewrite Ht1 in *. now apply js_or_null.
Qed.

Lemma allowed_truthy (v : jsval T) :
  includes allowedParams v = true -> truthy v = true.
Proof.
  intros Hv. apply includes_In in Hv as (a & Ha & ->).
  repeat (destruct Ha as [<-|Ha]; [reflexivity|]). destruct Ha.
Qed.

(** What "Normalize known params" makes of a proposal: the proposal
    itself when the allow-list has it, [null] otherwise. *)
Lemma normalized (v : jsval T) :
  (let w := js_or v JNull in
   if (truthy w && negb (includes allowedParams w))%bool then JNull else w)
  = if includes allowedParams v then v else JNull.
Proof.
  unfold js_or. cbv zeta.
  destruct (includes allowedParams v) eqn:Ei.
  - pose proof (allowed_truthy _ Ei) as Et.
    rewrite Et. cbv iota. rewrite Et, Ei. reflexivity.
  - destruct (truthy v) eqn:Et; cbv iota; [rewrite Et, Ei|]; reflexivity.
Qed.

Lemma sanitize_proposals (u : string) (plan1 : intent_json (T:=T))
    (plan2 : params_json (T:=T)) (cat : jsval T) :
  let p := sanitize (mergePlan u plan1 plan2 cat) in
  filterParam p
  = (if includes allowedParams (p2_filterParam plan2)
     then p2_filterParam plan2 else JNull)
  /\ targetParam p
     = (if includes allowedParams (p2_targetParam plan2)
        then p2_targetParam plan2 else JNull).
Proof.
  cbv zeta. rewrite <- (normalized (p2_filterParam plan2)).
  rewrite <- (normalized (p2_targetParam plan2)).
  unfold sanitize, mergePlan. cbn [filterParam targetParam].
  cbv zeta.
  destruct (truthy (js_or (p2_filterParam plan2) JNull)
            && negb (includes allowedParams (js_or (p2_filterParam plan2) JNull)))%bool;
    cbn [set_filterParam filterParam targetParam];
    destruct (truthy (js_or (p2_targetParam plan2) JNull)
              && negb (includes allowedParams (js_or (p2_targetParam plan2) JNull)))%bool;
    split; reflexivity.
Qed.

(** The value step touches [filterValue] and nothing else. *)
Lemma valueStep_frame (db : database T) (p : plan) (r : reply value_json) :
  exists v, fst (valueStep Number_toString db p r) = set_filterValue p v.
Proof.
  assert (E : set_filterValue p (filterValue p) = p) by now destruct p.
  assert (K : exists v, p = set_filterValue p v) by (now exists (filterValue p)).
  unfold valueStep.
  destruct (truthy (filterParam p)); simpl; [|exact K].
  destruct (candidates_of Number_toString db p) as [cands|]; [|exact K].
  destruct (Nat.eqb (List.length cands) 0); [exact K|].
  destruct (_ && _)%bool; [|exact K].
  destruct r as [vp| |]; try exact K.
  destruct (vp_value vp) eqn:Ev; try exact K;
    match goal with
    | |- context [hits ?c ?s] =>
        destruct (hits c s); [eexists; reflexivity|exact K]
    end.
Qed.

End PlanningFacts.

Section QueryFacts.
Context {T : Type} `{Arith T}.
Variable Number_toString : T -> string.

Local Abbreviation to_Str := (to_String Number_toString).

(** What a request that reaches "Final plan" went through. *)
Lemma planning_Planned (db : database T) (u question : string)
    (sv : services) (m : meta) (p : plan) (calls : list call) :
  planning Number_toString db u question sv = (Planned m p, calls) ->
  m = getMeta Number_toString db u
  /\ exists plan1 plan2 hint v,
       intent_reply sv = Replied plan1
       /\ params_reply sv = Replied plan2
       /\ hint = fst (detectHintCategory question (categories m) (hint_reply sv))
       /\ p = set_filterValue
                (sanitize (mergePlan u plan1 plan2
                             (chooseCategory Number_toString m plan1 hint))) v.
Proof.
  unfold planning.
  destruct (nonempty u); cbn [negb]; cbv iota; [|discriminate].
  destruct (nonempty question); cbn [negb]; cbv iota zeta; [|discriminate].
  destruct (detectHintCategory question
              (categories (getMeta Number_toString db u)) (hint_reply sv))
    as [hint c0] eqn:Eh.
  destruct (intent_reply sv) as [plan1| |e]; try discriminate.
  destruct (is_str (p1_intent plan1) "general"); cbv iota; [discriminate|].
  destruct (params_reply sv) as [plan2| |e]; try discriminate.
  match goal with
  | |- context [valueStep _ _ ?p0 ?r] =>
      destruct (valueStep_frame Number_toString db p0 r) as [v Ev];
      destruct (valueStep Number_toString db p0 r) as [p' cv]
  end.
  simpl in Ev. intros E. injection E as <- <- _.
  split; [reflexivity|].
  exists plan1, plan2, hint, v.
  split; [reflexivity|]. split; [reflexivity|].
  split; [now rewrite Eh|exact Ev].
Qed.

(** C2.  In every plan that reaches query execution, [filterParam] and
    [targetParam] are what the Parameter Inference Step proposed when the
    proposal is one of the ten names of the allow-list, and [null] for any
    other proposal (a name off the list, a value that is no string, no
    proposal).  So both are [null] or an allow-listed name, the category
    field is the fixed [component_type], and every clause of the assembled
    [WHERE] is the fixed partition-key clause [urn = ?], the clause over
    the ids of semantic retrieval, the equality on the category field, or
    an equality on an allow-listed attribute.  The column that the
    statement of the value step reads and the filter clause compares is
    the text of a truthy [filterParam], and the field that a [distinct] or
    [group_count] statement selects and groups by is the text of a truthy
    [targetParam]: allow-listed names as well. *)
Theorem only_allowed_attributes (db : database T) (u question : string)
    (sv : services) (m : meta) (p : plan) (calls : list call) :
  planning Number_toString db u question sv = (Planned m p, calls) ->
  (exists plan2,
     params_reply sv = Replied plan2
     /\ filterParam p
        = (if includes allowedParams (p2_filterParam plan2)
           then p2_filterParam plan2 else JNull)
     /\ targetParam p
        = (if includes allowedParams (p2_targetParam plan2)
           then p2_targetParam plan2 else JNull))
  /\ allowed_or_null (filterParam p)
  /\ allowed_or_null (targetParam p)
  /\ (truthy (filterParam p) = true ->
      In (to_String Number_toString (filterParam p)) allowedParams)
  /\ (truthy (targetParam p) = true ->
      In (to_String Number_toString (targetParam p)) allowedParams)
  /\ categoryField m = "component_type"%string
  /\ forall ids c,
       In c (whereClauses Number_toString m p ids) ->
       c = "urn = ?"%string
       \/ (exists l, ids = Some l
                     /\ c = ("id IN (" ++ String.concat "," (map string_of_Z l)
                             ++ ")")%string)
       \/ c = "component_type = ?"%string
       \/ exists a, In a allowedParams /\ c = (a ++ " = ?")%string.
Proof.
  intros Hp. apply planning_Planned in Hp
    as (-> & plan1 & plan2 & hint & v & _ & Hplan2 & _ & ->).
  destruct (sanitize_merged u plan1 plan2
              (chooseCategory Number_toString
                 (getMeta Number_toString db u) plan1 hint))
    as (Hf & Ht & _).
  destruct (sanitize_proposals u plan1 plan2
              (chooseCategory Number_toString
                 (getMeta Number_toString db u) plan1 hint))
    as (Hfp & Htp).
  set (p0 := sanitize _) in *.
  split.
  { exists plan2. split; [exact Hplan2|]. split; [exact Hfp|exact Htp]. }
  split; [exact Hf|]. split; [exact Ht|].
  split.
  { change (filterParam (set_filterValue p0 v)) with (filterParam p0).
    destruct Hf as [E|(a & Ha & E)]; rewrite E; [discriminate|].
    intros _. exact Ha. }
  split.
  { change (targetParam (set_filterValue p0 v)) with (targetParam p0).
    destruct Ht as [E|(a & Ha & E)]; rewrite E; [discriminate|].
    intros _. exact Ha. }
  split; [reflexivity|].
  intros ids c Hc. unfold whereClauses in Hc.
  apply in_app_or in Hc as [[<-|[]]|Hc]; [now left|].
  apply in_app_or in Hc as [Hc|Hc].
  { destruct ids as [[|i l]|]; simpl in Hc; try easy.
    destruct Hc as [<-|[]]. right; left. now exists (i :: l). }
  apply in_app_or in Hc as [Hc|Hc].
  { destruct (query_category _ _); simpl in Hc; [|easy].
    destruct Hc as [<-|[]]. right; right; now left. }
  destruct (has_filter Number_toString (set_filterValue p0 v)) eqn:Ef;
    simpl in Hc; [|easy].
  destruct Hc as [<-|[]]. right; right; right.
  unfold has_filter in Ef. apply andb_prop in Ef as [Ef _].
  change (filterParam (set_filterValue p0 v)) with (filterParam p0) in *.
  destruct Hf as [E|(a & Ha & E)]; rewrite E in *; [discriminate Ef|].
  now exists a.
Qed.

End QueryFacts.

Lemma only_allowed_attributes_witness :
  exists m p calls,
    planning toString0 db_doors "u" "Which rooms have doors?" injection_services
    = (Planned m p, calls)
    /\ ((exists plan2,
           params_reply injection_services = Replied plan2
           /\ filterParam p
              = (if includes allowedParams (p2_filterParam plan2)
                 then p2_filterParam plan2 else JNull)
           /\ targetParam p
              = (if includes allowedParams (p2_targetParam plan2)
                 then p2_targetParam plan2 else JNull))
        /\ allowed_or_null (filterParam p)
        /\ allowed_or_null (targetParam p)
        /\ (truthy (filterParam p) = true ->
            In (to_String toString0 (filterParam p)) allowedParams)
        /\ (truthy (targetParam p) = true ->
            In (to_String toString0 (targetParam p)) allowedParams)
        /\ categoryField m = "component_type"%string
        /\ forall ids c,
             In c (whereClauses toString0 m p ids) ->
             c = "urn = ?"%string
             \/ (exists l, ids = Some l
                           /\ c = ("id IN (" ++ String.concat "," (map string_of_Z l)
                                   ++ ")")%string)
             \/ c = "component_type = ?"%string
             \/ exists a, In a allowedParams /\ c = (a ++ " = ?")%string).
Proof.
  eexists _, _, _.
  assert (E : planning toString0 db_doors "u" "Which rooms have doors?"
                injection_services = (Planned _ _, _))
    by (vm_compute; reflexivity).
  split; [exact E|].
  exact (only_allowed_attributes toString0 db_doors "u"
           "Which rooms have doors?" injection_services E).
Defined.

(** C1 (the code at the failing input).  The catalog of partition "u"
    lists Doors and Walls; the planner replies the category "Furniture".
    Nothing checks that reply against the catalog (only the hint is
    checked, see [chooseCategory_hint]): the plan carries "Furniture", and
    the count statement is run with the clause [component_type = ?] bound
    to it. *)
Theorem unlisted_category_reaches_query :
  exists p calls,
    planning toString0 db_doors "u" "How many chairs?" unlisted_category_services
    = (Planned (getMeta toString0 db_doors "u") p, calls)
    /\ categories (getMeta toString0 db_doors "u") = ["Doors"; "Walls"]%string
    /\ category p = JStr "Furniture"
    /\ whereClauses toString0 (getMeta toString0 db_doors "u") p None
       = ["urn = ?"; "component_type = ?"]%string
    /\ params toString0 p = [JStr "u"; JStr "Furniture"]
    /\ forall sqlite_all,
         fst (runQuery toString0 toNumber0 sqlite_all db_doors
                (getMeta toString0 db_doors "u") p (Throw "unavailable"))
         = match sqlite_all db_doors
                   (sql_count "urn = ? AND component_type = ?")
                   [JStr "u"; JStr "Furniture"] with
           | Ok (r :: _) => Ok (KCount (get r "count"))
           | Ok [] => Throw "TypeError: row is undefined"
           | Throw e => Throw e
           end.
Proof.
  eexists _, _.
  split; [vm_compute; reflexivity|].
  split; [vm_compute; reflexivity|].
  split; [reflexivity|].
  split; [vm_compute; reflexivity|].
  split; [vm_compute; reflexivity|].
  intros sqlite_all. reflexivity.
Qed.

(** ** The value step *)

(** *** What [LIMIT] keeps *)

Section LimitFacts.
Variable A : Type.
Variable rank : A -> Z.



Lemma insert_ranked_length (x : A) (l : list A) :
  List.length (insert_ranked rank x l) = S (List.length l).
Proof.
  induction l as [|y l IH]; simpl; [reflexivity|].
  destruct (rank y <? rank x)%Z; simpl; congruence.
Qed.

Lemma sort_ranked_length (l : list A) :
  List.length (sort_ranked rank l) = List.length l.
Proof.
  induction l as [|x l IH]; simpl; [reflexivity|].
  now rewrite insert_ranked_length, IH.
Qed.

End LimitFacts.

Section DistinctFacts.
Context {T : Type} `{Arith T}.
Variable Number_toString : T -> string.


Lemma select_distinct_limit_length (c : string)
    (col : row T -> option string) (u : string) (n : nat) (db : database T) :
  List.length (select_distinct_limit c col u n db)
  = Nat.min n (List.length (select_distinct col u db)).
Proof.
  unfold select_distinct_limit.
  now rewrite length_firstn, sort_ranked_length.
Qed.


Lemma norm_string (v : string) : norm Number_toString (JStr v) = trim v.
Proof. unfold norm, js_or. destruct v; reflexivity. Qed.


Lemma stripEmpty_length (vals : list (jsval T)) :
  List.length (stripEmpty Number_toString vals) <= List.length vals.
Proof.
  unfold stripEmpty.
  rewrite <- (length_map (norm Number_toString) vals). apply filter_length_le.
Qed.

End DistinctFacts.


Section ValueStepFacts.
Context {T : Type} `{Arith T}.
Variable Number_toString : T -> string.

Local Abbreviation to_Str := (to_String Number_toString).







End ValueStepFacts.

(** The step at work on the rooms Kitchen and Hall: a reply that names a
    candidate (up to surrounding blanks) replaces the misspelt value as it
    was replied; a reply that names no candidate, [null], or a failed call
    leave the plan as it was; a value that is a candidate already, or no
    value at all, sends no prompt. *)
Example value_step_cases :
  valueStep toString0 db_doors kitchen_plan
    (Replied {| vp_value := JStr " Kitchen" |})
  = (set_filterValue kitchen_plan (JStr " Kitchen"), [CallValue])
  /\ valueStep toString0 db_doors kitchen_plan
       (Replied {| vp_value := JStr "Pantry" |})
     = (kitchen_plan, [CallValue])
  /\ valueStep toString0 db_doors kitchen_plan RepliedNull
     = (kitchen_plan, [CallValue])
  /\ valueStep toString0 db_doors kitchen_plan (Failed "quota exceeded")
     = (kitchen_plan, [CallValue])
  /\ valueStep toString0 db_doors (set_filterValue kitchen_plan (JStr "Hall "))
       (Replied {| vp_value := JStr "Kitchen" |})
     = (set_filterValue kitchen_plan (JStr "Hall "), [])
  /\ valueStep toString0 db_doors (set_filterValue kitchen_plan JNull)
       (Replied {| vp_value := JStr "Kitchen" |})
     = (set_filterValue kitchen_plan JNull, []).
Proof. repeat split; vm_compute; reflexivity. Qed.

(** ** Query execution when semantic retrieval fails *)

Section DegradeFacts.
Context {T : Type} `{Arith T}.
Variable Number_toString : T -> string.
Variable String_toNumber : string -> T.
Variable sqlite_all :
  database T -> string -> list (jsval T) -> outcome (list (sqlrow (T:=T))).

Lemma run_task_ignores_flag (db : database T) (m : meta) (p : plan)
    (v : jsval T) (ids : option (list Z)) :
  run_task Number_toString sqlite_all db m (set_useSemanticSearch p v) ids
  = run_task Number_toString sqlite_all db m p ids.
Proof. destruct p. reflexivity. Qed.

Lemma is_str_eq (v : jsval T) (s : string) :
  is_str v s = true -> v = JStr s.
Proof.
  destruct v as [| |b|x|t|t]; simpl; try discriminate.
  intros E. apply String.eqb_eq in E. now subst t.
Qed.

(** C7.  When the embedding service throws or yields no query embedding,
    or an embedding is obtained but [semanticSearch] throws, [runQuery]
    does not fail for that reason.  The [WHERE] clause it assembles has
    the partition-key clause, the category clause and the filter clause
    and no id-membership clause; it runs the one statement of the plan's
    task on that clause, with the parameters of the plan, and builds its
    result from the answer of the store (an error of the store is passed
    on); and the result is the one it returns for the same plan with
    [useSemanticSearch] switched off, whatever the embedding service
    would have answered then. *)
Theorem semantic_failure_degrades (db : database T) (m : meta) (p : plan)
    (service service' : outcome (option (list T))) :
  (forall q,
     fst (generateEmbedding (semanticQuery p) service) = Ok (Some q) ->
     exists e,
       semanticSearch db (plan_urn p) q
         (to_integer_or_infinity String_toNumber (js_or (topK p) (num 100)))
       = Throw e) ->
  let result :=
    fst (runQuery Number_toString String_toNumber sqlite_all db m p service) in
  let wc := whereClause Number_toString m p None in
  let values := params Number_toString p in
  result
  = fst (runQuery Number_toString String_toNumber sqlite_all db m
           (set_useSemanticSearch p (JBool false)) service')
  /\ whereClauses Number_toString m p None
     = ["urn = ?"%string]
       ++ match query_category Number_toString p with
          | Some _ => [(categoryField m ++ " = ?")%string]
          | None => []
          end
       ++ (if has_filter Number_toString p
           then [(to_String Number_toString (filterParam p) ++ " = ?")%string]
           else [])
  /\ (is_str (task p) "count" = true ->
      result = match sqlite_all db (sql_count wc) values with
               | Ok (r :: _) => Ok (KCount (get r "count"))
               | Ok [] => Throw "TypeError: row is undefined"
               | Throw e => Throw e
               end)
  /\ (is_str (task p) "distinct" = true ->
      result
      = if truthy (targetParam p) then
          match sqlite_all db
                  (sql_distinct (to_String Number_toString (targetParam p)) wc)
                  (values ++ [query_limit p]) with
          | Ok rows =>
              Ok (KDistinct (targetParam p)
                    (stripEmpty Number_toString
                       (map (fun r => get r (to_String Number_toString
                                               (targetParam p))) rows)))
          | Throw e => Throw e
          end
        else Throw "distinct requires targetParam")
  /\ (is_str (task p) "group_count" = true ->
      result
      = if truthy (targetParam p) then
          match sqlite_all db
                  (sql_group_count (to_String Number_toString (targetParam p)) wc)
                  (values ++ [query_limit p]) with
          | Ok rows => Ok (KGroupCount (targetParam p) rows)
          | Throw e => Throw e
          end
        else Throw "group_count requires targetParam")
  /\ (is_str (task p) "sum_area" = true ->
      result
      = if truthy (propsFlatKey p) then
          match sqlite_all db (sql_sum_area wc)
                  (JStr ("$." ++ to_String Number_toString (propsFlatKey p))
                   :: values) with
          | Ok rows =>
              Ok (KSumArea (propsFlatKey p)
                    (fst (sum_area (map (fun r => get r "area_raw") rows)))
                    (snd (sum_area (map (fun r => get r "area_raw") rows))))
          | Throw e => Throw e
          end
        else Throw "sum_area requires propsFlatKey")
  /\ (is_str (task p) "count" = false ->
      is_str (task p) "distinct" = false ->
      is_str (task p) "group_count" = false ->
      is_str (task p) "sum_area" = false ->
      result = match sqlite_all db (sql_list wc) (values ++ [query_limit p]) with
               | Ok rows => Ok (KList (map nest rows))
               | Throw e => Throw e
               end).
Proof.
  intros Hfail result wc values.
  assert (Hoff : fst (runQuery Number_toString String_toNumber sqlite_all db m
                        (set_useSemanticSearch p (JBool false)) service')
                 = run_task Number_toString sqlite_all db m p None).
  { unfold runQuery, candidateIds. cbn [useSemanticSearch set_useSemanticSearch
      truthy andb fst]. apply run_task_ignores_flag. }
  rewrite Hoff.
  assert (Hon : result = run_task Number_toString sqlite_all db m p None).
  { unfold result, runQuery, candidateIds.
    destruct (truthy (useSemanticSearch p) && truthy (semanticQuery p))%bool;
      [|reflexivity].
    destruct (generateEmbedding (semanticQuery p) service) as [[[q|]|e] calls]
      eqn:Eg; try reflexivity.
    destruct (Hfail q eq_refl) as [e He]. rewrite He. reflexivity. }
  split; [exact Hon|]. split; [reflexivity|].
  rewrite Hon. unfold run_task. fold wc. fold values.
  split; [|split; [|split; [|split]]].
  - intros Ht. rewrite Ht. reflexivity.
  - intros Ht. apply is_str_eq in Ht. rewrite Ht. cbn [is_str].
    change (String.eqb "distinct" "count") with false.
    change (String.eqb "distinct" "distinct") with true. cbv iota.
    destruct (truthy (targetParam p)); reflexivity.
  - intros Ht. apply is_str_eq in Ht. rewrite Ht. cbn [is_str].
    change (String.eqb "group_count" "count") with false.
    change (String.eqb "group_count" "distinct") with false.
    change (String.eqb "group_count" "group_count") with true. cbv iota.
    destruct (truthy (targetParam p)); reflexivity.
  - intros Ht. apply is_str_eq in Ht. rewrite Ht. cbn [is_str].
    change (String.eqb "sum_area" "count") with false.
    change (String.eqb "sum_area" "distinct") with false.
    change (String.eqb "sum_area" "group_count") with false.
    change (String.eqb "sum_area" "sum_area") with true. cbv iota.
    destruct (truthy (propsFlatKey p)); cbn [negb]; cbv iota; [|reflexivity].
    destruct (sqlite_all db (sql_sum_area wc) _) as [rows|e]; [|reflexivity].
    destruct (sum_area _) as [total n]. reflexivity.
  - intros H1 H2 H3 H4. rewrite H1, H2, H3, H4. reflexivity.
Qed.

End DegradeFacts.

Lemma semantic_failure_degrades_witness :
  fst (runQuery toString0 toNumber0 count_engine db3 no_meta semantic_plan
         (Throw "quota exceeded"))
  = Ok (KCount (JNum 15%float))
  /\ whereClauses toString0 no_meta semantic_plan None
     = ["urn = ?"; "component_type = ?"]%string.
Proof.
  destruct (@semantic_failure_degrades float _ toString0 toNumber0 count_engine
              db3 no_meta semantic_plan (Throw "quota exceeded") (Ok None))
    as (_ & Hwhere & Hcount & _).
  - intros q Hq. vm_compute in Hq. discriminate Hq.
  - split; [rewrite Hcount by reflexivity; reflexivity|].
    rewrite Hwhere. reflexivity.
Defined.

(** ** Sanity checks of the binary64 instance *)

Example of_decimal_exact :
  Float64.of_decimal false 1205 1 = 120.5%float
  /\ Float64.of_decimal false 8025 2 = 80.25%float
  /\ Float64.of_decimal true 25 1 = (-2.5)%float.
Proof. repeat split; vm_compute; reflexivity. Qed.

(** [parseFloat("0.1")] is the double nearest to one tenth, and a literal
    with more digits than a double holds is rounded to nearest-even. *)
Example of_decimal_rounds :
  Float64.of_decimal false 1 1 = 0x1.999999999999ap-4%float
  /\ Float64.of_decimal false 9007199254740993 0 = 9007199254740992%float
  /\ Float64.of_decimal false 9007199254740995 0 = 9007199254740996%float.
Proof. repeat split; vm_compute; reflexivity. Qed.

Example to_integer_truncates :
  Float64.to_integer 2.5%float = Fin 2
  /\ Float64.to_integer (-2.5)%float = Fin (-2)
  /\ Float64.to_integer 100%float = Fin 100
  /\ Float64.to_integer infinity = PosInf.
Proof. repeat split; vm_compute; reflexivity. Qed.

Example trim_examples :
  trim "  Level 2 " = "Level 2"%string
  /\ trim (str_of_bytes [194; 160; 9; 65; 32; 66; 226; 128; 168; 10]) = "A B"%string
  /\ trim "   " = EmptyString.
Proof. repeat split; vm_compute; reflexivity. Qed.

(** The end-to-end scenario of the specification: "Có bao nhiêu cửa?" on a
    catalog that lists Doors, with a store that counts 15 matching rows. *)
Example how_many_doors :
  handler toString0 toNumber0 count_engine db_doors "u" "Có bao nhiêu cửa?"
    {| hint_reply := Replied (hint_of "Doors" "high");
       intent_reply := Replied (intent_of "count" JNull);
       general_text := Ok ""%string;
       params_reply := Replied (params_of JUndefined JUndefined JUndefined);
       value_reply := RepliedNull;
       embedding_service := Throw "unavailable";
       answer_text := Ok "Có 15 cửa."%string |}
  = (AnswerBim "Có 15 cửa." (KCount (JNum 15%float)),
     [CallHint; CallIntent; CallParameters; CallAnswer]).
Proof. vm_compute. reflexivity. Qed.
(** * Properties of the code around the pipeline *)

(** ** [services/gemini.js] *)

Section FenceFacts.
Local Open Scope string_scope.

Lemma drop_suffix_app (p s : string) : drop_suffix p (s ++ p) = Some s.
Proof.
  unfold drop_suffix.
  now rewrite rev_string_append, drop_prefix_app, rev_string_involutive.
Qed.

Lemma strip_open_bare (s : string) : bare s = true -> strip_open s = s.
Proof.
  destruct s as [|c s]; [discriminate|]. simpl. rewrite andb_true_iff.
  intros [Hc _]. apply plain_printable in Hc. destruct Hc as (H1 & H2 & H3).
  unfold strip_open. rewrite trimStart_printable by assumption.
  cbn [drop_prefix]. destruct (Ascii.eqb "`" c) eqn:E; [|reflexivity].
  apply Ascii.eqb_eq in E. subst c. discriminate H3.
Qed.

Lemma strip_close_bare (s : string) : bare s = true -> strip_close s = s.
Proof.
  destruct s as [|c s]; [discriminate|]. simpl. rewrite andb_true_iff.
  intros [_ Hd]. apply plain_printable in Hd. destruct Hd as (H1 & H2 & H3).
  destruct (last_char_split s c) as (init & ->).
  unfold strip_close. rewrite trimEnd_printable by assumption.
  unfold drop_suffix. rewrite rev_string_append.
  change (rev_string "" "```") with "```".
  change (rev_string "" (String (last_char c s) "") ++ rev_string "" init)
    with (String (last_char c s) (rev_string "" init)).
  cbn [drop_prefix].
  destruct (Ascii.eqb "`" (last_char c s)) eqn:E; [|reflexivity].
  apply Ascii.eqb_eq in E. rewrite <- E in H3. discriminate H3.
Qed.

Lemma trimStart_bare (s r : string) : bare s = true -> trimStart (s ++ r) = s ++ r.
Proof.
  destruct s as [|c s]; [discriminate|]. simpl. rewrite andb_true_iff.
  intros [Hc _]. apply plain_printable in Hc.
  apply trimStart_printable; tauto.
Qed.

Lemma trimEnd_bare (s : string) : bare s = true -> trimEnd s = s.
Proof.
  destruct s as [|c s]; [discriminate|]. simpl. rewrite andb_true_iff.
  intros [_ Hd]. apply plain_printable in Hd.
  destruct (last_char_split s c) as (init & ->).
  apply trimEnd_printable; tauto.
Qed.

(** What is left of a fenced text once the opening fence is gone. *)
Lemma strip_close_fenced (body : string) :
  bare body = true ->
  trim (strip_close (body ++ nl ++ "```")) = body.
Proof.
  intros Hb. unfold strip_close.
  replace (body ++ nl ++ "```") with ((body ++ nl ++ "``") ++ "`")
    by (now rewrite !append_assoc).
  rewrite trimEnd_printable by reflexivity.
  replace ((body ++ nl ++ "``") ++ "`") with ((body ++ nl) ++ "```")
    by (now rewrite !append_assoc).
  rewrite drop_suffix_app, trimEnd_nl, trimEnd_bare by assumption.
  now apply trim_bare.
Qed.

Lemma strip_open_tagged (rest : string) :
  strip_open ("```json" ++ nl ++ rest) = trimStart rest.
Proof.
  unfold strip_open.
  change ("```json" ++ nl ++ rest) with (String "`" ("``json" ++ nl ++ rest)).
  rewrite trimStart_printable by reflexivity. reflexivity.
Qed.

Lemma strip_open_untagged (rest : string) :
  strip_open ("```" ++ nl ++ rest) = trimStart rest.
Proof.
  unfold strip_open.
  change ("```" ++ nl ++ rest) with (String "`" ("``" ++ nl ++ rest)).
  rewrite trimStart_printable by reflexivity. reflexivity.
Qed.

(** X1.  A reply wrapped in a Markdown code fence, with or without the
    language tag, is cleaned to the document it wraps; a reply without
    fence is left as it is.  [body] is any text that starts and ends with
    a printable ASCII character other than the backquote, as a JSON
    document does. *)
Theorem stripCodeFences_unwraps (body : string) :
  bare body = true ->
  stripCodeFences ("```json" ++ nl ++ body ++ nl ++ "```") = body
  /\ stripCodeFences ("```" ++ nl ++ body ++ nl ++ "```") = body
  /\ stripCodeFences body = body.
Proof.
  intros Hb. repeat split.
  - unfold stripCodeFences.
    change (nonempty ("```json" ++ nl ++ body ++ nl ++ "```")) with true.
    cbv iota.
    rewrite strip_open_tagged, trimStart_bare by assumption.
    now apply strip_close_fenced.
  - unfold stripCodeFences.
    change (nonempty ("```" ++ nl ++ body ++ nl ++ "```")) with true.
    cbv iota.
    rewrite strip_open_untagged, trimStart_bare by assumption.
    now apply strip_close_fenced.
  - unfold stripCodeFences.
    destruct body as [|c s]; [discriminate|]. cbn [nonempty].
    now rewrite strip_open_bare, strip_close_bare, trim_bare.
Qed.

Lemma stripCodeFences_unwraps_witness :
  bare "[1, 2]" = true
  /\ stripCodeFences ("```json" ++ nl ++ "[1, 2]" ++ nl ++ "```") = "[1, 2]".
Proof.
  split; [reflexivity|].
  exact (proj1 (@stripCodeFences_unwraps "[1, 2]" eq_refl)).
Defined.

End FenceFacts.

Section RetryFacts.
Variable A : Type.
Variable JSON_parse : string -> outcome A.
Variable geminiText : nat -> outcome string.

Local Abbreviation try_once := (attempt JSON_parse geminiText).

Lemma geminiJson_loop_spec (n : nat) : forall i lastErr,
  (forall j, j < i -> exists e, try_once j = Throw e) ->
  (match lastErr with
   | Some e => 0 < i /\ try_once (i - 1) = Throw e
   | None => i = 0
   end) ->
  match geminiJson_loop JSON_parse geminiText n i lastErr with
  | (Returned a, requests) =>
      i < requests <= i + n /\ try_once (requests - 1) = Ok a
      /\ forall j, j < requests - 1 -> exists e, try_once j = Throw e
  | (Raised (Some e), requests) =>
      requests = i + n /\ 0 < requests /\ try_once (requests - 1) = Throw e
      /\ forall j, j < requests -> exists e', try_once j = Throw e'
  | (Raised None, requests) => requests = 0 /\ i + n = 0
  end.
Proof.
  induction n as [|n IH]; intros i lastErr Hbefore Hlast; simpl.
  - destruct lastErr as [e|].
    + destruct Hlast as [Hi He]. repeat split; try lia; assumption.
    + split; lia.
  - destruct (try_once i) as [a|e] eqn:E.
    + repeat split; try lia.
      * now replace (S i - 1) with i by lia.
      * intros j Hj. apply Hbefore. lia.
    + specialize (IH (S i) (Some e)).
      assert (Hb : forall j, j < S i -> exists e', try_once j = Throw e').
      { intros j Hj. destruct (Nat.eq_dec j i) as [->|Hne]; [now exists e|].
        apply Hbefore. lia. }
      assert (Hl : 0 < S i /\ try_once (S i - 1) = Throw e).
      { split; [lia|]. now replace (S i - 1) with i by lia. }
      specialize (IH Hb Hl).
      destruct (geminiJson_loop JSON_parse geminiText n (S i) (Some e))
        as [[a|[e'|]] requests].
      * destruct IH as (H1 & H2 & H3). repeat split; try lia; assumption.
      * destruct IH as (H1 & H2 & H3 & H4). repeat split; try lia; assumption.
      * lia.
Qed.

(** X2.  [geminiJson] asks again only after a failure, at most
    [maxRetries + 1] times in all (three times when the option is not
    given).  It returns what the first request that yields a parsable
    text parses to, and makes no request after it.  When every request
    fails it throws the error of the last one; when [maxRetries] is
    negative it makes no request at all and throws [undefined]. *)
Theorem geminiJson_retries (maxRetries : option Z) :
  let n := Z.to_nat (match maxRetries with Some z => z | None => 2 end + 1) in
  match geminiJson JSON_parse geminiText maxRetries with
  | (Returned a, requests) =>
      1 <= requests <= n /\ try_once (requests - 1) = Ok a
      /\ forall j, j < requests - 1 -> exists e, try_once j = Throw e
  | (Raised (Some e), requests) =>
      requests = n /\ 0 < n /\ try_once (n - 1) = Throw e
      /\ forall j, j < n -> exists e', try_once j = Throw e'
  | (Raised None, requests) => requests = 0 /\ n = 0
  end.
Proof.
  intros n. unfold geminiJson. fold n.
  pose proof (@geminiJson_loop_spec n 0 None) as Hspec.
  assert (H0 : forall j, j < 0 -> exists e, try_once j = Throw e) by (intros j Hj; lia).
  specialize (Hspec H0 eq_refl).
  destruct (geminiJson_loop JSON_parse geminiText n 0 None) as [[a|[e|]] requests].
  - destruct Hspec as (H1 & H2 & H3). repeat split; try lia; assumption.
  - destruct Hspec as (H1 & H2 & H3 & H4). subst requests.
    repeat split; try lia; assumption.
  - exact Hspec.
Qed.

End RetryFacts.

(** ** [services/embeddings.js] *)

Section SliceFacts.
Variable A : Type.

Lemma slice_In (l : list A) (i j : nat) (x : A) : In x (slice l i j) -> In x l.
Proof.
  unfold slice. intros Hin. apply firstn_In in Hin.
  revert l Hin. induction i as [|i IH]; intros l Hin; [exact Hin|].
  destruct l as [|y l]; [exact Hin|]. right. now apply IH.
Qed.

Lemma slice_length (l : list A) (i n : nat) :
  List.length (slice l i (i + n)) = Nat.min n (List.length l - i).
Proof.
  unfold slice. rewrite length_firstn, length_skipn. f_equal. lia.
Qed.

(** The rest of an array from [i] on is the next [n] elements and the
    rest from [i + n] on. *)
Lemma skipn_slice (l : list A) (i n : nat) :
  skipn i l = slice l i (i + n) ++ skipn (i + n) l.
Proof.
  unfold slice. replace (i + n - i) with n by lia.
  rewrite Nat.add_comm, <- skipn_skipn. symmetry. apply firstn_skipn.
Qed.

End SliceFacts.

Section StoreFacts.
Variable A : Type.

Lemma assign_length (arr : list (option A)) (idx : nat) (v : option A) :
  idx < List.length arr -> List.length (assign arr idx v) = List.length arr.
Proof.
  intros Hidx. unfold assign.
  apply Nat.ltb_lt in Hidx as E. rewrite E.
  rewrite length_app, length_firstn. cbn [List.length]. rewrite length_skipn. lia.
Qed.

Lemma assign_other (arr : list (option A)) (idx j : nat) (v : option A) :
  idx < List.length arr -> j <> idx ->
  nth_error (assign arr idx v) j = nth_error arr j.
Proof.
  intros Hidx Hj. unfold assign.
  apply Nat.ltb_lt in Hidx as E. rewrite E.
  rewrite <- (firstn_skipn idx arr) at 3.
  destruct (Nat.lt_ge_cases j idx) as [Hlt|Hge].
  - rewrite !nth_error_app1; rewrite ?length_firstn; try lia. reflexivity.
  - rewrite !nth_error_app2; rewrite ?length_firstn; try lia.
    replace (Nat.min idx (List.length arr)) with idx by lia.
    destruct (j - idx) as [|k] eqn:Ek; [lia|].
    destruct (skipn idx arr) as [|y rest] eqn:Es.
    + apply (f_equal (@List.length _)) in Es. rewrite length_skipn in Es.
      simpl in Es. lia.
    + assert (Er : skipn (S idx) arr = rest).
      { change (S idx) with (1 + idx). now rewrite <- skipn_skipn, Es. }
      rewrite Er. reflexivity.
Qed.

(** Writing at the first free position of a prefix. *)
Lemma assign_here (pre rest : list (option A)) (old v : option A) :
  assign (pre ++ old :: rest) (List.length pre) v = pre ++ v :: rest.
Proof.
  unfold assign.
  assert (E : (List.length pre <? List.length (pre ++ old :: rest)) = true).
  { apply Nat.ltb_lt. rewrite length_app. simpl. lia. }
  rewrite E.
  assert (E1 : firstn (List.length pre) (pre ++ old :: rest) = pre).
  { rewrite firstn_app, Nat.sub_diag, firstn_all. cbn [firstn]. apply app_nil_r. }
  assert (E2 : skipn (S (List.length pre)) (pre ++ old :: rest) = rest).
  { replace (S (List.length pre)) with (List.length (pre ++ [old]))
      by (rewrite length_app; simpl; lia).
    replace (pre ++ old :: rest) with ((pre ++ [old]) ++ rest)
      by (now rewrite <- app_assoc).
    now rewrite skipn_app, skipn_all, Nat.sub_diag. }
  now rewrite E1, E2.
Qed.

End StoreFacts.

Section EmbeddingFacts.
Context {T : Type}.
Variable OPENAI_API_KEY : option string.
Variable create : nat -> list string -> outcome (list (option (list T))).

Local Abbreviation vectors := (list (option (list T))).

Lemma store_batch_length (data : vectors) : forall idxs (all : vectors),
  Forall (fun i => i < List.length all) idxs ->
  List.length (store_batch data idxs all) = List.length all.
Proof.
  induction data as [|item data IH]; intros idxs all Hidx; [reflexivity|].
  destruct idxs as [|idx idxs]; [reflexivity|]. simpl.
  inversion Hidx as [|? ? Hi Hrest]; subst.
  rewrite IH; rewrite assign_length by assumption; [reflexivity|assumption].
Qed.

Lemma store_batch_other (data : vectors) : forall idxs (all : vectors) j,
  Forall (fun i => i < List.length all) idxs -> ~ In j idxs ->
  nth_error (store_batch data idxs all) j = nth_error all j.
Proof.
  induction data as [|item data IH]; intros idxs all j Hidx Hj; [reflexivity|].
  destruct idxs as [|idx idxs]; [reflexivity|]. simpl.
  inversion Hidx as [|? ? Hi Hrest]; subst.
  rewrite IH.
  - apply assign_other; [assumption|]. intros ->. apply Hj. now left.
  - now rewrite assign_length.
  - intros Hin. apply Hj. now right.
Qed.

Lemma store_batch_app (d1 d2 : vectors) : forall i1 i2 (all : vectors),
  List.length d1 = List.length i1 ->
  store_batch (d1 ++ d2) (i1 ++ i2) all
  = store_batch d2 i2 (store_batch d1 i1 all).
Proof.
  induction d1 as [|x d1 IH]; intros i1 i2 all Hlen.
  - destruct i1; [reflexivity|discriminate].
  - destruct i1 as [|i i1]; [discriminate|]. simpl. apply IH.
    simpl in Hlen. congruence.
Qed.

Lemma collect_valid_length (texts : list (jsval T)) : forall index,
  List.length (fst (collect_valid index texts))
  = List.length (snd (collect_valid index texts)).
Proof.
  induction texts as [|text texts IH]; intros index; simpl; [reflexivity|].
  specialize (IH (S index)).
  destruct (collect_valid (S index) texts) as [vt vi].
  destruct (valid_text text); simpl in *; congruence.
Qed.

Lemma collect_valid_In (texts : list (jsval T)) : forall index idx,
  In idx (snd (collect_valid index texts)) ->
  index <= idx < index + List.length texts
  /\ exists text s, nth_error texts (idx - index) = Some text
                    /\ valid_text text = Some s.
Proof.
  induction texts as [|text texts IH]; intros index idx; simpl; [tauto|].
  specialize (IH (S index) idx).
  destruct (collect_valid (S index) texts) as [vt vi].
  assert (Hrest : In idx vi ->
                  index <= idx < index + S (List.length texts)
                  /\ exists text' s, nth_error (text :: texts) (idx - index) = Some text'
                                     /\ valid_text text' = Some s).
  { intros Hin. destruct (IH Hin) as (Hb & text' & s & Hn & Hv).
    split; [lia|]. exists text', s. split; [|exact Hv].
    replace (idx - index) with (S (idx - S index)) by lia. exact Hn. }
  destruct (valid_text text) as [s|] eqn:Ev; simpl; [|exact Hrest].
  intros [<-|Hin]; [|now apply Hrest].
  split; [lia|]. exists text, s. now rewrite Nat.sub_diag.
Qed.

Lemma collect_valid_bound (texts : list (jsval T)) :
  Forall (fun i => i < List.length texts) (snd (collect_valid 0 texts)).
Proof.
  apply Forall_forall. intros idx Hin.
  apply collect_valid_In in Hin. lia.
Qed.

Lemma firstn_slice (A : Type) (l : list A) (i n : nat) :
  firstn i l ++ slice l i (i + n) = firstn (i + n) l.
Proof.
  rewrite <- (firstn_skipn i l) at 3.
  rewrite firstn_app, length_firstn.
  destruct (Nat.le_gt_cases i (List.length l)) as [Hle|Hgt].
  - replace (Nat.min i (List.length l)) with i by lia.
    rewrite firstn_firstn. replace (Nat.min (i + n) i) with i by lia.
    reflexivity.
  - rewrite (@firstn_all2 _ i l) by lia.
    rewrite (@firstn_all2 _ (i + n) l) by lia.
    unfold slice. rewrite skipn_all2 by lia. now rewrite !firstn_nil.
Qed.

Lemma batch_loop_protocol (vt : list string) (vi : list nat) (fuel : nat) :
  forall i call (all : vectors) sent,
  1 <= fuel -> List.length vt <= i + 100 * (fuel - 1) ->
  i = call * 100 -> List.length sent = call ->
  List.concat sent = firstn i vt ->
  (forall k batch, nth_error sent k = Some batch ->
     next_batch vt k batch /\ exists data, create k batch = Ok data) ->
  match batch_loop create fuel i call vt vi all sent with
  | None => False
  | Some (Ok _, sent') =>
      List.concat sent' = vt
      /\ forall k batch, nth_error sent' k = Some batch ->
           next_batch vt k batch /\ exists data, create k batch = Ok data
  | Some (Throw e, sent') =>
      exists front batch,
        sent' = front ++ [batch]
        /\ next_batch vt (List.length front) batch
        /\ create (List.length front) batch = Throw e
        /\ forall k b, nth_error front k = Some b ->
             next_batch vt k b /\ exists data, create k b = Ok data
  end.
Proof.
  induction fuel as [|fuel IH]; intros i call all sent Hfuel Hlen Hi Hsent Hcat Hall;
    [lia|].
  cbn [batch_loop].
  destruct (i <? List.length vt) eqn:Ei.
  - apply Nat.ltb_lt in Ei.
    assert (Hnext : next_batch vt call (slice vt i (i + batchSize))).
    { split; [now subst i|]. unfold batchSize. rewrite slice_length. lia. }
    destruct (create call (slice vt i (i + batchSize))) as [data|e] eqn:Ec.
    + apply IH; try (unfold batchSize; lia).
      * rewrite length_app. simpl. lia.
      * rewrite concat_app. simpl. rewrite app_nil_r, Hcat. apply firstn_slice.
      * intros k batch Hk.
        destruct (Nat.lt_ge_cases k (List.length sent)) as [Hlt|Hge].
        -- rewrite nth_error_app1 in Hk by assumption. now apply Hall.
        -- rewrite nth_error_app2 in Hk by assumption.
           destruct (k - List.length sent) as [|d] eqn:Ed.
           ++ simpl in Hk. injection Hk as <-.
              replace k with call by lia. split; [exact Hnext|now exists data].
           ++ simpl in Hk. destruct d; discriminate.
    + exists sent, (slice vt i (i + batchSize)). rewrite Hsent.
      split; [reflexivity|]. split; [exact Hnext|]. split; [exact Ec|exact Hall].
  - apply Nat.ltb_ge in Ei. split; [|exact Hall].
    rewrite Hcat. apply firstn_all2. exact Ei.
Qed.

Lemma batch_loop_shape (vt : list string) (vi : list nat) (fuel : nat) :
  forall i call (all : vectors) sent,
  Forall (fun idx => idx < List.length all) vi ->
  match batch_loop create fuel i call vt vi all sent with
  | Some (Ok embeddings, _) =>
      List.length embeddings = List.length all
      /\ forall j, ~ In j vi -> nth_error embeddings j = nth_error all j
  | _ => True
  end.
Proof.
  induction fuel as [|fuel IH]; intros i call all sent Hvi; [exact I|].
  cbn [batch_loop].
  destruct (i <? List.length vt); [|now split].
  destruct (create call (slice vt i (i + batchSize))) as [data|e]; [|exact I].
  assert (Hs : Forall (fun idx => idx < List.length all) (slice vi i (i + batchSize))).
  { apply Forall_forall. intros idx Hin. apply slice_In in Hin.
    rewrite Forall_forall in Hvi. now apply Hvi. }
  specialize (IH (i + batchSize) (S call)
                 (store_batch data (slice vi i (i + batchSize)) all)
                 (sent ++ [slice vt i (i + batchSize)])).
  rewrite store_batch_length in IH by assumption.
  specialize (IH Hvi).
  destruct (batch_loop create fuel (i + batchSize) (S call) vt vi
              (store_batch data (slice vi i (i + batchSize)) all)
              (sent ++ [slice vt i (i + batchSize)])) as [[[emb|e] sent']|];
    try exact I.
  destruct IH as [IH1 IH2]. split; [exact IH1|].
  intros j Hj. rewrite IH2 by assumption.
  apply store_batch_other; [assumption|].
  intros Hin. apply Hj. now apply slice_In in Hin.
Qed.

Lemma generateEmbeddings_returns (texts : list (jsval T)) :
  generateEmbeddings OPENAI_API_KEY create texts <> None.
Proof.
  unfold generateEmbeddings.
  destruct texts as [|text texts]; [discriminate|].
  destruct (collect_valid 0 (text :: texts)) as [vt vi].
  destruct vt as [|s vt]; [discriminate|].
  destruct (getClient OPENAI_API_KEY) as [[]|e]; [|discriminate].
  pose proof (@batch_loop_protocol (s :: vt) vi (S (List.length (s :: vt))) 0 0
                (repeat None (List.length (text :: texts))) []) as Hloop.
  assert (Hnone : forall k batch, nth_error (@nil (list string)) k = Some batch ->
            next_batch (s :: vt) k batch /\ exists data, create k batch = Ok data).
  { intros [|k] batch; discriminate. }
  specialize (Hloop ltac:(lia) ltac:(simpl; lia) eq_refl eq_refl eq_refl Hnone).
  intros E. now rewrite E in Hloop.
Qed.

(** X3.  The requests of [generateEmbeddings].  The function always ends.
    Its [k]-th request carries the next hundred of the valid (trimmed,
    non-blank) texts, or those that are left, never an empty batch.  When
    it returns, the requests together carried every valid text exactly
    once, in order, and each was answered.  When it throws, either the
    key is missing and no request was made, or the last request is the
    one that failed and every request before it was answered: no request
    follows a failure. *)
Theorem generateEmbeddings_batches (texts : list (jsval T)) :
  match generateEmbeddings OPENAI_API_KEY create texts with
  | None => False
  | Some (result, sent) =>
      let validTexts := fst (collect_valid 0 texts) in
      (forall k batch, nth_error sent k = Some batch -> next_batch validTexts k batch)
      /\ match result with
         | Ok _ =>
             List.concat sent = validTexts
             /\ forall k batch, nth_error sent k = Some batch ->
                  exists data, create k batch = Ok data
         | Throw e =>
             (sent = [] /\ getClient OPENAI_API_KEY = Throw e)
             \/ exists front batch,
                  sent = front ++ [batch]
                  /\ create (List.length front) batch = Throw e
                  /\ forall k b, nth_error front k = Some b ->
                       exists data, create k b = Ok data
         end
  end.
Proof.
  unfold generateEmbeddings.
  destruct texts as [|text texts].
  { split; [intros [|k] batch; discriminate|].
    split; [reflexivity|intros [|k] batch; discriminate]. }
  destruct (collect_valid 0 (text :: texts)) as [vt vi] eqn:Ecv.
  cbn [fst].
  destruct vt as [|s vt].
  { split; [intros [|k] batch; discriminate|].
    split; [reflexivity|intros [|k] batch; discriminate]. }
  destruct (getClient OPENAI_API_KEY) as [[]|e] eqn:Eg.
  2:{ split; [intros [|k] batch; discriminate|]. left. now split. }
  pose proof (@batch_loop_protocol (s :: vt) vi (S (List.length (s :: vt))) 0 0
                (repeat None (List.length (text :: texts))) []) as Hloop.
  assert (Hnone : forall k batch, nth_error (@nil (list string)) k = Some batch ->
            next_batch (s :: vt) k batch /\ exists data, create k batch = Ok data).
  { intros [|k] batch; discriminate. }
  specialize (Hloop ltac:(lia) ltac:(simpl; lia) eq_refl eq_refl eq_refl Hnone).
  destruct (batch_loop create (S (List.length (s :: vt))) 0 0 (s :: vt) vi
              (repeat None (List.length (text :: texts))) [])
    as [[[emb|e] sent]|]; [| |exact Hloop].
  - destruct Hloop as [Hcat Hall]. split; [intros k batch Hk; now apply Hall|].
    split; [exact Hcat|intros k batch Hk; now apply Hall].
  - destruct Hloop as (front & batch & -> & Hnext & Hfail & Hall).
    split.
    + intros k b Hk.
      destruct (Nat.lt_ge_cases k (List.length front)) as [Hlt|Hge].
      * rewrite nth_error_app1 in Hk by assumption. now apply Hall.
      * rewrite nth_error_app2 in Hk by assumption.
        destruct (k - List.length front) as [|d] eqn:Ed.
        -- simpl in Hk. injection Hk as <-.
           replace k with (List.length front) by lia. exact Hnext.
        -- simpl in Hk. destruct d; discriminate.
    + right. exists front, batch. split; [reflexivity|]. split; [exact Hfail|].
      intros k b Hk. now apply Hall.
Qed.



Lemma generateEmbeddings_shape (texts : list (jsval T)) :
  match generateEmbeddings OPENAI_API_KEY create texts with
  | Some (Ok embeddings, _) =>
      List.length embeddings = List.length texts
      /\ forall idx text, nth_error texts idx = Some text ->
           valid_text text = None -> nth_error embeddings idx = Some None
  | _ => True
  end.
Proof.
  unfold generateEmbeddings.
  destruct texts as [|text texts].
  { split; [reflexivity|]. intros [|idx] t; discriminate. }
  assert (Hnull : forall idx t, nth_error (text :: texts) idx = Some t ->
            nth_error (repeat (@None (list T)) (List.length (text :: texts))) idx
            = Some None).
  { intros idx t Hidx.
    assert (Hlt : idx < List.length (text :: texts)).
    { apply nth_error_Some. congruence. }
    rewrite nth_error_repeat; [reflexivity|exact Hlt]. }
  pose proof (collect_valid_bound (text :: texts)) as Hb.
  pose proof (@collect_valid_In (text :: texts) 0) as Hin.
  destruct (collect_valid 0 (text :: texts)) as [vt vi]. cbn [snd] in Hb, Hin.
  destruct vt as [|s vt].
  { split; [apply repeat_length|]. intros idx t Hidx _. now apply (Hnull idx t). }
  destruct (getClient OPENAI_API_KEY) as [[]|e]; [|exact I].
  pose proof (@batch_loop_shape (s :: vt) vi (S (List.length (s :: vt))) 0 0
                (repeat None (List.length (text :: texts))) []) as Hloop.
  rewrite repeat_length in Hloop. specialize (Hloop Hb).
  destruct (batch_loop create (S (List.length (s :: vt))) 0 0 (s :: vt) vi
              (repeat None (List.length (text :: texts))) [])
    as [[[emb|e] sent]|]; try exact I.
  destruct Hloop as [Hlen Hother]. split; [exact Hlen|].
  intros idx t Hidx Hv. rewrite Hother; [now apply (Hnull idx t)|].
  intros Hi. destruct (Hin idx Hi) as (_ & t' & s' & Ht' & Hs').
  rewrite Nat.sub_0_r in Ht'. congruence.
Qed.

Section Faithful.
Variable embed : string -> option (list T).
Hypothesis Hcreate : forall call batch, create call batch = Ok (map embed batch).

Lemma batch_loop_faithful (vt : list string) (vi : list nat) (fuel : nat) :
  forall i call (all : vectors) sent,
  List.length vt = List.length vi ->
  1 <= fuel -> List.length vt <= i + 100 * (fuel - 1) ->
  exists sent',
    batch_loop create fuel i call vt vi all sent
    = Some (Ok (store_batch (map embed (skipn i vt)) (skipn i vi) all), sent').
Proof.
  induction fuel as [|fuel IH]; intros i call all sent Hlen Hfuel Hi; [lia|].
  cbn [batch_loop].
  destruct (i <? List.length vt) eqn:Ei.
  - apply Nat.ltb_lt in Ei. rewrite Hcreate.
    destruct (IH (i + batchSize) (S call)
                 (store_batch (map embed (slice vt i (i + batchSize)))
                              (slice vi i (i + batchSize)) all)
                 (sent ++ [slice vt i (i + batchSize)]) Hlen)
      as (sent' & ->); try (unfold batchSize; lia).
    exists sent'. do 3 f_equal.
    rewrite (skipn_slice vt i batchSize), (skipn_slice vi i batchSize), map_app.
    symmetry. apply store_batch_app.
    rewrite length_map, !slice_length. lia.
  - apply Nat.ltb_ge in Ei. exists sent.
    rewrite skipn_all2 by exact Ei. reflexivity.
Qed.

Lemma collect_store (texts : list (jsval T)) : forall (pre : vectors),
  store_batch (map embed (fst (collect_valid (List.length pre) texts)))
              (snd (collect_valid (List.length pre) texts))
              (pre ++ repeat None (List.length texts))
  = pre ++ map (embedded embed) texts.
Proof.
  induction texts as [|text texts IH]; intros pre; [reflexivity|].
  cbn [collect_valid List.length repeat map].
  specialize (IH (pre ++ [embedded embed text])).
  rewrite length_app, Nat.add_1_r in IH. cbn [List.length] in IH.
  destruct (collect_valid (S (List.length pre)) texts) as [vt vi].
  cbn [fst snd] in IH. rewrite <- !app_assoc in IH. cbn [app] in IH.
  unfold embedded at 2. unfold embedded at 1 in IH.
  destruct (valid_text text) as [s|]; cbn [fst snd map].
  - cbn [store_batch]. rewrite assign_here. exact IH.
  - exact IH.
Qed.

(** X4.  The embeddings come back at the positions of their texts.  When the
    key is configured and the service answers every batch item for item,
    [generateEmbeddings] returns, for each text, the embedding of its
    trimmed form, and nothing ([null]) for a text that is blank or no
    string: however many batches the texts are sent in. *)
Theorem generateEmbeddings_positions (texts : list (jsval T)) :
  getClient OPENAI_API_KEY = Ok tt ->
  exists sent,
    generateEmbeddings OPENAI_API_KEY create texts
    = Some (Ok (map (embedded embed) texts), sent).
Proof.
  intros Hkey. unfold generateEmbeddings.
  destruct texts as [|text texts]; [now exists []|].
  pose proof (collect_valid_length (text :: texts) 0) as Hlen.
  pose proof (collect_store (text :: texts) []) as Hstore.
  cbn [List.length app] in Hstore.
  destruct (collect_valid 0 (text :: texts)) as [vt vi]. cbn [fst snd] in *.
  destruct vt as [|s vt].
  - exists []. destruct vi; [|discriminate].
    change (map (embedded embed) (text :: texts))
      with ([] ++ map (embedded embed) (text :: texts)).
    now rewrite <- Hstore.
  - rewrite Hkey.
    destruct (@batch_loop_faithful (s :: vt) vi (S (List.length (s :: vt))) 0 0
                (repeat None (List.length (text :: texts))) [] Hlen)
      as (sent & ->); [lia|simpl; lia|].
    exists sent. cbn [skipn].
    change (map (embedded embed) (text :: texts))
      with ([] ++ map (embedded embed) (text :: texts)).
    now rewrite <- Hstore.
Qed.

End Faithful.

Context `{Arith T}.
Variable Number_toString : T -> string.

Lemma generateEmbeddingText_blank (element : sqlrow (T:=T)) :
  (forall k, In k embedding_fields -> truthy (get element k) = false) ->
  generateEmbeddingText Number_toString element = EmptyString.
Proof.
  intros Hall. unfold generateEmbeddingText.
  rewrite !Hall by (simpl; tauto). cbn [filter].
  rewrite !Hall by (simpl; tauto). reflexivity.
Qed.

(** X5.  The embeddings line up with the rows.  [generateEmbeddings] returns
    one entry per text, [null] for each text that is blank or no string.
    The list the ingest code pairs with its rows (the embeddings, or all
    [null] after a failure) has one entry per row, and a row none of whose
    descriptive fields is set has no embedding. *)
Theorem embeddings_line_up (texts : list (jsval T)) (rows : list (sqlrow (T:=T))) :
  match generateEmbeddings OPENAI_API_KEY create texts with
  | Some (Ok embeddings, _) =>
      List.length embeddings = List.length texts
      /\ forall idx text, nth_error texts idx = Some text ->
           valid_text text = None -> nth_error embeddings idx = Some None
  | Some (Throw _, _) => True
  | None => False
  end
  /\ match embeddings_for Number_toString OPENAI_API_KEY create rows with
     | Some (embeddings, _) =>
         List.length embeddings = List.length rows
         /\ forall idx r, nth_error rows idx = Some r ->
              (forall k, In k embedding_fields -> truthy (get r k) = false) ->
              nth_error embeddings idx = Some None
     | None => False
     end.
Proof.
  split.
  - pose proof (generateEmbeddings_shape texts) as Hs.
    pose proof (generateEmbeddings_returns texts) as Hr.
    destruct (generateEmbeddings OPENAI_API_KEY create texts) as [[[emb|e] sent]|];
      [exact Hs|exact I|congruence].
  - unfold embeddings_for.
    set (texts' := map (fun r => JStr (generateEmbeddingText Number_toString r)) rows).
    pose proof (generateEmbeddings_shape texts') as Hs.
    pose proof (generateEmbeddings_returns texts') as Hr.
    destruct (generateEmbeddings OPENAI_API_KEY create texts') as [[[emb|e] sent]|];
      [| |congruence].
    + destruct Hs as [Hlen Hnull]. unfold texts' in *. rewrite length_map in Hlen.
      split; [exact Hlen|]. intros idx r Hidx Hblank.
      apply (Hnull idx (JStr (generateEmbeddingText Number_toString r))).
      * rewrite nth_error_map, Hidx. reflexivity.
      * now rewrite generateEmbeddingText_blank.
    + split; [apply repeat_length|]. intros idx r Hidx _.
      apply nth_error_repeat. apply nth_error_Some. congruence.
Qed.

End EmbeddingFacts.

Lemma generateEmbeddings_positions_witness :
  let texts := [JStr " door "; JStr "  "; JNull; JStr "void"; JStr "wall"]%string in
  let create := fun (_ : nat) (batch : list string) => Ok (map unit_vector batch) in
  exists sent,
    generateEmbeddings (Some "key"%string) create texts
    = Some (Ok [Some [1%float]; None; None; None; Some [1%float]], sent).
Proof.
  intros texts create.
  exact (@generateEmbeddings_positions float (Some "key"%string) create
           unit_vector (fun _ _ => eq_refl) texts eq_refl).
Defined.

(** ** Reading the properties of an element *)

Section ObjectFacts.
Context {T : Type}.

Local Abbreviation object := (list (string * jsval T)).

Lemma get_put_same (o : object) (k : string) (v : jsval T) :
  get (put o k v) k = v.
Proof.
  induction o as [|[k' v'] o IH]; simpl.
  - now rewrite String.eqb_refl.
  - destruct (String.eqb k' k) eqn:E; simpl; rewrite E; [reflexivity|exact IH].
Qed.

Lemma get_put_other (o : object) (k k' : string) (v : jsval T) :
  String.eqb k k' = false -> get (put o k v) k' = get o k'.
Proof.
  intros Hk. induction o as [|[k0 v0] o IH]; simpl.
  - now rewrite Hk.
  - destruct (String.eqb k0 k) eqn:E; simpl.
    + apply String.eqb_eq in E. subst k0. now rewrite Hk.
    + now rewrite IH.
Qed.

Lemma put_keys (o : object) (k : string) (v : jsval T) :
  map fst (put o k v)
  = if existsb (String.eqb k) (map fst o) then map fst o else map fst o ++ [k].
Proof.
  induction o as [|[k' v'] o IH]; simpl; [reflexivity|].
  rewrite (String.eqb_sym k k').
  destruct (String.eqb k' k); simpl; [reflexivity|].
  rewrite IH. now destruct (existsb (String.eqb k) (map fst o)).
Qed.

Lemma put_NoDup (o : object) (k : string) (v : jsval T) :
  NoDup (map fst o) -> NoDup (map fst (put o k v)).
Proof.
  intros Hnd. rewrite put_keys.
  destruct (existsb (String.eqb k) (map fst o)) eqn:E; [exact Hnd|].
  apply NoDup_app; [exact Hnd|repeat constructor; simpl; tauto|].
  intros x Hx [->|[]].
  assert (Hex : existsb (String.eqb x) (map fst o) = true).
  { apply existsb_exists. exists x. split; [exact Hx|apply String.eqb_refl]. }
  congruence.
Qed.

Lemma put_In (o : object) (k : string) (v : jsval T) (k' : string) (v' : jsval T) :
  In (k', v') (put o k v) -> In (k', v') o \/ (k', v') = (k, v).
Proof.
  induction o as [|[k0 v0] o IH]; simpl.
  - intros [E|[]]. right. now symmetry.
  - destruct (String.eqb k0 k) eqn:E; simpl.
    + apply String.eqb_eq in E. subst k0.
      intros [E'|Hin]; [right; now symmetry|left; now right].
    + intros [E'|Hin]; [left; now left|].
      destruct (IH Hin) as [Ho|Heq]; [left; now right|now right].
Qed.

End ObjectFacts.

Section PropertyFacts.
Context {T : Type} `{Arith T}.
Variable Number_toString : T -> string.
Variable toLowerCase : string -> string.
Variable letter_or_number : string -> bool.
Variable Canonicalize : N -> N.
Variable JSON_stringify : list (string * jsval T) -> string.

Local Abbreviation object := (list (string * jsval T)).
Local Abbreviation key := (key_of Number_toString).
Local Abbreviation flatten := (flattenProps Number_toString).
Local Abbreviation normalized := (normalizeKey Number_toString toLowerCase letter_or_number).
Local Abbreviation find := (findInFlat Number_toString toLowerCase letter_or_number).

Lemma flatten_fold (l : list (option (property (T:=T)))) (k : string) :
  forall flat : object,
  NoDup (map fst flat) ->
  let flat' := fold_left (flatten_step Number_toString) l flat in
  NoDup (map fst flat')
  /\ get flat' k
     = fold_left
         (fun acc prop =>
            match prop with
            | Some p =>
                match key p with
                | Some key => if String.eqb key k then displayValue p else acc
                | None => acc
                end
            | None => acc
            end)
         l (get flat k)
  /\ forall k' v, In (k', v) flat' ->
       In (k', v) flat \/ exists p, In (Some p) l /\ v = displayValue p.
Proof.
  induction l as [|prop l IH]; intros flat Hnd; cbn [fold_left].
  - split; [exact Hnd|]. split; [reflexivity|]. intros k' v Hin. now left.
  - assert (Hnd' : NoDup (map fst (flatten_step Number_toString flat prop))).
    { unfold flatten_step. destruct prop as [p|]; [|exact Hnd].
      destruct (key p); [now apply put_NoDup|exact Hnd]. }
    destruct (IH _ Hnd') as (H1 & H2 & H3). split; [exact H1|].
    split.
    + rewrite H2. f_equal. unfold flatten_step.
      destruct prop as [p|]; [|reflexivity].
      destruct (key p) as [kp|]; [|reflexivity].
      destruct (String.eqb kp k) eqn:E.
      * apply String.eqb_eq in E. subst kp. apply get_put_same.
      * now apply get_put_other.
    + intros k' v Hin. destruct (H3 k' v Hin) as [Hflat|(p & Hp & Hv)].
      * unfold flatten_step in Hflat. destruct prop as [p|]; [|now left].
        destruct (key p) as [kp|]; [|now left].
        apply put_In in Hflat. destruct Hflat as [Hflat|Heq]; [now left|].
        right. exists p. split; [now left|congruence].
      * right. exists p. split; [now right|exact Hv].
Qed.

(** X6.  [flattenProps] files each property under [category.name] and keeps
    one value per key: the one filed last.  An entry that is [null], or
    that has no category or no name, files nothing. *)
Theorem flattenProps_last_wins (l : list (option (property (T:=T)))) (k : string) :
  NoDup (map fst (flatten (Some l)))
  /\ get (flatten (Some l)) k = last_filed Number_toString k l.
Proof.
  destruct (@flatten_fold l k [] (NoDup_nil _)) as (H1 & H2 & _).
  split; [exact H1|exact H2].
Qed.

(** X7.  The two [flattenProps] differ on one input only.  On a list
    without [null] entry the function of the migration script returns what
    the function of the snapshot service returns; on a list that has one
    it throws, where the snapshot service skips the entry. *)
Theorem flattenProps_variants (l : list (option (property (T:=T)))) :
  (Forall (fun e => e <> None) l ->
   flattenProps_migrate Number_toString (Some l) = Ok (flatten (Some l)))
  /\ (In None l ->
      exists m, flattenProps_migrate Number_toString (Some l) = Throw m).
Proof.
  unfold flattenProps_migrate, flattenProps.
  generalize (@nil (string * jsval T)).
  induction l as [|prop l IH]; intros flat; cbn [flatten_loop fold_left].
  - split; [reflexivity|intros []].
  - destruct prop as [p|].
    + unfold flatten_step at 2.
      destruct (key p) as [kp|].
      * destruct (IH (put flat kp (displayValue p))) as [H1 H2].
        split; [intros Hall; apply H1; now inversion Hall|].
        intros [E|Hin]; [discriminate|now apply H2].
      * destruct (IH flat) as [H1 H2].
        split; [intros Hall; apply H1; now inversion Hall|].
        intros [E|Hin]; [discriminate|now apply H2].
    + split; [|intros _; now eexists].
      intros Hall. inversion Hall; congruence.
Qed.

(** *** [findInFlat] *)

Lemma find_entry_Some (kwN : string) (flat : object) (v : jsval T) :
  find_entry Number_toString toLowerCase letter_or_number kwN flat = Some v ->
  isEmpty v = false
  /\ exists k, In (k, v) flat /\ str_includes (normalized (JStr k)) kwN = true.
Proof.
  induction flat as [|[k0 v0] flat IH]; simpl; [discriminate|].
  destruct (isEmpty v0) eqn:Ee.
  - intros E. destruct (IH E) as (H1 & k & Hin & Hk).
    split; [exact H1|]. exists k. split; [now right|exact Hk].
  - destruct (str_includes (normalized (JStr k0)) kwN) eqn:Ei.
    + intros [= <-]. split; [exact Ee|]. exists k0. split; [now left|exact Ei].
    + intros E. destruct (IH E) as (H1 & k & Hin & Hk).
      split; [exact H1|]. exists k. split; [now right|exact Hk].
Qed.

Lemma find_entry_None (kwN : string) (flat : object) :
  find_entry Number_toString toLowerCase letter_or_number kwN flat = None ->
  forall k v, In (k, v) flat -> isEmpty v = false ->
              str_includes (normalized (JStr k)) kwN = false.
Proof.
  induction flat as [|[k0 v0] flat IH]; simpl; [intros _ k v []|].
  destruct (isEmpty v0) eqn:Ee.
  - intros E k v [[= <- <-]|Hin] Hv; [congruence|now apply (IH E k v)].
  - destruct (str_includes (normalized (JStr k0)) kwN) eqn:Ei; [discriminate|].
    intros E k v [[= <- <-]|Hin] Hv; [exact Ei|now apply (IH E k v)].
Qed.

Lemma findInFlat_value (flat : object) (keywords : list string) :
  find flat keywords = JNull
  \/ (isEmpty (find flat keywords) = false
      /\ exists k, In (k, find flat keywords) flat).
Proof.
  induction keywords as [|kw keywords IH]; cbn [findInFlat]; [now left|].
  destruct (negb (nonempty (normalized (JStr kw)))); [exact IH|].
  destruct (find_entry Number_toString toLowerCase letter_or_number
              (normalized (JStr kw)) flat) as [v|] eqn:Ef; [|exact IH].
  right. destruct (find_entry_Some _ _ Ef) as (Hv & k & Hin & _).
  split; [exact Hv|now exists k].
Qed.

(** X8.  [findInFlat] never returns an empty value.  Its result is [null]
    exactly when no property with a value ([isEmpty] is false) has a key
    whose normal form contains the normal form of a keyword; otherwise it
    is the value of such a property, which is neither [null], nor
    [undefined], nor a blank string. *)
Theorem findInFlat_found (flat : object) (keywords : list string) :
  (find flat keywords = JNull
   /\ forall kw k v, In kw keywords -> nonempty (normalized (JStr kw)) = true ->
        In (k, v) flat -> isEmpty v = false ->
        str_includes (normalized (JStr k)) (normalized (JStr kw)) = false)
  \/ (isEmpty (find flat keywords) = false
      /\ exists kw k, In kw keywords /\ In (k, find flat keywords) flat
           /\ nonempty (normalized (JStr kw)) = true
           /\ str_includes (normalized (JStr k)) (normalized (JStr kw)) = true).
Proof.
  induction keywords as [|kw keywords IH]; cbn [findInFlat].
  - left. split; [reflexivity|]. intros kw k v [].
  - destruct (nonempty (normalized (JStr kw))) eqn:En; cbn [negb].
    + destruct (find_entry Number_toString toLowerCase letter_or_number
                  (normalized (JStr kw)) flat) as [v|] eqn:Ef.
      * right. destruct (find_entry_Some _ _ Ef) as (Hv & k & Hin & Hk).
        split; [exact Hv|]. exists kw, k. repeat split; try assumption. now left.
      * destruct IH as [[E Hnone]|(Hv & kw' & k & Hkw & Hin & Hn & Hk)].
        -- left. split; [exact E|].
           intros kw' k v [<-|Hkw] Hn Hin Hv.
           ++ now apply (find_entry_None _ _ Ef k v).
           ++ now apply (Hnone kw' k v).
        -- right. split; [exact Hv|]. exists kw', k.
           repeat split; try assumption. now right.
    + destruct IH as [[E Hnone]|(Hv & kw' & k & Hkw & Hin & Hn & Hk)].
      * left. split; [exact E|].
        intros kw' k v [<-|Hkw] Hn Hin Hv; [congruence|now apply (Hnone kw' k v)].
      * right. split; [exact Hv|]. exists kw', k.
        repeat split; try assumption. now right.
Qed.

(** *** [inferCategory] *)

Lemma matches_here_app (p1 p2 : list N) : forall text,
  matches_here Canonicalize (p1 ++ p2) text = true ->
  matches_here Canonicalize p1 text = true.
Proof.
  induction p1 as [|p p1 IH]; intros text; simpl; [reflexivity|].
  destruct text as [|c text]; [discriminate|].
  rewrite !andb_true_iff. intros [E Hrest]. split; [exact E|now apply IH].
Qed.

Lemma matches_somewhere_app (p1 p2 text : list N) :
  matches_somewhere Canonicalize (p1 ++ p2) text = true ->
  matches_somewhere Canonicalize p1 text = true.
Proof.
  induction text as [|c text IH]; cbn [matches_somewhere];
    rewrite !orb_true_iff.
  - intros [E|E]; [left; now apply (matches_here_app p1 p2)|discriminate].
  - intros [E|E]; [left; now apply (matches_here_app p1 p2)|right; now apply IH].
Qed.

(** X9.  [inferCategory] tests the words for a door before the words for a
    window, and the Vietnamese word for a window starts with the one for a
    door.  So a type or family name that contains it is classified as
    [Doors]; [Windows] is only ever inferred from the English word. *)
Theorem inferCategory_window (typeName familyName : jsval T) :
  let s := toLowerCase (to_String Number_toString (js_or typeName (JStr ""))
                        ++ " "
                        ++ to_String Number_toString (js_or familyName (JStr ""))) in
  let result := inferCategory Number_toString toLowerCase Canonicalize
                              typeName familyName in
  (test_i Canonicalize ["cửa sổ"%string] s = true -> result = JStr "Doors")
  /\ (result = JStr "Windows" ->
      test_i Canonicalize ["window"%string] s = true
      /\ test_i Canonicalize ["cửa sổ"%string] s = false).
Proof.
  intros s result.
  assert (Hdoor : test_i Canonicalize ["cửa sổ"%string] s = true ->
                  test_i Canonicalize ["door"; "cửa"]%string s = true).
  { unfold test_i. cbn [existsb]. rewrite !orb_false_r.
    intros Hw. apply orb_true_iff. right.
    apply (matches_somewhere_app (utf16 "cửa") (utf16 " sổ")). exact Hw. }
  unfold result, inferCategory. fold s.
  destruct (test_i Canonicalize ["door"; "cửa"]%string s) eqn:Ed.
  - split; [reflexivity|discriminate].
  - split.
    + intros Hw. apply Hdoor in Hw. discriminate.
    + intros Hres.
      destruct (test_i Canonicalize ["cửa sổ"%string] s) eqn:Ew;
        [discriminate (Hdoor eq_refl)|].
      split; [|reflexivity].
      destruct (test_i Canonicalize ["window"; "cửa sổ"]%string s) eqn:E2.
      * unfold test_i in *. cbn [existsb] in *. rewrite !orb_false_r in *.
        apply orb_true_iff in E2. destruct E2 as [E2|E2]; [exact E2|congruence].
      * destruct (test_i Canonicalize ["wall"; "tường"]%string s);
          [discriminate|].
        destruct (test_i Canonicalize ["floor"; "sàn"]%string s);
          [discriminate|].
        destruct (test_i Canonicalize ["room"; "phòng"]%string s);
          discriminate.
Qed.

(** *** The category of a row *)

Lemma flatten_values (l : list (option (property (T:=T)))) (k : string)
    (v : jsval T) :
  In (k, v) (flatten (Some l)) -> exists p, In (Some p) l /\ v = displayValue p.
Proof.
  intros Hin.
  destruct (@flatten_fold l k [] (NoDup_nil _)) as (_ & _ & H3).
  destruct (H3 k v Hin) as [[]|Hp]. exact Hp.
Qed.

Lemma find_primitive (flat : object) (keywords : list string) :
  (forall k v, In (k, v) flat -> primitive v = true) ->
  primitive (find flat keywords) = true.
Proof.
  intros Hflat.
  destruct (findInFlat_value flat keywords) as [->|(_ & k & Hin)];
    [reflexivity|].
  exact (Hflat _ _ Hin).
Qed.

(** A number is never printed as a blank string. *)
Hypothesis number_shown : forall x, nonempty (trim (Number_toString x)) = true.

Lemma nonblank_text (v : jsval T) :
  primitive v = true -> isEmpty v = false ->
  nonempty (trim (to_String Number_toString v)) = true.
Proof.
  destruct v as [| |[]|x|s|]; simpl; try discriminate; try reflexivity.
  - intros _ _. apply number_shown.
  - intros _ E. now apply negb_false_iff in E.
Qed.

Lemma find_not_null (flat : object) (keywords : list string) :
  truthy (find flat keywords) = true -> isEmpty (find flat keywords) = false.
Proof.
  destruct (findInFlat_value flat keywords) as [->|[Hv _]];
    [discriminate|now intros _].
Qed.

Lemma inferCategory_named (typeName familyName : jsval T) :
  let c := inferCategory Number_toString toLowerCase Canonicalize
                         typeName familyName in
  truthy c = true -> nonempty (trim (to_String Number_toString c)) = true.
Proof.
  cbv zeta. unfold inferCategory.
  repeat match goal with
         | |- context [if ?b then _ else _] => destruct b
         end; first [discriminate | intros _; reflexivity].
Qed.

Lemma component_type_nonblank (flat : object) :
  (forall k v, In (k, v) flat -> primitive v = true) ->
  nonempty (component_type_of Number_toString toLowerCase letter_or_number
                              Canonicalize flat) = true.
Proof.
  intros Hflat. unfold component_type_of.
  destruct (isEmpty (find flat mapping.omniclass.title)) eqn:Eo; cbn [negb].
  - unfold js_or.
    destruct (truthy (find flat mapping.basic.component_type)) eqn:Ec.
    + rewrite Ec. apply nonblank_text;
        [now apply find_primitive|now apply find_not_null].
    + destruct (truthy (inferCategory Number_toString toLowerCase Canonicalize
                          (find flat mapping.basic.type_name)
                          (find flat mapping.basic.family_name))) eqn:Ei.
      * now apply inferCategory_named.
      * reflexivity.
  - apply nonblank_text; [now apply find_primitive|exact Eo].
Qed.

Lemma component_type_trimmed (flat : object) :
  trim (component_type_of Number_toString toLowerCase letter_or_number
                          Canonicalize flat)
  = component_type_of Number_toString toLowerCase letter_or_number
                      Canonicalize flat.
Proof.
  unfold component_type_of.
  destruct (negb (isEmpty (find flat mapping.omniclass.title)));
    apply trim_idempotent.
Qed.

(** X10.  Every row the snapshot service builds has a category.  When the
    values of the element's properties are primitive (strings, numbers,
    booleans, [null]), [component_type] is a string that is not blank and
    has no whitespace around it: the OmniClass title if the element has
    one, else its category property, else what [inferCategory] makes of
    its type and family names, else ["Unknown"]. *)
Theorem snapshot_row_has_category (u g : string) (dbId name : jsval T)
    (l : list (option (property (T:=T)))) :
  (forall p, In (Some p) l -> primitive (displayValue p) = true) ->
  exists c,
    get (snapshot_row Number_toString toLowerCase letter_or_number Canonicalize
           JSON_stringify u g dbId name (Some l)) "component_type"
    = JStr c
    /\ nonempty c = true /\ trim c = c.
Proof.
  intros Hl.
  exists (component_type_of Number_toString toLowerCase letter_or_number
            Canonicalize (flatten (Some l))).
  split; [reflexivity|]. split; [|apply component_type_trimmed].
  apply component_type_nonblank.
  intros k v Hin. destruct (flatten_values _ _ _ Hin) as (p & Hp & ->).
  now apply Hl.
Qed.

(** X11.  In [extractModelToSqlite] the text that is embedded for an element is
    its name and nothing else.  The documents of step 3 keep category,
    type, level and the other readings inside their five groups, where
    [generateEmbeddingText] does not look; an element without name gets
    the empty text, hence no embedding. *)
Theorem extracted_text_is_name (u g : string) (dbId name : jsval T)
    (propertiesObj : option (list (string * option (list (string * jsval T))))) :
  generateEmbeddingText Number_toString
    (own_properties JSON_stringify
       (build_document Number_toString toLowerCase letter_or_number
                       Canonicalize u g dbId name propertiesObj))
  = if truthy name then to_String Number_toString name else EmptyString.
Proof.
  unfold generateEmbeddingText, own_properties, build_document.
  cbn [doc_key doc_id doc_label doc_groups doc_flat fst snd].
  cbv [get String.eqb Ascii.eqb Bool.eqb].
  unfold js_or. destruct (truthy name) eqn:E; cbn [filter truthy]; rewrite ?E;
    reflexivity.
Qed.

End PropertyFacts.

Lemma snapshot_row_has_category_witness :
  exists c,
    get (snapshot_row toString1 (fun s => s) (fun _ => true) (fun n => n)
           (fun _ => EmptyString) "u" "g" (JNum 7%float) (JStr "Door 1")
           (Some [Some {| displayCategory := JStr "Identity Data";
                          displayName := JStr "Type Name";
                          displayValue := JStr "Single door" |};
                  Some {| displayCategory := JStr "Dimensions";
                          displayName := JStr "Area";
                          displayValue := JNum 2.5%float |}; None]))
        "component_type"
    = JStr c
    /\ nonempty c = true /\ trim c = c.
Proof.
  apply (@snapshot_row_has_category float _ toString1 (fun s => s)
           (fun _ => true) (fun n => n) (fun _ => EmptyString)
           (fun _ => eq_refl)).
  intros p [[= <-]|[[= <-]|[E|[]]]]; [reflexivity|reflexivity|discriminate].
Defined.

(** ** The partitions of the store *)

Section PartitionFacts.
Context {T : Type} `{Arith T}.
Variable raw : Type.
Variable extract : raw -> row T.

Lemma elements_insertMany (u' : string) (rows : list (row T)) : forall db,
  Forall (fun r => String.eqb (urn r) u' = false) rows ->
  filter (in_urn u') (elements (insertMany rows db))
  = filter (in_urn u') (elements db).
Proof.
  unfold insertMany.
  induction rows as [|r rows IH]; intros db Hrows; [reflexivity|].
  inversion Hrows as [|? ? Hr Hrest]; subst. cbn [fold_left].
  rewrite IH by assumption. cbn [insert elements].
  rewrite filter_app. cbn [filter]. unfold in_urn at 2. cbn [snd].
  rewrite Hr. apply app_nil_r.
Qed.

Lemma elements_delete_urn (u u' : string) (db : database T) :
  String.eqb u u' = false ->
  filter (in_urn u') (elements (delete_urn u db))
  = filter (in_urn u') (elements db).
Proof.
  intros Hu. unfold delete_urn. cbn [elements].
  induction (elements db) as [|e l IH]; [reflexivity|]. cbn [filter].
  destruct (in_urn u e) eqn:Eu; cbn [negb].
  - assert (E' : in_urn u' e = false).
    { unfold in_urn in *. apply String.eqb_eq in Eu.
      rewrite Eu. exact Hu. }
    rewrite E'. exact IH.
  - cbn [filter]. now rewrite IH.
Qed.

Lemma elements_delete_urn_guid (u u' g : string) (db : database T) :
  String.eqb u u' = false ->
  filter (in_urn u') (elements (delete_urn_guid u g db))
  = filter (in_urn u') (elements db).
Proof.
  intros Hu. unfold delete_urn_guid. cbn [elements].
  induction (elements db) as [|e l IH]; [reflexivity|]. cbn [filter].
  destruct (in_urn u e) eqn:Eu; cbn [andb].
  - assert (E' : in_urn u' e = false).
    { unfold in_urn in *. apply String.eqb_eq in Eu.
      rewrite Eu. exact Hu. }
    rewrite E'. destruct (negb _); cbn [filter]; rewrite ?E'; exact IH.
  - cbn [negb filter]. now rewrite IH.
Qed.

Lemma keyed_rows (u u' g : string) (rows : list (row T)) :
  String.eqb u u' = false ->
  forall es,
  Forall (fun r => String.eqb (urn r) u' = false)
         (add_embeddings (map (fun r => with_keys r u g) rows) es).
Proof.
  intros Hu. induction rows as [|r rows IH]; intros es; cbn [map add_embeddings];
    constructor; [exact Hu|apply IH].
Qed.

Lemma snapshot_rows (u u' g : string) (rows : list (row T)) :
  String.eqb u u' = false ->
  Forall (fun r => String.eqb (urn r) u' = false)
         (map (fun r => with_embedding (with_keys r u g) None) rows).
Proof.
  intros Hu. induction rows as [|r rows IH]; cbn [map];
    constructor; [exact Hu|exact IH].
Qed.

Lemma elements_snapshot_chunks (u u' g : string) (chunks : list (list raw)) :
  String.eqb u u' = false ->
  forall db,
  filter (in_urn u')
    (elements (fold_left (fun d chunk => ingestSnapshotChunk extract u g chunk d)
                         chunks db))
  = filter (in_urn u') (elements db).
Proof.
  intros Hu. induction chunks as [|c chunks IH]; intros db; [reflexivity|].
  cbn [fold_left]. rewrite IH. unfold ingestSnapshotChunk.
  destruct c as [|e c]; [reflexivity|].
  apply elements_insertMany. unfold transformSnapshotElement.
  rewrite <- (map_map extract (fun r => with_embedding (with_keys r u g) None)).
  now apply snapshot_rows.
Qed.

(** X12.  Ingesting one model never touches another.  Whichever of the three
    ways a model [u] is ingested (the migration script, a viewer
    snapshot, an extraction from Model Derivative), the rows of every
    other model [u'] are afterwards what they were, with the identifiers
    they had. *)
Theorem ingest_leaves_other_models (u u' g : string) (rawData : list raw)
    (es : list (option (list T))) (chunks : list (list raw))
    (db : database T) :
  u <> u' ->
  filter (in_urn u') (elements (migrate extract u g rawData es db))
  = filter (in_urn u') (elements db)
  /\ filter (in_urn u') (elements (snapshot extract u g chunks db))
     = filter (in_urn u') (elements db)
  /\ match extractModelToSqlite extract u (Ok g) (Ok rawData) es db with
     | Ok (db', _) =>
         filter (in_urn u') (elements db') = filter (in_urn u') (elements db)
     | Throw _ => True
     end.
Proof.
  intros Hne. apply String.eqb_neq in Hne. repeat split.
  - unfold migrate, transformElement.
    rewrite elements_insertMany, elements_delete_urn; [reflexivity|exact Hne|].
    rewrite <- (map_map extract (fun r => with_keys r u g)).
    now apply keyed_rows.
  - unfold snapshot, initSnapshot.
    rewrite elements_snapshot_chunks, elements_delete_urn; [reflexivity| |];
      exact Hne.
  - unfold extractModelToSqlite. destruct rawData as [|it items]; [exact I|].
    rewrite elements_insertMany, elements_delete_urn_guid; [reflexivity|exact Hne|].
    rewrite <- (map_map extract (fun r => with_keys r u g)).
    now apply keyed_rows.
Qed.

Lemma partition_rows_delete_urn_guid (u g : string) (db : database T) :
  partition_rows u (delete_urn_guid u g db)
  = filter (other_guid g) (partition_rows u db).
Proof.
  unfold partition_rows, delete_urn_guid. cbn [elements].
  induction (elements db) as [|e l IH]; [reflexivity|]. cbn [filter].
  destruct (in_urn u e) eqn:Eu; cbn [andb map filter].
  - unfold other_guid at 1.
    destruct (guid (snd e)) as [g'|]; cbn [negb].
    + destruct (String.eqb g' g); cbn [negb filter map]; rewrite ?Eu;
        cbn [map]; now rewrite IH.
    + cbn [filter]. rewrite Eu. cbn [map]. now rewrite IH.
  - cbn [negb filter]. rewrite Eu. exact IH.
Qed.

(** X13.  An extraction replaces only the rows it wrote itself.
    [extractModelToSqlite] deletes the rows of the model that carry the
    GUID of the extraction, not the others.  After a viewer snapshot
    (under its own GUID) and an extraction of the same model, the
    partition holds the elements of both, and a count over the partition
    counts them all; the migration script in place of the extraction would
    have left its own rows only. *)
Theorem extraction_keeps_other_guids (u g0 g : string)
    (chunks : list (list raw)) (items rawData : list raw)
    (es : list (option (list T))) (db : database T) :
  g0 <> g -> items <> [] ->
  let snap := snapshot extract u g0 chunks db in
  (exists db',
     extractModelToSqlite extract u (Ok g) (Ok items) es snap
     = Ok (db', List.length items)
     /\ count_urn u db'
        = List.length (List.concat chunks) + List.length items)
  /\ count_urn u (migrate extract u g rawData es snap) = List.length rawData.
Proof.
  intros Hg Hitems snap. split.
  - unfold extractModelToSqlite.
    destruct items as [|it items]; [congruence|].
    set (docs := add_embeddings
                   (map (fun it0 => with_keys (extract it0) u g) (it :: items)) es).
    exists (insertMany docs (delete_urn_guid u g snap)).
    assert (Hlen : List.length docs = List.length (it :: items)).
    { unfold docs. now rewrite add_embeddings_length, length_map. }
    split; [now rewrite Hlen|].
    rewrite count_urn_rows, partition_rows_insertMany.
    + rewrite length_app, Hlen, partition_rows_delete_urn_guid.
      unfold snap. rewrite partition_rows_snapshot.
      rewrite forallb_filter_id; [now rewrite length_map|].
      apply forallb_forall.
      intros r Hr. apply in_map_iff in Hr. destruct Hr as (e & <- & _).
      unfold other_guid, transformSnapshotElement. cbn [guid with_embedding with_keys].
      apply negb_true_iff. now apply String.eqb_neq.
    + unfold docs. apply add_embeddings_urn.
      apply (transformed_urn extract u g (it :: items)).
  - rewrite count_urn_rows, partition_rows_migrate.
    now rewrite add_embeddings_length, length_map.
Qed.

End PartitionFacts.

Lemma ingest_leaves_other_models_witness :
  filter (in_urn "u")
    (elements (migrate numbered_row "v" "g" [1%Z; 2%Z] [] db3))
  = filter (in_urn "u") (elements db3).
Proof.
  apply (@ingest_leaves_other_models float Z numbered_row "v" "u" "g"
           [1%Z; 2%Z] [] [] db3).
  discriminate.
Defined.

Lemma extraction_keeps_other_guids_witness :
  exists db',
    extractModelToSqlite numbered_row "u" (Ok "g"%string) (Ok [1%Z; 2%Z]) []
      (snapshot numbered_row "u" "viewer-snapshot" [[1%Z; 2%Z]] empty_db)
    = Ok (db', 2)
    /\ count_urn "u" db' = 4.
Proof.
  apply (@extraction_keeps_other_guids float Z numbered_row "u"
           "viewer-snapshot" "g" [[1%Z; 2%Z]] [1%Z; 2%Z] [] [] empty_db);
    discriminate.
Defined.

(** ** [routes/chat.js]: the handler as a whole *)

Section HandlerFacts.
Context {T : Type} `{Arith T}.
Variable Number_toString : T -> string.
Variable String_toNumber : string -> T.
Variable sqlite_all : database T -> string -> list (jsval T)
                      -> outcome (list (sqlrow (T:=T))).

Local Abbreviation handle := (handler Number_toString String_toNumber sqlite_all).

Lemma hint_calls (question : string) (cats : list string)
    (r : reply (hint_json (T:=T))) :
  snd (detectHintCategory question cats r) = []
  \/ snd (detectHintCategory question cats r) = [CallHint].
Proof.
  unfold detectHintCategory.
  destruct (_ || _)%bool; [now left|].
  destruct r as [result| |]; [|now right|now right].
  destruct (_ && _)%bool; now right.
Qed.

Lemma value_calls (db : database T) (p : plan) (r : reply value_json) :
  snd (valueStep Number_toString db p r) = []
  \/ snd (valueStep Number_toString db p r) = [CallValue].
Proof.
  unfold valueStep.
  destruct (negb _); [now left|].
  destruct (candidates_of Number_toString db p) as [cands|]; [|now left].
  destruct (Nat.eqb _ _); [now left|].
  destruct (_ && _)%bool; [|now left].
  destruct r as [vp| |]; [|now right|now right].
  destruct (vp_value vp); try (now right);
    match goal with
    | |- context [hits ?c ?s] => destruct (hits c s); now right
    end.
Qed.

Lemma candidate_calls (db : database T) (p : plan)
    (service : outcome (option (list T))) :
  snd (candidateIds String_toNumber db p service) = []
  \/ snd (candidateIds String_toNumber db p service) = [CallEmbedding].
Proof.
  unfold candidateIds, generateEmbedding.
  destruct (_ && _)%bool; [|now left].
  destruct (semanticQuery p) as [| | | |s|]; try (now left).
  destruct (nonempty (trim s)); [|now left].
  destruct service as [[v|]|e]; try (now right).
  destruct (semanticSearch _ _ _ _); now right.
Qed.

(** X14.  One question costs at most six calls of the inference and embedding
    services, made in a fixed order: hint, intent, parameters, value,
    embedding, answer, each at most once (a general question: hint,
    intent, general answer).  A request without [urn] or without
    [question] costs none. *)
Theorem handler_calls (db : database T) (u question : string) (sv : services) :
  let calls := snd (handle db u question sv) in
  (subsequence calls [CallHint; CallIntent; CallGeneral]
   || subsequence calls [CallHint; CallIntent; CallParameters; CallValue;
                         CallEmbedding; CallAnswer])%bool = true
  /\ (nonempty u && nonempty question = false -> calls = [])%bool.
Proof.
  unfold handler, planning.
  destruct (nonempty u); cbn [negb andb]; cbv iota;
    [|split; [reflexivity|reflexivity]].
  destruct (nonempty question); cbn [negb]; cbv iota zeta;
    [|split; [reflexivity|reflexivity]].
  split; [|discriminate].
  pose proof (hint_calls question (categories (getMeta Number_toString db u))
                (hint_reply sv)) as Hh.
  destruct (detectHintCategory question
              (categories (getMeta Number_toString db u)) (hint_reply sv))
    as [hint c0]. cbn [snd] in Hh.
  destruct (intent_reply sv) as [plan1| |e];
    [|destruct Hh as [-> | ->]; reflexivity
     |destruct Hh as [-> | ->]; reflexivity].
  destruct (is_str (p1_intent plan1) "general"); cbv iota.
  { destruct (general_text sv); destruct Hh as [-> | ->]; reflexivity. }
  destruct (params_reply sv) as [plan2| |e];
    [|destruct Hh as [-> | ->]; reflexivity
     |destruct Hh as [-> | ->]; reflexivity].
  match goal with
  | |- context [valueStep _ _ ?p0 ?r] =>
      pose proof (value_calls db p0 r) as Hv;
      destruct (valueStep Number_toString db p0 r) as [p cv]
  end.
  cbn [snd] in Hv. cbv iota beta.
  unfold runQuery.
  pose proof (candidate_calls db p (embedding_service sv)) as He.
  destruct (candidateIds String_toNumber db p (embedding_service sv)) as [ids ce].
  cbn [snd] in He.
  destruct (run_task Number_toString sqlite_all db
              (getMeta Number_toString db u) p ids);
    [destruct (answer_text sv)|];
    destruct Hh as [-> | ->]; destruct Hv as [-> | ->];
    destruct He as [-> | ->]; reflexivity.
Qed.




(** *** The catalog *)

Lemma stripEmpty_normalised (l : list (jsval T)) (c : string) :
  In c (stripEmpty Number_toString l) ->
  nonempty c = true /\ norm Number_toString (JStr c) = c.
Proof.
  unfold stripEmpty. intros Hin. apply filter_In in Hin.
  destruct Hin as [Hin Hc]. split; [exact Hc|].
  apply in_map_iff in Hin. destruct Hin as (v & <- & _).
  rewrite norm_string. unfold norm. apply trim_idempotent.
Qed.

(** X16.  What [getMeta] hands to the planner is normalised.  Every category of
    the catalog is a non-empty string that [norm] leaves as it is, so a
    plan that names a category of the catalog is run with exactly that
    string as the value of the category clause.  The samples are those of
    the ten attributes of [sampleKeys], at most fifteen values each,
    normalised in the same way. *)
Theorem getMeta_normalised (db : database T) (u : string) :
  let m := getMeta Number_toString db u in
  (forall c, In c (categories m) ->
     nonempty c = true /\ norm Number_toString (JStr c) = c
     /\ forall p : plan, category p = JStr c ->
          query_category Number_toString p = Some c)
  /\ map fst (paramSamples m) = sampleKeys
  /\ forall k vals, In (k, vals) (paramSamples m) ->
       List.length vals <= 15
       /\ forall v, In v vals ->
            nonempty v = true /\ norm Number_toString (JStr v) = v.
Proof.
  intros m. split; [|split].
  - intros c Hc. unfold m, getMeta in Hc. cbn [categories] in Hc.
    apply stripEmpty_normalised in Hc. destruct Hc as [Hne Hn].
    split; [exact Hne|]. split; [exact Hn|].
    intros p Hp. unfold query_category. rewrite Hp. cbn [truthy].
    now rewrite Hne, Hn, Hne.
  - unfold m, getMeta. cbn [paramSamples]. rewrite map_map. cbn [fst].
    apply map_id.
  - intros k vals Hin. unfold m, getMeta in Hin. cbn [paramSamples] in Hin.
    apply in_map_iff in Hin. destruct Hin as (k' & [= <- <-] & Hk).
    destruct (select_distinct_named k' u 15 db) as [found|e] eqn:Es.
    + split.
      * etransitivity; [apply stripEmpty_length|]. rewrite length_map.
        unfold select_distinct_named in Es.
        destruct (text_column k') as [col|]; [|discriminate].
        assert (Ef : found = select_distinct_limit k' col u 15 db)
          by congruence.
        rewrite Ef, select_distinct_limit_length. apply Nat.le_min_l.
      * intros v Hv. now apply stripEmpty_normalised in Hv.
    + split; [simpl; lia|intros v []].
Qed.

End HandlerFacts.


(** ** Semantic retrieval: what it can and cannot narrow *)

Section RetrievalFacts.
Context {T : Type} `{Arith T}.
Variable Number_toString : T -> string.
Variable String_toNumber : string -> T.
Variable sqlite_all : database T -> string -> list (jsval T)
                      -> outcome (list (sqlrow (T:=T))).
Variable raw : Type.
Variable extract : raw -> row T.

Lemma insert_score_has (x z : Z * T) (l : list (Z * T)) :
  z = x \/ In z l -> In z (insert_score x l).
Proof.
  induction l as [|y l IH]; simpl.
  - intros [->|[]]. now left.
  - destruct (num_is_pos (num_sub (snd y) (snd x))); simpl.
    + intros [->|[->|Hz]]; [right; apply IH; now left|now left|].
      right. apply IH. now right.
    + intros [->|[->|Hz]]; [now left|right; now left|right; now right].
Qed.

Lemma sort_scores_has (z : Z * T) (l : list (Z * T)) :
  In z l -> In z (sort_scores l).
Proof.
  induction l as [|x l IH]; simpl; [easy|].
  intros [->|Hz]; apply insert_score_has; [now left|right; now apply IH].
Qed.

Lemma score_rows_ids (q : list T) (rows : list (Z * option (list T))) :
  forall scores, score_rows q rows = Ok scores -> map fst scores = map fst rows.
Proof.
  induction rows as [|[i [v|]] rows IH]; simpl; intros scores Hs.
  - now injection Hs as <-.
  - destruct (score_rows q rows) as [l|m]; [|discriminate Hs].
    injection Hs as <-. simpl. f_equal. now apply IH.
  - discriminate Hs.
Qed.

Lemma score_rows_total (q : list T) (rows : list (Z * option (list T))) :
  (forall i, ~ In (i, None) rows) -> exists scores, score_rows q rows = Ok scores.
Proof.
  intros Hnone. destruct (score_rows q rows) as [scores|m] eqn:E;
    [now exists scores|].
  destruct (score_rows_Throw _ _ E) as [i Hi]. now destruct (Hnone i).
Qed.

(** X17.  With [K] at least the number of rows of the partition that have an
    embedding, semantic retrieval returns every one of them, whatever the
    question: the similarities only decide the order.  (The handler asks
    for a hundred candidates unless the planner says otherwise.) *)
Theorem semanticSearch_returns_all (db : database T) (u : string) (q : list T)
    (k : Z) :
  let rows := select_embeddings u db in
  (Z.of_nat (List.length rows) <= k)%Z ->
  (forall i, ~ In (i, None) rows) ->
  exists ids,
    semanticSearch db u q (Fin k) = Ok ids
    /\ List.length ids = List.length rows
    /\ forall i, In i ids <-> In i (map fst rows).
Proof.
  intros rows Hk Hnone. unfold semanticSearch. fold rows.
  destruct (Nat.eqb (List.length rows) 0) eqn:E0.
  - apply Nat.eqb_eq in E0. destruct rows; [|discriminate].
    exists []. repeat split; intros [].
  - destruct (score_rows_total q rows Hnone) as [scores Hs]. rewrite Hs.
    pose proof (score_rows_ids _ _ Hs) as Hids.
    assert (Hlen : List.length scores = List.length rows).
    { rewrite <- (length_map fst scores), Hids. apply length_map. }
    assert (Hall : slice0 (sort_scores scores) (Fin k) = sort_scores scores).
    { unfold slice0. rewrite sort_scores_length.
      destruct (k <? 0)%Z eqn:Ek; [apply Z.ltb_lt in Ek; lia|].
      apply firstn_all2. rewrite sort_scores_length. lia. }
    exists (map fst (sort_scores scores)). rewrite Hall.
    split; [reflexivity|]. split.
    + now rewrite length_map, sort_scores_length.
    + intros i. rewrite <- Hids, !in_map_iff. split.
      * intros (z & <- & Hz). exists z. split; [reflexivity|now apply sort_scores_In].
      * intros (z & <- & Hz). exists z. split; [reflexivity|now apply sort_scores_has].
Qed.

Lemma select_embeddings_none (u : string) (db : database T) :
  Forall (fun r => embedding r = None) (partition_rows u db) ->
  select_embeddings u db = [].
Proof.
  unfold partition_rows, select_embeddings.
  induction (filter (in_urn u) (elements db)) as [|e l IH]; [reflexivity|].
  cbn [map flat_map]. intros Hall. inversion Hall as [|? ? He Hrest]; subst.
  rewrite He. now apply IH.
Qed.

(** X18.  A model ingested by viewer snapshot is never narrowed by semantic
    retrieval.  The snapshot service stores every row without embedding,
    so [semanticSearch] finds no candidate for any question, and
    [runQuery] runs the plan as it would without semantic search. *)
Theorem snapshot_has_no_candidates (u g : string) (chunks : list (list raw))
    (db : database T) (q : list T) (k : ext_int) (m : meta) (p : plan)
    (service : outcome (option (list T))) :
  let stored := snapshot extract u g chunks db in
  semanticSearch stored u q k = Ok []
  /\ (plan_urn p = u ->
      fst (runQuery Number_toString String_toNumber sqlite_all stored m p service)
      = run_task Number_toString sqlite_all stored m p None).
Proof.
  intros stored.
  assert (Hnone : select_embeddings u stored = []).
  { apply select_embeddings_none. unfold stored.
    rewrite partition_rows_snapshot. apply Forall_forall.
    intros r Hr. apply in_map_iff in Hr. now destruct Hr as (e & <- & _). }
  assert (Hsearch : forall q' k', semanticSearch stored u q' k' = Ok []).
  { intros q' k'. unfold semanticSearch. now rewrite Hnone. }
  split; [apply Hsearch|].
  intros Hu. unfold runQuery, candidateIds.
  destruct (truthy (useSemanticSearch p) && truthy (semanticQuery p))%bool;
    [|reflexivity].
  destruct (generateEmbedding (semanticQuery p) service) as [[[q'|]|e] calls];
    try reflexivity.
  rewrite Hu, Hsearch. reflexivity.
Qed.

End RetrievalFacts.

Lemma semanticSearch_returns_all_witness :
  exists ids,
    semanticSearch db3 "u" [1%float; 0%float] (Fin 100) = Ok ids
    /\ List.length ids = 3
    /\ forall i, In i ids <-> In i [1%Z; 2%Z; 3%Z].
Proof.
  apply (@semanticSearch_returns_all float _ db3 "u" [1%float; 0%float] 100).
  - vm_compute. discriminate.
  - intros i Hi. vm_compute in Hi.
    destruct Hi as [Hi|[Hi|[Hi|[]]]]; discriminate Hi.
Defined.

(** ** Cosine similarity is symmetric *)

Section Symmetry.
Context {T : Type} `{Arith T}.
Hypothesis mul_comm : forall x y : T, num_mul x y = num_mul y x.

Lemma cosine_loop_swap (a : list T) : forall b d ma mb,
  fold_left cosine_step (combine b a) (d, mb, ma)
  = let '(d', ma', mb') := fold_left cosine_step (combine a b) (d, ma, mb) in
    (d', mb', ma').
Proof.
  induction a as [|x a IH]; intros [|y b] d ma mb; try reflexivity.
  cbn [combine fold_left cosine_step]. rewrite IH, (mul_comm y x). reflexivity.
Qed.

Lemma cosine_symmetric (a b : list T) :
  cosineSimilarity a b = cosineSimilarity b a.
Proof.
  unfold cosineSimilarity. rewrite (Nat.eqb_sym (List.length b)).
  destruct (negb _); [reflexivity|].
  rewrite (cosine_loop_swap a b num_zero num_zero num_zero).
  destruct (fold_left cosine_step (combine a b) (num_zero, num_zero, num_zero))
    as [[d ma] mb].
  cbv beta iota zeta. now rewrite (mul_comm (num_sqrt mb) (num_sqrt ma)).
Qed.

End Symmetry.

Lemma SFmul_comm (x y : spec_float) : SFmul prec emax x y = SFmul prec emax y x.
Proof.
  destruct x as [sx|sx| |sx mx ex], y as [sy|sy| |sy my ey]; simpl;
    rewrite ?(xorb_comm sx sy), ?(Pos.mul_comm mx my), ?(Z.add_comm ex ey);
    reflexivity.
Qed.

Lemma float_mul_comm (x y : float) : (x * y = y * x)%float.
Proof.
  rewrite <- (SF2Prim_Prim2SF (x * y)), <- (SF2Prim_Prim2SF (y * x)).
  now rewrite !mul_spec, SFmul_comm.
Qed.

(** X19.  [cosineSimilarity(a, b)] and [cosineSimilarity(b, a)] are the same
    number: in exact arithmetic, and bit for bit in binary64, where the
    products and the three sums are computed in the same order either
    way and a product of two numbers does not depend on their order. *)
Theorem cosineSimilarity_symmetric :
  (forall a b : list float, cosineSimilarity a b = cosineSimilarity b a)
  /\ (forall a b : list R, cosineSimilarity a b = cosineSimilarity b a).
Proof.
  split; intros a b; apply cosine_symmetric.
  - exact float_mul_comm.
  - intros x y. apply Rmult_comm.
Qed.

(** ** [routes/chat.js]: statements and their values *)

Section BindingFacts.
Context {T : Type} `{Arith T}.
Variable Number_toString : T -> string.
Variable engine : database T -> string -> list (jsval T)
                  -> outcome (list (sqlrow (T:=T))).

Local Abbreviation to_Str := (to_String Number_toString).

Lemma placeholders_app (a b : string) :
  placeholders (a ++ b) = placeholders a + placeholders b.
Proof. induction a as [|c a IH]; simpl; [reflexivity|]. rewrite IH. lia. Qed.

Lemma placeholders_uint (d : Decimal.uint) :
  placeholders (NilEmpty.string_of_uint d) = 0.
Proof. induction d; simpl; try reflexivity; exact IHd. Qed.

Lemma placeholders_Z (z : Z) : placeholders (string_of_Z z) = 0.
Proof.
  unfold string_of_Z, NilZero.string_of_int.
  destruct (Z.to_int z) as [d|d]; unfold NilZero.string_of_uint.
  - destruct d; try reflexivity; apply (placeholders_uint (_ d)).
  - simpl. destruct d; try reflexivity; apply (placeholders_uint (_ d)).
Qed.

Lemma placeholders_ids (ids : list Z) :
  placeholders (String.concat "," (map string_of_Z ids)) = 0.
Proof.
  induction ids as [|i ids IH]; [reflexivity|].
  destruct ids as [|j ids]; [apply placeholders_Z|].
  cbn [map String.concat] in *.
  rewrite !placeholders_app, placeholders_Z. exact IH.
Qed.

Lemma placeholders_allowed (v : jsval T) :
  allowed_or_null v -> truthy v = true -> placeholders (to_Str v) = 0.
Proof.
  intros [->|(a & Ha & ->)] Ht; [discriminate|]. cbn [to_String].
  simpl in Ha.
  repeat (destruct Ha as [<-|Ha]; [reflexivity|]). destruct Ha.
Qed.

Lemma placeholders_where (m : meta) (p : plan) (ids : option (list Z)) :
  categoryField m = "component_type"%string ->
  allowed_or_null (filterParam p) ->
  placeholders (whereClause Number_toString m p ids)
  = List.length (params Number_toString p).
Proof.
  intros Hm Hf. unfold whereClause, whereClauses, params. rewrite Hm.
  assert (Hids : forall rest : list string,
            placeholders
              (String.concat " AND "
                 (match ids with
                  | Some (i :: ids') =>
                      [("id IN (" ++ String.concat "," (map string_of_Z (i :: ids'))
                        ++ ")")%string]
                  | _ => []
                  end ++ rest))
            = placeholders (String.concat " AND " rest)).
  { intros rest. destruct ids as [[|i ids']|]; try reflexivity.
    destruct rest as [|r rest]; cbn [Datatypes.app String.concat];
      rewrite !placeholders_app, placeholders_ids; reflexivity. }
  cbn [Datatypes.app].
  assert (Hrest : forall rest : list string,
            placeholders (String.concat " AND " ("urn = ?"%string :: rest))
            = 1 + placeholders (String.concat " AND " rest)).
  { intros [|r rest]; [reflexivity|].
    cbn [String.concat]. now rewrite !placeholders_app. }
  rewrite Hrest, Hids. cbn [List.length]. f_equal.
  assert (Hfp : has_filter Number_toString p = true ->
                placeholders (to_Str (filterParam p)) = 0).
  { intros Eh. unfold has_filter in Eh. apply andb_true_iff in Eh.
    destruct Eh as [Et _]. exact (placeholders_allowed Hf Et). }
  destruct (query_category Number_toString p) as [c|];
    destruct (has_filter Number_toString p) eqn:Eh;
    cbn [Datatypes.app String.concat List.length];
    rewrite ?placeholders_app, ?(Hfp eq_refl); reflexivity.
Qed.

Lemma checked_accepts (db : database T) (sql : string) (values : list (jsval T)) :
  forallb binds_one values = true ->
  placeholders sql = List.length values ->
  checked engine db sql values = engine db sql values.
Proof. intros Hb E. unfold checked. now rewrite Hb, E, Nat.eqb_refl. Qed.

Lemma params_bind (p : plan) :
  bindable (filterValue p) = true ->
  forallb binds_one (params Number_toString p) = true.
Proof.
  intros Hb. unfold params. rewrite !forallb_app. cbn [forallb binds_one andb].
  destruct (query_category Number_toString p) as [c|];
    cbn [forallb binds_one andb]; unfold has_filter;
    destruct (truthy (filterParam p)); cbn [andb forallb]; try reflexivity;
    destruct (filterValue p) as [| |b|x|s|s]; try discriminate Hb;
    try reflexivity;
    match goal with
    | |- context [nonempty ?t] => destruct (nonempty t); reflexivity
    end.
Qed.

Lemma limit_binds (p : plan) : binds_one (query_limit p) = true.
Proof.
  unfold query_limit. destruct (limit p) as [| |b|x|t|t]; try reflexivity.
  destruct (num_is_finite x); reflexivity.
Qed.

Lemma params_limit_bind (p : plan) :
  bindable (filterValue p) = true ->
  forallb binds_one (params Number_toString p ++ [query_limit p]) = true.
Proof.
  intros Hb. rewrite forallb_app, (params_bind p Hb). cbn [forallb andb].
  now rewrite limit_binds.
Qed.

(** X21.  Every statement is called with as many arguments as it has
    placeholders.  For a plan whose [filterParam] and [targetParam] are
    [null] or on the allow-list (as they are once the handler has
    normalised them) and whose [filterValue] is a string or a number (or
    is not given), the statement [runQuery] prepares for any of the five
    tasks, with or without candidate ids, has exactly one placeholder per
    argument of the call, and every argument is a number or a string: a
    store that lets only such calls through answers as one that checks
    nothing.  (An array as [filterValue] counts as one argument and is
    bound as several: it is not covered.) *)
Theorem statements_bind_their_values (db : database T) (m : meta) (p : plan)
    (ids : option (list Z)) :
  categoryField m = "component_type"%string ->
  allowed_or_null (filterParam p) ->
  allowed_or_null (targetParam p) ->
  bindable (filterValue p) = true ->
  run_task Number_toString (checked engine) db m p ids
  = run_task Number_toString engine db m p ids.
Proof.
  intros Hm Hf Ht Hb.
  pose proof (placeholders_where m p ids Hm Hf) as Hw.
  pose proof (params_bind p Hb) as Hp.
  pose proof (params_limit_bind p Hb) as Hl.
  unfold run_task.
  destruct (is_str (task p) "count").
  { rewrite checked_accepts; [reflexivity|exact Hp|].
    unfold sql_count. now rewrite !placeholders_app, Hw. }
  destruct (is_str (task p) "distinct").
  { destruct (truthy (targetParam p)) eqn:Et; cbn [negb]; [|reflexivity].
    rewrite checked_accepts; [reflexivity|exact Hl|].
    unfold sql_distinct.
    rewrite !placeholders_app, Hw, (placeholders_allowed Ht Et), length_app.
    simpl. lia. }
  destruct (is_str (task p) "group_count").
  { destruct (truthy (targetParam p)) eqn:Et; cbn [negb]; [|reflexivity].
    rewrite checked_accepts; [reflexivity|exact Hl|].
    unfold sql_group_count.
    rewrite !placeholders_app, Hw, (placeholders_allowed Ht Et), length_app.
    simpl. lia. }
  destruct (is_str (task p) "sum_area").
  { destruct (truthy (propsFlatKey p)); cbn [negb]; [|reflexivity].
    rewrite checked_accepts; [reflexivity| |].
    - cbn [forallb binds_one andb]. exact Hp.
    - unfold sql_sum_area. rewrite !placeholders_app, Hw. reflexivity. }
  rewrite checked_accepts; [reflexivity|exact Hl|].
  unfold sql_list. rewrite !placeholders_app, Hw, length_app. simpl. lia.
Qed.

End BindingFacts.

Lemma statements_bind_their_values_witness :
  run_task toString0 (checked count_engine) db_doors no_meta kitchen_plan (Some [1%Z; 2%Z])
  = run_task toString0 count_engine db_doors no_meta kitchen_plan (Some [1%Z; 2%Z]).
Proof.
  apply (@statements_bind_their_values float _ toString0 count_engine db_doors
           no_meta kitchen_plan (Some [1%Z; 2%Z]) eq_refl).
  - right. exists "room_name"%string. split; [simpl; tauto|reflexivity].
  - now left.
  - reflexivity.
Defined.
